(** * powerbox.tools: radial binning, angular averaging and power spectra

    A shallow embedding of [src/powerbox/tools.py].  Floating-point numbers
    are idealised as the real numbers [R], except where a result is turned
    into an integer (the default number of bins of [get_power]), which is
    computed in binary64; a not-a-number value is modelled by [None] where
    the source manipulates it (the interpolation path).
    NumPy arrays are row-major value lists with a shape, Python exceptions
    are an explicit result type, and the library routines the source calls
    ([np.digitize], [np.bincount], [np.linspace], ...) are written out as
    list functions under their NumPy names. *)

From Stdlib Require Import String.
From Stdlib Require Import Floats.
From Stdlib Require Import Reals Lra Lia List Bool Arith ZArith Sorted.
Import ListNotations.
Open Scope R_scope.

(** ** Exceptions *)

Inductive error : Type :=
| ValueError
| NotImplementedError
| TypeError
| AttributeError
| IndexError
| UnboundLocalError
| ZeroDivisionError
| OverflowError.

Inductive result (A : Type) : Type :=
| Ok (a : A)
| Raise (e : error).
Arguments Ok {A} a.
Arguments Raise {A} e.

Definition bind {A B : Type} (m : result A) (k : A -> result B) : result B :=
  match m with
  | Ok a => k a
  | Raise e => Raise e
  end.

Notation "x <- m ;; k" := (bind m (fun x => k))
  (at level 61, m at next level, right associativity).
Notation "' p <- m ;; k" := (bind m (fun p => k))
  (at level 61, p pattern, m at next level, right associativity).

Fixpoint mapM {A B : Type} (f : A -> result B) (l : list A) : result (list B) :=
  match l with
  | [] => Ok []
  | a :: l' => b <- f a ;; bs <- mapM f l' ;; Ok (b :: bs)
  end.

(** ** Arrays *)

(** An n-dimensional array of reals: its shape and its cells in row-major
    (C) order, which is the order of [arr.flatten()]. *)
Record ndarray : Type := NDArray { shape : list nat; flatten : list R }.

Definition ndim (a : ndarray) : nat := length (shape a).

Definition prod (s : list nat) : nat := fold_right Nat.mul 1%nat s.

(** The [weights] argument: a Python scalar or an array. *)
Inductive weights_arg : Type :=
| WScalar (w : R)
| WArray (w : ndarray).

(** The [bins] argument: a bin count or an explicit edge sequence
    ([np.iterable(bins)]). *)
Inductive bins_arg : Type :=
| BinCount (n : nat)
| BinEdges (edges : list R).

(** Complex numbers as pairs (real part, imaginary part). *)
Definition C : Type := (R * R)%type.

(** The cells of a field, tagged with the kind of its dtype. *)
Inductive fdata : Type :=
| RealData (v : list R)
| ComplexData (v : list C).

Record field : Type := Field { field_shape : list nat; cells : fdata }.

Definition is_complex (d : fdata) : bool :=
  match d with RealData _ => false | ComplexData _ => true end.

Definition np_real (d : fdata) : list R :=
  match d with RealData v => v | ComplexData v => map fst v end.

Definition np_imag (d : fdata) : list R :=
  match d with RealData v => map (fun _ => 0) v | ComplexData v => map snd v end.

Definition fdata_len (d : fdata) : nat := length (np_real d).

(** ** Elementwise helpers *)

Definition Rsum (l : list R) : R := fold_right Rplus 0 l.

Fixpoint map2 {A B D : Type} (f : A -> B -> D) (l : list A) (l' : list B) : list D :=
  match l, l' with
  | a :: t, b :: t' => f a b :: map2 f t t'
  | _, _ => []
  end.

Definition Rleb (x y : R) : bool := if Rle_dec x y then true else false.
Definition Rltb (x y : R) : bool := if Rlt_dec x y then true else false.
Definition Reqb (x y : R) : bool := if Req_dec_T x y then true else false.

Definition list_eqb {A : Type} (eqb : A -> A -> bool) : list A -> list A -> bool :=
  fix go (l l' : list A) : bool :=
    match l, l' with
    | [], [] => true
    | a :: t, b :: t' => eqb a b && go t t'
    | _, _ => false
    end.

Definition shape_eqb : list nat -> list nat -> bool := list_eqb Nat.eqb.

(** [a[1:-1]]. *)
Definition slice_1_m1 {A : Type} (l : list A) : list A := removelast (tl l).

(** [np.ones(n)]. *)
Definition ones (n : nat) : list R := repeat 1 n.

(** Minimum and maximum of a list; NumPy raises [ValueError] on an empty one. *)
Definition np_min (l : list R) : result R :=
  match l with
  | [] => Raise ValueError
  | x :: t => Ok (fold_left Rmin t x)
  end.

Definition np_max (l : list R) : result R :=
  match l with
  | [] => Raise ValueError
  | x :: t => Ok (fold_left Rmax t x)
  end.

(** ** NumPy routines used by the source *)

(** [np.max(a, axis=i)]: reduce one axis of a row-major array.  A cell of
    the result is addressed by the block [o] of the axes before [i] and the
    offset [j] within the axes after it.  Reducing an axis of extent zero
    raises [ValueError]. *)
Definition amax_axis (a : ndarray) (i : nat) : result ndarray :=
  let outer := prod (firstn i (shape a)) in
  let n := nth i (shape a) 0%nat in
  let inner := prod (skipn (S i) (shape a)) in
  match n with
  | O => Raise ValueError
  | S n' =>
      Ok (NDArray (firstn i (shape a) ++ skipn (S i) (shape a))
            (flat_map
               (fun o =>
                  map (fun j =>
                         fold_left Rmax
                           (map (fun k => nth ((o * n + k) * inner + j) (flatten a) 0)
                              (seq 1 n'))
                           (nth ((o * n) * inner + j) (flatten a) 0))
                    (seq 0 inner))
               (seq 0 outer)))
  end.

(** [np.linspace(start, stop, num)] with the default [endpoint=True]: the
    samples [start + i * step], the last one overwritten by [stop]. *)
Definition linspace (start stop : R) (num : nat) : list R :=
  let div := (num - 1)%nat in
  let step := (stop - start) / INR div in
  let y := map (fun i => INR i * step + start) (seq 0 num) in
  if (1 <? num)%nat then removelast y ++ [stop] else y.

Definition log10 (x : R) : R := ln x / ln 10.

(** [np.logspace(start, stop, num)], base 10. *)
Definition logspace (start stop : R) (num : nat) : list R :=
  map (Rpower 10) (linspace start stop num).

(** [np.digitize(x, bins)] with [right=False] on increasing [bins]: the
    insertion point after the last edge that is [<= x].  Bins that are not
    monotonic, which NumPy rejects, and decreasing bins are outside this
    model; every property below assumes increasing edges. *)
Fixpoint digitize1 (x : R) (bins : list R) : nat :=
  match bins with
  | [] => O
  | e :: rest => if Rle_dec e x then S (digitize1 x rest) else O
  end.

Definition digitize (xs bins : list R) : list nat :=
  map (fun x => digitize1 x bins) xs.

(** Length of the output of [np.bincount(indx, minlength=m)]. *)
Definition bincount_len (indx : list nat) (minlength : nat) : nat :=
  match indx with
  | [] => minlength
  | _ => Nat.max minlength (S (list_max indx))
  end.

(** [np.bincount(indx, minlength=m)]: the number of occurrences of each
    index. *)
Definition bincount (indx : list nat) (minlength : nat) : list nat :=
  map (fun k => count_occ Nat.eq_dec indx k) (seq 0 (bincount_len indx minlength)).

(** [np.bincount(indx, weights=w, minlength=m)]: [out[k]] is the sum of the
    [w[i]] with [indx[i] = k].  Arrays of different lengths raise
    [ValueError]. *)
Definition bin_total (indx : list nat) (w : list R) (k : nat) : R :=
  Rsum (map snd (filter (fun p => Nat.eqb (fst p) k) (combine indx w))).

Definition bincount_w (indx : list nat) (w : list R) (minlength : nat)
  : result (list R) :=
  if Nat.eqb (length indx) (length w)
  then Ok (map (bin_total indx w) (seq 0 (bincount_len indx minlength)))
  else Raise ValueError.

(** ** [_getbins] *)

(** The [max_radius] of [_getbins]: the minimum over all axes of the maxima
    taken along that axis.  The source first asks NumPy for the minimum of
    the list of per-axis maxima, which succeeds when they share a shape
    (a cube), and on [ValueError] falls back to flattening them into one
    list; both reductions range over the same values. *)
Definition max_radius (coords : ndarray) : result R :=
  maxs <- mapM (amax_axis coords) (seq 0 (ndim coords)) ;;
  np_min (flat_map flatten maxs).

Definition _getbins (bins : bins_arg) (coords : ndarray) (log : bool)
  : result (list R) :=
  mx <- max_radius coords ;;
  match bins with
  | BinEdges edges => Ok edges
  | BinCount n =>
      if negb log then
        mn <- np_min (flatten coords) ;;
        Ok (linspace mn mx (n + 1))
      else
        mn <- np_min (filter (fun c => Rltb 0 c) (flatten coords)) ;;
        Ok (logspace (log10 mn) (log10 mx) (n + 1))
  end.

(** ** [_magnitude_grid] *)

(** [np.meshgrid] of the axes with [ij] indexing, flattened: the tuples of
    the Cartesian product, the last axis varying fastest. *)
Fixpoint meshgrid_ij (axes : list (list R)) : list (list R) :=
  match axes with
  | [] => [[]]
  | a :: rest => flat_map (fun x => map (cons x) (meshgrid_ij rest)) a
  end.

Definition _magnitude_grid (x : list (list R)) : ndarray :=
  NDArray (map (@length R) x)
    (map (fun p => sqrt (Rsum p)) (meshgrid_ij (map (map (fun c => c ^ 2)) x))).

(** ** [_get_binweights] *)

(** [weights * coords] and [field * weights] for a scalar or a same-shape
    array. *)
Definition scale_by (weights : weights_arg) (v : list R) : list R :=
  match weights with
  | WScalar w => map (fun c => w * c) v
  | WArray w => map2 Rmult (flatten w) v
  end.

Definition _get_binweights (coords : ndarray) (weights : weights_arg)
    (bins : bins_arg) (average bin_ave log_bins : bool)
  : result (list nat * list R * list R) :=
  bins <- _getbins bins coords log_bins ;;
  let indx := digitize (flatten coords) bins in
  if average || bin_ave then
    sumweights <-
      match weights with
      | WArray w =>
          if negb (shape_eqb (shape coords) (shape w)) then Raise ValueError
          else
            c <- bincount_w indx (flatten w) (length bins + 1) ;;
            Ok (slice_1_m1 c)
      | WScalar _ =>
          Ok (map INR (slice_1_m1 (bincount indx (length bins + 1))))
      end ;;
    let binweight := sumweights in
    let sumweights := if average then sumweights else map (fun _ => 1) binweight in
    if bin_ave then
      c <- bincount_w indx (scale_by weights (flatten coords)) (length bins + 1) ;;
      Ok (indx, map2 Rdiv (slice_1_m1 c) binweight, sumweights)
    else Ok (indx, bins, sumweights)
  else
    match bins with
    | [] => Raise ValueError
    | _ => Ok (indx, bins, ones (length bins - 1))
    end.

(** ** [_field_average] *)

Definition weights_shape_ok (weights : weights_arg) (s : list nat) : bool :=
  match weights with
  | WScalar _ => true
  | WArray w => shape_eqb s (shape w)
  end.

Definition _field_average (indx : list nat) (fld : field) (weights : weights_arg)
    (sumweights : list R) : result fdata :=
  if negb (weights_shape_ok weights (field_shape fld)) then Raise ValueError
  else
    r <- bincount_w indx (scale_by weights (np_real (cells fld)))
           (length sumweights + 2) ;;
    let rl := map2 Rdiv (slice_1_m1 r) sumweights in
    if is_complex (cells fld) then
      i <- bincount_w indx (scale_by weights (np_imag (cells fld)))
             (length sumweights + 2) ;;
      let im := map2 Rdiv (slice_1_m1 i) sumweights in
      Ok (ComplexData (combine rl im))
    else Ok (RealData rl).

(** ** [_field_variance] *)

Definition _field_variance (indx : list nat) (fld : field) (average : list R)
    (weights : weights_arg) (V1 : list R) : result (list R) :=
  match cells fld with
  | ComplexData _ => Raise NotImplementedError
  | RealData f =>
      let padded := [0] ++ average ++ [0] in
      let average_field := map (fun i => nth i padded 0) indx in
      V2 <-
        match weights with
        | WArray w =>
            c <- bincount_w indx (map (fun x => x ^ 2) (flatten w)) (length V1 + 2) ;;
            Ok (slice_1_m1 c)
        | WScalar _ => Ok V1
        end ;;
      let sq := scale_by weights
                  (map2 (fun x a => (x - a) ^ 2) f average_field) in
      c <- bincount_w indx sq (length V1 + 2) ;;
      let res := map2 Rdiv (slice_1_m1 c)
                   (map2 (fun v1 v2 => v1 - v2 / v1) V1 V2) in
      Ok (map2 Rmult res (map2 (fun v2 v1 => v2 / v1 ^ 2) V2 V1))
  end.

(** ** [_spherical2cartesian] *)

(** [np.cumprod] along the angle axis. *)
Fixpoint cumprod_from (acc : R) (l : list R) : list R :=
  match l with
  | [] => []
  | x :: t => (acc * x) :: cumprod_from (acc * x) t
  end.

Definition cumprod (l : list R) : list R := cumprod_from 1 l.

(** [np.roll(a, -1)] along the angle axis. *)
Definition roll_m1 (l : list R) : list R :=
  match l with
  | [] => []
  | x :: t => t ++ [x]
  end.

(** The transform of one sample point: its radius and its column of
    [phi_n], the [ndim - 1] angles.  The branches are those of the source,
    selected by the number of angle rows. *)
Definition spherical2cartesian_point (r : R) (phi : list R) : list R :=
  match phi with
  | [p0] => [r * cos p0; r * sin p0]
  | [p0; p1] => [r * cos p0; r * (sin p0 * cos p1); r * (sin p0 * sin p1)]
  | _ =>
      let phi_n := (2 * PI * 1) :: phi in
      let sines := 1 :: tl (map sin phi_n) in
      let cum_sines := cumprod sines in
      let cosines := roll_m1 (map cos phi_n) in
      map2 (fun s c => s * c * r) cum_sines cosines
  end.

(** The whole sample set.  [phi_n] is held by columns, one angle tuple per
    sample point, and the result is the list of Cartesian points (the
    transpose [sample_coords.T] of the source's array).  Radii and columns
    that do not pair up cannot be broadcast. *)
Definition _spherical2cartesian (r_n : list R) (phi_n : list (list R))
  : result (list (list R)) :=
  if Nat.eqb (length r_n) (length phi_n)
  then Ok (map2 spherical2cartesian_point r_n phi_n)
  else Raise ValueError.

(** ** Angular sample generators *)

(** [np.round]: to the nearest integer, halves to the even neighbour. *)
Definition np_round (x : R) : Z :=
  let f := Int_part x in
  let d := frac_part x in
  if Rlt_dec d (1 / 2) then f
  else if Rlt_dec (1 / 2) d then (f + 1)%Z
  else if Z.even f then f else (f + 1)%Z.

(** [np.meshgrid] with the default [xy] indexing, flattened: the first two
    axes are swapped, so the second input varies slowest. *)
Definition meshgrid_xy (axes : list (list R)) : list (list R) :=
  match axes with
  | a1 :: a2 :: rest =>
      flat_map (fun y =>
        flat_map (fun x => map (fun t => x :: y :: t) (meshgrid_ij rest)) a1) a2
  | _ => meshgrid_ij axes
  end.

Definition num_angular_bins (angular_resolution r : R) : nat :=
  Z.to_nat (Z.max (np_round (2 * PI * r / angular_resolution)) 100).

(** A generator returns the radii [r_n] and the angle columns [phi_n], or
    raises. *)
Definition generator : Type := list R -> nat -> result (list R * list (list R)).

(** Without a radius [np.concatenate] has no array to join, and without
    an angle the grid of a radius cannot be reshaped to zero rows: both
    raise [ValueError]. *)
Definition regular_angular_generator_res (angular_resolution : R) : generator :=
  fun bins dims2avg =>
    let per_radius (r : R) :=
      let n := num_angular_bins angular_resolution r in
      meshgrid_xy (linspace 0 (2 * PI) n :: repeat (linspace 0 PI n) (dims2avg - 1)) in
    match bins, dims2avg with
    | [], _ => Raise ValueError
    | _, O => Raise ValueError
    | _, _ =>
        Ok (flat_map (fun r => repeat r (num_angular_bins angular_resolution r
                                           ^ dims2avg)) bins,
            flat_map per_radius bins)
    end.

Definition regular_angular_generator : generator :=
  regular_angular_generator_res (1 / 10).

Definition above_mu_min_angular_generator_res (angular_resolution mu : R) : generator :=
  fun bins dims2avg =>
    '(r_n, phi_n) <- regular_angular_generator_res angular_resolution bins dims2avg ;;
    let mask (phi : list R) : bool :=
      match phi with
      | [p] => Rleb mu (sin p)
      | _ => forallb (fun p => Rleb mu (sin p)) (tl phi)
      end in
    let kept := filter (fun rp => mask (snd rp)) (combine r_n phi_n) in
    Ok (map fst kept, map snd kept).

Definition above_mu_min_angular_generator : generator :=
  above_mu_min_angular_generator_res (1 / 10) (97 / 100).

(** ** [_sample_coords_interpolate] *)

Definition weights_size_ok (weights : weights_arg) (s : list nat) : bool :=
  match weights with
  | WScalar _ => true
  | WArray w => Nat.eqb (length (flatten w)) (prod s)
  end.

(** A sample point lies in the box when every coordinate is between the
    minimum and the maximum of its axis ([mask1 & mask2]). *)
Definition in_box (mins maxs point : list R) : bool :=
  forallb (fun mc => Rleb (fst mc) (snd mc)) (combine mins point)
  && forallb (fun cM => Rleb (fst cM) (snd cM)) (combine point maxs).

(** The sample points before any is discarded, with their radii: the
    generated angles converted to Cartesian points or, on a single axis,
    the bin radii themselves. *)
Definition candidate_samples (coords : list (list R)) (bins : list R)
    (interp_points_generator : option generator)
  : result (list (list R) * list R) :=
  let gen := match interp_points_generator with
             | None => regular_angular_generator
             | Some g => g
             end in
  if (1 <? length coords)%nat then
    '(r_n, phi_n) <- gen bins (length coords - 1)%nat ;;
    sc <- _spherical2cartesian r_n phi_n ;;
    Ok (sc, r_n)
  else Ok (map (fun b => [b]) bins, bins).

Definition _sample_coords_interpolate (coords : list (list R)) (bins : list R)
    (weights : weights_arg) (interp_points_generator : option generator)
  : result (list (list R) * list R) :=
  let field_shape := map (@length R) coords in
  if negb (weights_size_ok weights field_shape) then Raise ValueError
  else
    '(sample_coords, r_n) <- candidate_samples coords bins interp_points_generator ;;
    mins <- mapM np_min coords ;;
    maxs <- mapM np_max coords ;;
    if existsb (fun p => negb (Nat.eqb (length p) (length coords))) sample_coords
    then Raise ValueError
    else
      let kept := filter (fun pr => in_box mins maxs (fst pr))
                    (combine sample_coords r_n) in
      match kept with
      | [] => Raise ValueError
      | _ => Ok (map fst kept, map snd kept)
      end.

(** ** [_field_average_interpolate] *)

Definition Cplus (a b : C) : C := (fst a + fst b, snd a + snd b).
Definition Cminus (a b : C) : C := (fst a - fst b, snd a - snd b).
Definition Cscale (k : R) (a : C) : C := (k * fst a, k * snd a).
Definition Cnorm2 (a : C) : R := fst a ^ 2 + snd a ^ 2.
Definition Csum (l : list C) : C := fold_right Cplus (0, 0) l.

(** The cells of a field as complex numbers; a real cell has imaginary
    part zero. *)
Definition to_complex (d : fdata) : list C :=
  match d with
  | RealData v => map (fun x => (x, 0)) v
  | ComplexData v => v
  end.

(** The entries that are not NaN. *)
Fixpoint valid {A : Type} (l : list (option A)) : list A :=
  match l with
  | [] => []
  | Some a :: t => a :: valid t
  | None :: t => valid t
  end.

(** [np.nanmean]: the mean of the entries that are not NaN, and NaN when
    there is none. *)
Definition nanmean (l : list (option C)) : option C :=
  match valid l with
  | [] => None
  | v => Some (Cscale (/ INR (length v)) (Csum v))
  end.

(** [np.nanstd]. *)
Definition nanstd (l : list (option C)) : option R :=
  match nanmean l with
  | None => None
  | Some m =>
      let v := valid l in
      Some (sqrt (Rsum (map (fun z => Cnorm2 (Cminus z m)) v) / INR (length v)))
  end.

(** The weight of every cell: [weights.reshape(field.shape)] or
    [np.ones_like(field) * weights]. *)
Definition cell_weights (weights : weights_arg) (n : nat) : list R :=
  match weights with
  | WScalar w => repeat (1 * w) n
  | WArray w => flatten w
  end.

(** Insertion into a strictly increasing list. *)
Fixpoint insert_unique (x : R) (l : list R) : list R :=
  match l with
  | [] => [x]
  | y :: t =>
      if Rlt_dec x y then x :: y :: t
      else if Rlt_dec y x then y :: insert_unique x t
      else y :: t
  end.

(** The counts of [np.unique(a, return_counts=True)]: one per distinct
    value, in increasing order of the values. *)
Definition np_unique (l : list R) : list R := fold_right insert_unique [] l.

Definition np_unique_counts (l : list R) : list nat :=
  map (fun u => count_occ Req_dec_T l u) (np_unique l).

(** A fitted interpolant maps a point to a value, NaN outside the grid. *)
Definition interpolant : Type := list R -> option C.

(** An interpolator that rejects every grid; it stands in where a call
    does not interpolate. *)
Definition rejecting_interpolator
  : list (list R) -> list nat -> list (option C) -> result interpolant :=
  fun _ _ _ => Raise ValueError.

(** An interpolator that accepts every grid and whose interpolant takes
    one value everywhere. *)
Definition constant_interpolator (v : C)
  : list (list R) -> list nat -> list (option C) -> result interpolant :=
  fun _ _ _ => Ok (fun _ => Some v).

Section Interpolation.

(** [scipy.interpolate.RegularGridInterpolator(coords, values,
    bounds_error=False, fill_value=nan)]: an external routine, kept
    abstract.  It receives the axes, the shape and the cells of the
    rescaled field and either rejects them or returns the interpolant. *)
Variable RegularGridInterpolator :
  list (list R) -> list nat -> list (option C) -> result interpolant.

Definition _field_average_interpolate (coords : list (list R)) (fld : field)
    (bins : list R) (weights : weights_arg)
    (sample_coords : list (list R)) (r_n : list R)
  : result (list (option C) * list R) :=
  if negb (weights_size_ok weights (field_shape fld)) then Raise ValueError
  else
    let w := cell_weights weights (fdata_len (cells fld)) in
    let fld_w :=
      map2 (fun z k => if Req_dec_T k 0 then None else Some (Cscale k z))
        (to_complex (cells fld)) w in
    let mean := nanmean fld_w in
    let std := option_map (fun s => Rmax s 1) (nanstd fld_w) in
    let rescaled_field :=
      map (fun c =>
             match c, mean, std with
             | Some z, Some m, Some s => Some (Cscale (/ s) (Cminus z m))
             | _, _, _ => None
             end) fld_w in
    fnc <- RegularGridInterpolator coords (field_shape fld) rescaled_field ;;
    let interped_field :=
      map (fun p =>
             match fnc p, mean, std with
             | Some v, Some m, Some s => Some (Cplus (Cscale s v) m)
             | _, _, _ => None
             end) sample_coords in
    if negb (Nat.eqb (length interped_field) (length r_n)) then Raise IndexError
    else
    let at_radius (b : R) :=
      map fst (filter (fun vr => Reqb (snd vr) b) (combine interped_field r_n)) in
    let avged_field := map (fun b => nanmean (at_radius b)) bins in
    let not_nan :=
      map snd (filter (fun vr => match fst vr with Some _ => true | None => false end)
                 (combine interped_field r_n)) in
    let sumweights := map INR (np_unique_counts not_nan) in
    Ok (avged_field, sumweights).

End Interpolation.

(** ** [angular_average] *)

(** The [coords] argument: the magnitude of the coordinates at each cell,
    or a list of one-dimensional coordinate arrays, one per axis. *)
Inductive coords_arg : Type :=
| CoordsMag (g : ndarray)
| CoordsAxes (axes : list (list R)).

(** [len(coords)]; a zero-dimensional array has no length. *)
Definition coords_len (c : coords_arg) : result nat :=
  match c with
  | CoordsAxes l => Ok (length l)
  | CoordsMag g =>
      match shape g with
      | [] => Raise TypeError
      | n :: _ => Ok n
      end
  end.

Fixpoint chunks (n size : nat) (l : list R) : list (list R) :=
  match n with
  | O => []
  | S n' => firstn size l :: chunks n' size (skipn size l)
  end.

(** Iterating over [coords].  An array yields its leading slices, which
    [np.meshgrid] flattens. *)
Definition coords_rows (c : coords_arg) : list (list R) :=
  match c with
  | CoordsAxes l => l
  | CoordsMag g => chunks (hd O (shape g)) (prod (tl (shape g))) (flatten g)
  end.

(** The coordinate arrays handed to the interpolation routines.  The
    slices of a one-dimensional array are scalars and have no [len]; those
    of an array of more than two dimensions are not one-dimensional and
    are rejected by the interpolator. *)
Definition interp_axes (c : coords_arg) : result (list (list R)) :=
  match c with
  | CoordsAxes l => Ok l
  | CoordsMag g =>
      match ndim g with
      | 1%nat => Raise TypeError
      | 2%nat => Ok (coords_rows c)
      | _ => Raise ValueError
      end
  end.

(** Averaged values: exact cell reductions, or interpolated samples in
    which a NaN can occur. *)
Inductive avalues : Type :=
| Exact (d : fdata)
| Sampled (complex : bool) (v : list (option C)).

(** The returned tuple [(res, bins[, var][, sumweights])]. *)
Record averaged : Type := Averaged {
  res_shape : list nat;
  res : avalues;
  out_bins : list R;
  out_var : option ndarray;
  out_sumweights : option (list R)
}.

Definition unsupported_method (interpolation_method : option String.string) : bool :=
  match interpolation_method with
  | Some m => negb (String.eqb m "linear"%string)
  | None => false
  end.

(** The bin centres used by the interpolation path. *)
Definition bin_centres (bins : list R) (log_bins : bool) : list R :=
  if log_bins
  then map2 (fun hi lo => exp ((ln hi + ln lo) / 2)) (tl bins) (removelast bins)
  else map2 (fun hi lo => (hi + lo) / 2) (tl bins) (removelast bins).

(** The grid of radial magnitudes that [angular_average] works on: built
    from the coordinate arrays when there is one per axis of the field,
    and else the argument itself, which must then be an array and cannot
    be used for interpolation. *)
Definition resolve_coords_grid (fld : field) (coords : coords_arg)
    (interpolation_method : option String.string) : result ndarray :=
  len <- coords_len coords ;;
  if Nat.eqb len (length (field_shape fld))
  then Ok (_magnitude_grid (coords_rows coords))
  else
    match interpolation_method, coords with
    | Some _, _ => Raise ValueError
    | None, CoordsMag g => Ok g
    | None, CoordsAxes _ => Raise AttributeError
    end.

(** The branch of [angular_average] without interpolation: the bin
    assignment and weights, then the reduction of the field. *)
Definition average_cells (fld : field) (coords_grid : ndarray) (bins : bins_arg)
    (weights : weights_arg) (average bin_ave log_bins : bool)
  : result (list nat * fdata * list R * list R) :=
  '(indx, bins, sumweights) <-
    _get_binweights coords_grid weights bins average bin_ave log_bins ;;
  res <- _field_average indx fld weights sumweights ;;
  Ok (indx, res, bins, sumweights).

Section Averaging.

Variable RegularGridInterpolator :
  list (list R) -> list nat -> list (option C) -> result interpolant.

Definition angular_average (fld : field) (coords : coords_arg) (bins : bins_arg)
    (weights : weights_arg) (average bin_ave get_variance log_bins : bool)
    (interpolation_method : option String.string)
    (interp_points_generator : option generator)
    (return_sumweights : bool) : result averaged :=
  if unsupported_method interpolation_method then Raise ValueError
  else
    coords_grid <- resolve_coords_grid fld coords interpolation_method ;;
    '(indx, res, bins, sumweights) <-
      match interpolation_method with
      | None =>
          '(indx, res, bins, sumweights) <-
            average_cells fld coords_grid bins weights average bin_ave log_bins ;;
          Ok (indx, Exact res, bins, sumweights)
      | Some _ =>
          bins <- _getbins bins coords_grid log_bins ;;
          let bins := bin_centres bins log_bins in
          axes <- interp_axes coords ;;
          '(sample_coords, r_n) <-
            _sample_coords_interpolate axes bins weights interp_points_generator ;;
          '(res, sumweights) <-
            _field_average_interpolate RegularGridInterpolator
              axes fld bins weights sample_coords r_n ;;
          Ok ([], Sampled (is_complex (cells fld)) res, bins, sumweights)
      end ;;
    let shp := match res with
               | Exact d => [fdata_len d]
               | Sampled _ v => [length v]
               end in
    let sw := if return_sumweights then Some sumweights else None in
    if get_variance then
      var <-
        match interpolation_method, res with
        | None, Exact d => _field_variance indx fld (np_real d) weights sumweights
        | _, _ => Raise NotImplementedError
        end ;;
      Ok (Averaged shp res bins (Some (NDArray [length var] var)) sw)
    else Ok (Averaged shp res bins None sw).

End Averaging.

(** ** [angular_average_nd] *)

(** Column [i] of [field.reshape((n1, n2))]. *)
Definition column {A : Type} (d : A) (n1 n2 i : nat) (l : list A) : list A :=
  map (fun r => nth (r * n2 + i) l d) (seq 0 n1).

(** The array whose columns are [cols], in row-major order. *)
Definition from_columns {A : Type} (d : A) (nrows : nat) (cols : list (list A))
  : list A :=
  flat_map (fun b => map (fun col => nth b col d) cols) (seq 0 nrows).

Definition fdata_column (n1 n2 i : nat) (d : fdata) : fdata :=
  match d with
  | RealData v => RealData (column 0 n1 n2 i v)
  | ComplexData v => ComplexData (column (0, 0) n1 n2 i v)
  end.

(** [weights.flatten()], or the scalar itself. *)
Definition flat_weights (weights : weights_arg) : weights_arg :=
  match weights with
  | WScalar w => WScalar w
  | WArray w => WArray (NDArray [length (flatten w)] (flatten w))
  end.

Section AveragingND.

Variable RegularGridInterpolator :
  list (list R) -> list nat -> list (option C) -> result interpolant.

(** The reduction of one column without interpolation: its averages and,
    on request, its variances. *)
Definition nd_column_binned (indx : list nat) (weights : weights_arg)
    (sumweights : list R) (get_variance : bool) (fld : field)
  : result (list C * list R) :=
  r <- _field_average indx fld (flat_weights weights) sumweights ;;
  if negb (Nat.eqb (fdata_len r) (length sumweights)) then Raise ValueError
  else if get_variance then
    v <- _field_variance indx fld (np_real r) (flat_weights weights) sumweights ;;
    if negb (Nat.eqb (length v) (length sumweights)) then Raise ValueError
    else Ok (to_complex r, v)
  else Ok (to_complex r, []).

(** The reduction of one column with interpolation: its averages and the
    sample counts. *)
Definition nd_column_interp (axes : list (list R)) (bins : list R)
    (weights : weights_arg) (interp_points_generator : option generator)
    (get_variance : bool) (fld : field)
  : result (list (option C) * list R) :=
  '(sample_coords, r_n) <-
    _sample_coords_interpolate axes bins weights interp_points_generator ;;
  '(r, sumweights) <-
    _field_average_interpolate RegularGridInterpolator
      axes fld bins (flat_weights weights) sample_coords r_n ;;
  if negb (Nat.eqb (length r) (length bins)) then Raise ValueError
  else if get_variance then Raise NotImplementedError
  else Ok (r, sumweights).

Definition angular_average_nd (fld : field) (coords : coords_arg) (bins : bins_arg)
    (n : option nat) (weights : weights_arg)
    (average bin_ave get_variance log_bins : bool)
    (interpolation_method : option String.string)
    (interp_points_generator : option generator)
    (return_sumweights : bool) : result averaged :=
  len <- coords_len coords ;;
  let n := match n with None => len | Some n => n end in
  if negb (Nat.eqb len (length (field_shape fld))) then Raise ValueError
  else
    let interp_points_generator :=
      match interpolation_method, interp_points_generator with
      | Some _, None => Some regular_angular_generator
      | _, g => g
      end in
    if unsupported_method interpolation_method then Raise ValueError
    else if Nat.eqb n len then
      angular_average RegularGridInterpolator fld coords bins weights
        average bin_ave get_variance log_bins
        interpolation_method interp_points_generator return_sumweights
    else
      let coords_grid := _magnitude_grid (firstn n (coords_rows coords)) in
      let n1 := prod (firstn n (field_shape fld)) in
      let n2 := prod (skipn n (field_shape fld)) in
      let trailing := skipn n (field_shape fld) in
      let columns :=
        map (fun i => Field (firstn n (field_shape fld))
                        (fdata_column n1 n2 i (cells fld)))
          (seq 0 n2) in
      let sw (s : list R) := if return_sumweights then Some s else None in
      match interpolation_method with
      | None =>
          '(indx, bins, sumweights) <-
            _get_binweights coords_grid weights bins average bin_ave log_bins ;;
          let nb := length sumweights in
          if (len <? n)%nat then Raise TypeError
          else
            if negb (Nat.eqb (fdata_len (cells fld)) (n1 * n2)) then Raise ValueError
            else
              cols <- mapM (fun c => nd_column_binned indx weights sumweights
                                       get_variance
                                       (Field [n1] (cells c))) columns ;;
              let flat := from_columns (0, 0) nb (map fst cols) in
              let r := if is_complex (cells fld) then ComplexData flat
                       else RealData (map fst flat) in
              let var := if get_variance
                         then Some (NDArray [nb; n2]
                                      (from_columns 0 nb (map snd cols)))
                         else None in
              Ok (Averaged (nb :: trailing) (Exact r) bins var (sw sumweights))
      | Some _ =>
          bins <- _getbins bins coords_grid log_bins ;;
          let bins := bin_centres bins log_bins in
          let nb := length bins in
          if (len <? n)%nat then Raise TypeError
          else
            if negb (Nat.eqb (fdata_len (cells fld)) (n1 * n2)) then Raise ValueError
            else
              axes <- interp_axes coords ;;
              cols <- mapM (nd_column_interp (firstn n axes) bins weights
                              interp_points_generator get_variance) columns ;;
              match rev cols with
              | [] => Raise UnboundLocalError
              | (_, sumweights) :: _ =>
                  if negb (Nat.eqb (length sumweights * n2) (nb * n2))
                  then Raise ValueError
                  else
                    let flat := from_columns None nb (map fst cols) in
                    let var := if get_variance
                               then Some (NDArray [nb; n2] (repeat 0 (nb * n2)))
                               else None in
                    Ok (Averaged (length sumweights :: trailing)
                          (Sampled (is_complex (cells fld)) flat)
                          bins var (sw sumweights))
              end
      end.

End AveragingND.

(** ** [get_power]: the default number of bins *)

(** The default is computed in double precision, the kernel's binary64
    numbers.  An integer is converted to the nearest double, ties to
    even. *)
Definition float_of_Z (z : Z) : float :=
  SF2Prim (binary_normalize prec emax z 0 false).

(** [np.prod] of Python integers: a 64-bit integer that wraps around. *)
Definition int64 (z : Z) : Z := ((z + 2 ^ 63) mod 2 ^ 64 - 2 ^ 63)%Z.

(** Python's [int(x)] on a double: truncation towards zero, the mantissa
    shifted by the exponent; [ValueError] on a NaN and [OverflowError] on
    an infinity. *)
Definition py_int (x : float) : result Z :=
  match Prim2SF x with
  | S754_zero _ => Ok 0%Z
  | S754_finite s m e =>
      let t := Z.shiftl (Zpos m) e in
      Ok (if s then (- t)%Z else t)
  | S754_infinity _ => Raise OverflowError
  | S754_nan => Raise ValueError
  end.

(** The double nearest to 2.2. *)
Definition two_point_two : float := 0x1.199999999999ap+1%float.

(** A stand-in for the power function of the C library on the calls whose
    exponent is 1, where it returns its base. *)
Definition pow_exponent_one : float -> float -> float := fun x _ => x.

(** The [bins] that [get_power] hands to [angular_average_nd]: the
    caller's, or the default count, a Python integer. *)
Inductive power_bins : Type :=
| Supplied (b : bins_arg)
| DefaultCount (b : Z).

Section DefaultBins.

(** The power function of the C library on doubles, which NumPy calls for
    [**]: an external routine, kept abstract. *)
Variable c_pow : float -> float -> float.

(** The double [np.prod(N[:res_ndim]) ** (1.0 / res_ndim) / 2.2]. *)
Definition default_bins_quotient (N : list nat) (res_ndim : nat) : float :=
  (c_pow (float_of_Z (int64 (Z.of_nat (prod (firstn res_ndim N)))))
     (1 / float_of_Z (Z.of_nat res_ndim)) / two_point_two)%float.

(** The expression [int(np.prod(N[:res_ndim]) ** (1.0 / res_ndim) / 2.2)].
    Dividing by a [res_ndim] of zero raises [ZeroDivisionError]. *)
Definition default_bins (N : list nat) (res_ndim : nat) : result Z :=
  match res_ndim with
  | O => Raise ZeroDivisionError
  | _ => py_int (default_bins_quotient N res_ndim)
  end.

(** The resolution of [res_ndim] and [bins] in [get_power], from the grid
    extents [N] of the field and its dimensionality [dim]: the value of
    [bins] that is handed to [angular_average_nd]. *)
Definition get_power_bins (bins : option bins_arg) (N : list nat) (dim : nat)
    (res_ndim : option nat) : result power_bins :=
  let res_ndim := match res_ndim with None => dim | Some r => r end in
  match bins with
  | None => b <- default_bins N res_ndim ;; Ok (DefaultCount b)
  | Some b => Ok (Supplied b)
  end.

End DefaultBins.

(** The real number that a finite double stands for: its mantissa times
    two to its exponent, with its sign. *)
Definition float_value (x : float) : R :=
  match Prim2SF x with
  | S754_finite s m e =>
      let v := if (0 <=? e)%Z then IZR (Zpos m * 2 ^ e)
               else IZR (Zpos m) / IZR (2 ^ (- e)) in
      if s then - v else v
  | _ => 0
  end.

(** A double that is a number and not an infinity. *)
Definition is_finite_float (x : float) : bool :=
  match Prim2SF x with
  | S754_zero _ | S754_finite _ _ _ => true
  | _ => false
  end.

(** ** Specification-side notions *)

(** The Euclidean norm of a point. *)
Definition norm (p : list R) : R := sqrt (Rsum (map (fun x => x ^ 2) p)).

(** Bin edges are strictly increasing. *)
Definition strictly_increasing (edges : list R) : Prop := StronglySorted Rlt edges.

(** Bin [b] is the half-open interval from edge [b] to edge [b + 1]. *)
Definition in_bin (edges : list R) (b : nat) (x : R) : bool :=
  Rleb (nth b edges 0) x && Rltb x (nth (S b) edges 0).

(** The shell of bin [b]: the cells whose coordinate lies in the bin.  Its
    total of a per-cell quantity [vals], and its number of cells. *)
Definition shell_total (edges : list R) (b : nat) (coords vals : list R) : R :=
  Rsum (map snd (filter (fun cv => in_bin edges b (fst cv)) (combine coords vals))).

Definition shell_count (edges : list R) (b : nat) (coords : list R) : nat :=
  length (filter (in_bin edges b) coords).

(** A coordinate is out of range when it is below the first edge, or at or
    beyond the last one. *)
Definition out_of_range (edges : list R) (x : R) : bool :=
  Rltb x (hd 0 edges) || Rleb (last edges 0) x.


(** The mean of a sample and its unbiased variance, the sum of the squared
    deviations from the mean over [n - 1]. *)
Definition mean (l : list R) : R := Rsum l / INR (length l).


(** The summed weight of a shell: the total of the weight array, or the
    number of cells when the weight is a scalar. *)
Definition shell_weight (edges : list R) (b : nat) (coords : list R)
    (weights : weights_arg) : R :=
  match weights with
  | WArray w => shell_total edges b coords (flatten w)
  | WScalar _ => INR (shell_count edges b coords)
  end.

(** The number of bins of an edge sequence. *)
Definition nbins (edges : list R) : nat := (length edges - 1)%nat.

(** What the cell-binning averager is to return, bin by bin: the summed
    weight, the weighted mean coordinate and the reduction of a per-cell
    quantity over the shell of each bin. *)
Definition shell_sumweights (edges coords : list R) (weights : weights_arg)
    (average : bool) : list R :=
  map (fun b => if average then shell_weight edges b coords weights else 1)
    (seq 0 (nbins edges)).

Definition shell_centres (edges coords : list R) (weights : weights_arg) : list R :=
  map (fun b => shell_total edges b coords (scale_by weights coords)
                / shell_weight edges b coords weights)
    (seq 0 (nbins edges)).

Definition shell_means (edges coords : list R) (weights : weights_arg)
    (average : bool) (vals : list R) : list R :=
  map (fun b => shell_total edges b coords (scale_by weights vals)
                / (if average then shell_weight edges b coords weights else 1))
    (seq 0 (nbins edges)).

(** A coordinate grid with at least one axis and no axis of extent zero. *)
Definition nonempty_grid (a : ndarray) : Prop :=
  shape a <> [] /\ Forall (fun n => n <> O) (shape a) /\
  length (flatten a) = prod (shape a).

(** Coordinates, weights and field describe the same cells. *)
Definition well_shaped (coords : ndarray) (weights : weights_arg) (fld : field)
  : Prop :=
  field_shape fld = shape coords /\
  fdata_len (cells fld) = length (flatten coords) /\
  match weights with
  | WScalar _ => True
  | WArray w => shape w = shape coords /\ length (flatten w) = length (flatten coords)
  end.

(** ** Further specification-side notions *)

(** The total of a per-cell quantity over the cells in range. *)
Definition in_range_total (edges coords vals : list R) : R :=
  Rsum (map snd (filter (fun cv => negb (out_of_range edges (fst cv)))
                   (combine coords vals))).

(** The product of a list of reals. *)
Definition Rprod (l : list R) : R := fold_right Rmult 1 l.

(** ** [ignore_zero_ki] *)

(** A boolean array: its shape and its cells in row-major order. *)
Record mask : Type := Mask { mask_shape : list nat; mask_cells : list bool }.

(** The shape of the arrays of [np.meshgrid] with the default [xy]
    indexing: the first two extents are swapped. *)
Definition xy_shape (s : list nat) : list nat :=
  match s with
  | n1 :: n2 :: rest => n2 :: n1 :: rest
  | _ => s
  end.

(** [np.all(coords != 0, axis=0)] over the grids of the first
    [len(kmag.shape)] wavemode arrays. *)
Definition ignore_zero_ki (freq : list (list R)) (kmag : ndarray) : mask :=
  let res_ndim := length (shape kmag) in
  let axes := firstn res_ndim freq in
  Mask (xy_shape (map (@length R) axes))
    (map (forallb (fun c => negb (Reqb c 0))) (meshgrid_xy axes)).

(** ** [discretize_N] *)

(** An argument that is one value for every axis, or one value per axis
    ([np.iterable]). *)
Inductive per_axis (A : Type) : Type :=
| Same (a : A)
| Each (l : list A).
Arguments Same {A} a.
Arguments Each {A} l.

Definition per_axis_list {A : Type} (p : per_axis A) (dim : nat) : list A :=
  match p with
  | Same a => repeat a dim
  | Each l => l
  end.

(** [(a.shape[0], a.shape[1])]. *)
Definition shape01 (a : ndarray) : result (nat * nat) :=
  match shape a with
  | n0 :: n1 :: _ => Ok (n0, n1)
  | _ => Raise IndexError
  end.

(** [np.mean]: not a number on an empty array. *)
Definition np_mean (l : list R) : option R :=
  match l with
  | [] => None
  | _ => Some (Rsum l / INR (length l))
  end.

(** The conversion of a histogram to mean-zero data:
    [deltax / np.mean(deltax) - 1] or [deltax - np.mean(deltax)].  A cell
    that is not a finite number (a division by a zero mean) is [None]. *)
Definition to_mean_zero (dimensionless : bool) (h : list R) : list (option R) :=
  match np_mean h with
  | None => []
  | Some m =>
      if dimensionless
      then if Req_dec_T m 0 then map (fun _ => None) h
           else map (fun x => Some (x / m - 1)) h
      else map (fun x => Some (x - m)) h
  end.

(** The returned tuple
    [(deltax, deltax2, Npart1, Npart2, dim, N, boxlength)]. *)
Record discretized : Type := Discretized {
  d_shape : list nat;
  d_deltax : list (option R);
  d_deltax2 : option (list (option R));
  d_Npart1 : nat;
  d_Npart2 : nat;
  d_dim : nat;
  d_N : list nat;
  d_boxlength : list R
}.

(** A histogram routine that returns one fixed histogram; it stands in
    for the library routine on a concrete call. *)
Definition constant_histogram (h : ndarray)
  : ndarray -> list R -> list (list R) -> option ndarray -> result ndarray :=
  fun _ _ _ _ => Ok h.

Section Discretize.

(** [np.histogramdd(positions % boxlength, bins=edges, weights=weights)[0]]:
    the histogram of the positions folded into the box, an external
    routine kept abstract.  It receives the positions, the box lengths, the
    bin edges of every axis and the weights. *)
Variable histogramdd :
  ndarray -> list R -> list (list R) -> option ndarray -> result ndarray.

Definition discretize_N (deltax : ndarray) (boxlength : per_axis R)
    (deltax2 : option ndarray) (N : per_axis nat)
    (weights weights2 : option ndarray) (dimensionless : bool)
  : result discretized :=
  '(Npart1, dim) <- shape01 deltax ;;
  if (Npart1 <? dim)%nat then Raise ValueError
  else
    s2 <- match deltax2 with
          | None => Ok None
          | Some d2 =>
              '(m0, m1) <- shape01 d2 ;;
              if (m0 <? m1)%nat then Raise ValueError
              else if negb (Nat.eqb dim m1) then Raise ValueError
              else Ok (Some m0)
          end ;;
    let N := per_axis_list N dim in
    let boxlength := per_axis_list boxlength dim in
    let Npart2 := match s2 with Some m0 => m0 | None => Npart1 end in
    let edges := map (fun Ln => linspace 0 (fst Ln) (snd Ln + 1))
                   (combine boxlength N) in
    h <- histogramdd deltax boxlength edges weights ;;
    h2 <- match deltax2 with
          | None => Ok None
          | Some d2 => x <- histogramdd d2 boxlength edges weights2 ;; Ok (Some x)
          end ;;
    Ok (Discretized (shape h) (to_mean_zero dimensionless (flatten h))
          (option_map (fun x => to_mean_zero dimensionless (flatten x)) h2)
          Npart1 Npart2 dim N boxlength).

End Discretize.

(** ** The interpolated averager, piece by piece *)

(** [field * weights] with the cells of weight zero set to NaN. *)
Definition weighted_cells (weights : weights_arg) (fld : field)
  : list (option C) :=
  map2 (fun z k => if Req_dec_T k 0 then None else Some (Cscale k z))
    (to_complex (cells fld)) (cell_weights weights (fdata_len (cells fld))).

(** [(field - mean) / std], cell by cell. *)
Definition rescale_cells (mean : C) (std : R) (cs : list (option C))
  : list (option C) :=
  map (option_map (fun z => Cscale (/ std) (Cminus z mean))) cs.

(** [fnc(sample_coords.T) * std + mean], sample by sample. *)
Definition interpolate_samples (fnc : interpolant) (mean : C) (std : R)
    (sample_coords : list (list R)) : list (option C) :=
  map (fun p => option_map (fun v => Cplus (Cscale std v) mean) (fnc p))
    sample_coords.

(** Whether a value is a number. *)
Definition is_number {A : Type} (v : option A) : bool :=
  match v with Some _ => true | None => false end.

(** ** The lines of an array along one axis *)

(** The cell of a row-major array at position [k] of axis [i], in block
    [o] of the axes before [i] and at offset [j] within the axes after
    it. *)
Definition axis_cell (a : ndarray) (i o k j : nat) : R :=
  nth ((o * nth i (shape a) 0%nat + k) * prod (skipn (S i) (shape a)) + j)
    (flatten a) 0.

(** A line of the array along axis [i]: the cells of one block and one
    offset, at all positions of the axis. *)
Definition axis_line (a : ndarray) (i o j : nat) : Prop :=
  (i < ndim a)%nat /\
  (o < prod (firstn i (shape a)))%nat /\
  (j < prod (skipn (S i) (shape a)))%nat.

(** [m] is the maximum of the cells of a line. *)
Definition line_max (a : ndarray) (i o j : nat) (m : R) : Prop :=
  (exists k, (k < nth i (shape a) 0)%nat /\ axis_cell a i o k j = m) /\
  forall k, (k < nth i (shape a) 0)%nat -> axis_cell a i o k j <= m.

(** * Properties *)

(** ** The spherical-to-Cartesian transform *)

Lemma map2_length {A B D : Type} (f : A -> B -> D) (l : list A) (l' : list B) :
  length (map2 f l l') = Nat.min (length l) (length l').
Proof.
  revert l'; induction l as [|a l IH]; intros [|b l']; simpl; auto.
Qed.

Lemma Rsum_cons (x : R) (l : list R) : Rsum (x :: l) = x + Rsum l.
Proof. reflexivity. Qed.

Lemma map2_cons {A B D : Type} (f : A -> B -> D) a b (l : list A) (l' : list B) :
  map2 f (a :: l) (b :: l') = f a b :: map2 f l l'.
Proof. reflexivity. Qed.

(** The squared coordinates of the cumulative-product construction
    telescope, whatever the angles are. *)
Lemma cum_sines_telescope (r : R) (phi : list R) :
  forall acc : R,
    Rsum (map (fun x => x ^ 2)
            (map2 (fun s c => s * c * r)
               (acc :: cumprod_from acc (map sin phi))
               (map cos phi ++ [1])))
    = acc ^ 2 * r ^ 2.
Proof.
  induction phi as [|p t IH]; intro acc.
  - simpl. ring.
  - change (map sin (p :: t)) with (sin p :: map sin t).
    change (map cos (p :: t) ++ [1]) with (cos p :: (map cos t ++ [1])).
    change (cumprod_from acc (sin p :: map sin t))
      with ((acc * sin p) :: cumprod_from (acc * sin p) (map sin t)).
    rewrite map2_cons, map_cons, Rsum_cons, IH.
    pose proof (sin2_cos2 p) as H. unfold Rsqr in H.
    replace (acc ^ 2 * r ^ 2) with (acc ^ 2 * r ^ 2 * (sin p * sin p + cos p * cos p))
      by (rewrite H; ring).
    ring.
Qed.

Lemma sum_squares_on_sphere (r : R) (phi : list R) :
  (1 <= length phi)%nat ->
  Rsum (map (fun x => x ^ 2) (spherical2cartesian_point r phi)) = r ^ 2.
Proof.
  intro Hlen.
  destruct phi as [|p0 [|p1 [|p2 t]]].
  - simpl in Hlen. lia.
  - cbn [spherical2cartesian_point map Rsum fold_right].
    pose proof (sin2_cos2 p0) as H. unfold Rsqr in H.
    replace (r ^ 2) with (r ^ 2 * (sin p0 * sin p0 + cos p0 * cos p0))
      by (rewrite H; ring).
    ring.
  - cbn [spherical2cartesian_point map Rsum fold_right].
    pose proof (sin2_cos2 p0) as H0. pose proof (sin2_cos2 p1) as H1.
    unfold Rsqr in H0, H1.
    replace (r ^ 2)
      with (r ^ 2 * (sin p0 * sin p0 * (sin p1 * sin p1 + cos p1 * cos p1)
                     + cos p0 * cos p0))
      by (rewrite H1, Rmult_1_r, H0; ring).
    ring.
  - unfold spherical2cartesian_point.
    set (phi := p0 :: p1 :: p2 :: t).
    change (tl (map sin (2 * PI * 1 :: phi))) with (map sin phi).
    change (roll_m1 (map cos (2 * PI * 1 :: phi)))
      with (map cos phi ++ [cos (2 * PI * 1)]).
    rewrite Rmult_1_r, cos_2PI.
    unfold cumprod.
    change (cumprod_from 1 (1 :: map sin phi))
      with ((1 * 1) :: cumprod_from (1 * 1) (map sin phi)).
    rewrite Rmult_1_r, cum_sines_telescope. ring.
Qed.

(** C10: for every radius [r >= 0] and every tuple of at least one angle,
    the Cartesian point produced by the transform has Euclidean norm exactly
    [r], in the closed forms for two and three dimensions and in the
    cumulative-product-of-sines construction alike; hence every point of a
    generated sample set lies on the sphere of its originating radius. *)
Theorem spherical2cartesian_norm (r_n : list R) (phi_n : list (list R)) :
  length r_n = length phi_n ->
  Forall (fun r => 0 <= r) r_n ->
  Forall (fun phi => (1 <= length phi)%nat) phi_n ->
  exists points,
    _spherical2cartesian r_n phi_n = Ok points /\
    Forall2 (fun r p => norm p = r) r_n points.
Proof.
  intros Hlen Hr Hphi.
  unfold _spherical2cartesian. rewrite Hlen, Nat.eqb_refl.
  eexists; split; [reflexivity|].
  revert phi_n Hlen Hphi.
  induction Hr as [|r rs Hr0 _ IH]; intros [|phi phis] Hlen Hphi;
    simpl in *; try discriminate; constructor.
  - inversion Hphi; subst. unfold norm.
    rewrite sum_squares_on_sphere by assumption.
    replace (r ^ 2) with (Rsqr r) by (unfold Rsqr; ring).
    apply sqrt_Rsqr; assumption.
  - inversion Hphi; subst. apply IH; [lia | assumption].
Qed.

Lemma spherical2cartesian_norm_witness :
  exists points,
    _spherical2cartesian [2; 3] [[PI / 3; 1; 2; 5]; [0; PI; 4; 1]] = Ok points /\
    Forall2 (fun r p => norm p = r) [2; 3] points.
Proof.
  apply spherical2cartesian_norm.
  - reflexivity.
  - repeat constructor; lra.
  - repeat constructor; simpl; lia.
Defined.

(** ** Bin assignment *)

Lemma Rleb_true (x y : R) : Rleb x y = true <-> x <= y.
Proof. unfold Rleb; destruct (Rle_dec x y); split; intros; auto; discriminate. Qed.

Lemma Rltb_true (x y : R) : Rltb x y = true <-> x < y.
Proof. unfold Rltb; destruct (Rlt_dec x y); split; intros; auto; discriminate. Qed.

Lemma Rleb_false (x y : R) : Rleb x y = false <-> y < x.
Proof.
  unfold Rleb; destruct (Rle_dec x y); split; intros; try discriminate; lra.
Qed.

Lemma Rltb_false (x y : R) : Rltb x y = false <-> y <= x.
Proof.
  unfold Rltb; destruct (Rlt_dec x y); split; intros; try discriminate; lra.
Qed.

Lemma digitize1_le (x : R) (bins : list R) :
  (digitize1 x bins <= length bins)%nat.
Proof.
  induction bins as [|e rest IH]; simpl; [lia|].
  destruct (Rle_dec e x); lia.
Qed.

Lemma strictly_increasing_head (e : R) (rest : list R) :
  strictly_increasing (e :: rest) ->
  forall k, (k < length rest)%nat -> e < nth k rest 0.
Proof.
  intros H k Hk. apply StronglySorted_inv in H as [_ H].
  rewrite Forall_forall in H. apply H, nth_In, Hk.
Qed.

(** Below the first edge the index is 0. *)
Lemma digitize1_below (x : R) (bins : list R) :
  x < hd 0 bins -> digitize1 x bins = O.
Proof.
  destruct bins as [|e rest]; simpl; [reflexivity|].
  intro H. destruct (Rle_dec e x); [lra | reflexivity].
Qed.

(** At or beyond the last edge the index is the number of edges. *)
Lemma digitize1_beyond (x : R) (bins : list R) :
  strictly_increasing bins ->
  last bins 0 <= x -> bins <> [] -> digitize1 x bins = length bins.
Proof.
  induction bins as [|e rest IH]; intros Hs Hx Hne; [congruence|].
  destruct rest as [|e' rest'].
  - simpl in *. destruct (Rle_dec e x); [reflexivity | lra].
  - assert (He : e < last (e' :: rest') 0).
    { pose proof (strictly_increasing_head _ _ Hs) as Hh.
      destruct (@exists_last _ (e' :: rest') ltac:(discriminate)) as [l0 [a Hl]].
      rewrite Hl, last_last.
      specialize (Hh (length l0)). rewrite Hl in Hh.
      rewrite nth_middle in Hh. apply Hh. rewrite length_app. simpl. lia. }
    change (last (e :: e' :: rest') 0) with (last (e' :: rest') 0) in Hx.
    cbn [digitize1]. destruct (Rle_dec e x) as [_|Hn]; [|lra].
    cbn [length]. f_equal. apply IH.
    + apply StronglySorted_inv in Hs. apply Hs.
    + assumption.
    + discriminate.
Qed.

(** Inside the range the index names the bin: index [b + 1] exactly for the
    coordinates of the half-open interval from edge [b] to edge [b + 1]. *)
Lemma digitize1_in_bin (x : R) (bins : list R) :
  strictly_increasing bins ->
  forall b, (S b < length bins)%nat ->
    Nat.eqb (digitize1 x bins) (S b) = in_bin bins b x.
Proof.
  induction bins as [|e rest IH]; intros Hs b Hb; [simpl in Hb; lia|].
  pose proof (strictly_increasing_head _ _ Hs) as Hh.
  assert (Hs' : strictly_increasing rest)
    by (apply StronglySorted_inv in Hs; apply Hs).
  unfold in_bin. cbn [digitize1 nth].
  destruct (Rle_dec e x) as [Hle|Hnle].
  - destruct b as [|b'].
    + destruct rest as [|e' rest']; [simpl in Hb; lia|].
      cbn [digitize1 nth].
      assert (Rleb e x = true) as -> by (apply Rleb_true; assumption).
      destruct (Rle_dec e' x) as [Hle'|Hnle']; simpl.
      * symmetry. apply Rltb_false. assumption.
      * symmetry. apply Rltb_true. lra.
    + simpl in Hb.
      change (Nat.eqb (S (digitize1 x rest)) (S (S b')))
        with (Nat.eqb (digitize1 x rest) (S b')).
      rewrite IH by (assumption || lia). reflexivity.
  - assert (Hx : x < e) by lra.
    assert (Hb' : (b < length rest)%nat) by (simpl in Hb; lia).
    destruct b as [|b']; simpl.
    + symmetry. apply andb_false_iff. left. apply Rleb_false. assumption.
    + symmetry. apply andb_false_iff. left. apply Rleb_false.
      specialize (Hh b' ltac:(lia)). lra.
Qed.

(** A coordinate outside the range lies in no bin; the first edge lies in
    the first bin and the last edge in none. *)
Lemma out_of_range_in_no_bin (edges : list R) (x : R) :
  strictly_increasing edges ->
  x < hd 0 edges \/ last edges 0 <= x ->
  forall b, (S b < length edges)%nat -> in_bin edges b x = false.
Proof.
  intros Hs Hx b Hb.
  rewrite <- digitize1_in_bin by assumption.
  apply Nat.eqb_neq.
  destruct Hx as [Hx|Hx].
  - rewrite digitize1_below by assumption. lia.
  - rewrite digitize1_beyond; try assumption; [lia|].
    intro E; rewrite E in Hb; simpl in Hb; lia.
Qed.

Lemma inner_edge_in_first_bin (edges : list R) :
  strictly_increasing edges -> (2 <= length edges)%nat ->
  in_bin edges 0 (hd 0 edges) = true.
Proof.
  intros Hs Hlen.
  destruct edges as [|e [|e' rest]]; simpl in Hlen; try lia.
  unfold in_bin; simpl.
  apply andb_true_iff; split.
  - apply Rleb_true; lra.
  - apply Rltb_true. apply (strictly_increasing_head _ _ Hs 0%nat). simpl; lia.
Qed.

(** ** Bin counts *)

Lemma bincount_len_digitize (xs bins : list R) :
  bincount_len (digitize xs bins) (length bins + 1) = (length bins + 1)%nat.
Proof.
  unfold bincount_len.
  destruct (digitize xs bins) eqn:E; [reflexivity|]. rewrite <- E.
  assert (H : (list_max (digitize xs bins) <= length bins)%nat).
  { apply list_max_le, Forall_forall. intros k Hk.
    unfold digitize in Hk. apply in_map_iff in Hk as [x [<- _]].
    apply digitize1_le. }
  lia.
Qed.

Lemma slice_1_m1_map_seq {A : Type} (f : nat -> A) (m : nat) :
  slice_1_m1 (map f (seq 0 (S (S m)))) = map f (seq 1 m).
Proof.
  unfold slice_1_m1.
  change (seq 0 (S (S m))) with (O :: seq 1 (S m)).
  rewrite map_cons. cbn [tl].
  rewrite seq_S, map_app. simpl. apply removelast_last.
Qed.

Lemma slice_1_m1_map_seq_short {A : Type} (f : nat -> A) (m : nat) :
  (m <= 1)%nat -> slice_1_m1 (map f (seq 0 m)) = [].
Proof.
  destruct m as [|[|m]]; intros H; try lia; reflexivity.
Qed.

(** The slice [[1:-1]] of a per-index table of length [n + 1] keeps the
    indices 1 to [n - 1]. *)
Lemma slice_1_m1_table {A : Type} (f : nat -> A) (n : nat) :
  slice_1_m1 (map f (seq 0 (n + 1))) = map f (seq 1 (n - 1)).
Proof.
  destruct n as [|n].
  - reflexivity.
  - replace (S n + 1)%nat with (S (S n)) by lia.
    replace (S n - 1)%nat with n by lia.
    apply slice_1_m1_map_seq.
Qed.

Lemma bin_total_digitize (edges coords vals : list R) (b : nat) :
  strictly_increasing edges -> (S b < length edges)%nat ->
  bin_total (digitize coords edges) vals (S b) = shell_total edges b coords vals.
Proof.
  intros Hs Hb. unfold bin_total, shell_total, digitize.
  revert vals. induction coords as [|c cs IH]; intros [|v vs]; simpl; auto.
  rewrite digitize1_in_bin by assumption.
  destruct (in_bin edges b c); simpl; rewrite IH; reflexivity.
Qed.

Lemma count_occ_digitize (edges coords : list R) (b : nat) :
  strictly_increasing edges -> (S b < length edges)%nat ->
  count_occ Nat.eq_dec (digitize coords edges) (S b) = shell_count edges b coords.
Proof.
  intros Hs Hb. unfold shell_count, digitize.
  induction coords as [|c cs IH]; simpl; auto.
  rewrite <- digitize1_in_bin by assumption.
  destruct (Nat.eq_dec (digitize1 c edges) (S b)) as [E|E].
  - rewrite E, Nat.eqb_refl. simpl. rewrite IH. reflexivity.
  - apply Nat.eqb_neq in E. rewrite E. apply IH.
Qed.

Lemma nth_map_seq {A : Type} (f : nat -> A) (s m b : nat) (d : A) :
  (b < m)%nat -> nth b (map f (seq s m)) d = f (s + b)%nat.
Proof.
  intro H. rewrite nth_indep with (d' := f O) by (rewrite length_map, length_seq; exact H).
  rewrite map_nth, seq_nth by exact H. reflexivity.
Qed.

Lemma nth_map2 {A B D : Type} (f : A -> B -> D) (l : list A) (l' : list B)
    (b : nat) (da : A) (db : B) (d : D) :
  (b < length l)%nat -> (b < length l')%nat ->
  nth b (map2 f l l') d = f (nth b l da) (nth b l' db).
Proof.
  revert l' b; induction l as [|a l IH]; intros [|a' l'] b Hl Hl';
    simpl in *; try lia.
  destruct b; [reflexivity|]. apply IH; lia.
Qed.

(** ** The radial range of a grid *)

Lemma mapM_ok {A B : Type} (f : A -> result B) (l : list A) :
  Forall (fun x => exists y, f x = Ok y) l ->
  exists ys, mapM f l = Ok ys /\ Forall2 (fun x y => f x = Ok y) l ys.
Proof.
  induction 1 as [|x l [y Hy] _ [ys [IH1 IH2]]].
  - exists []. split; [reflexivity | constructor].
  - exists (y :: ys). simpl. rewrite Hy. simpl. rewrite IH1. simpl.
    split; [reflexivity | constructor; assumption].
Qed.

Lemma prod_pos (s : list nat) :
  Forall (fun n => n <> O) s -> (0 < prod s)%nat.
Proof.
  induction 1 as [|n s Hn _ IH]; simpl; [lia|].
  apply Nat.mul_pos_pos; lia.
Qed.

Lemma amax_axis_ok (a : ndarray) (i : nat) :
  nth i (shape a) O <> O -> exists m, amax_axis a i = Ok m.
Proof.
  intro H. unfold amax_axis.
  destruct (nth i (shape a) O); [congruence|]. eexists; reflexivity.
Qed.

Lemma amax_axis_0_nonempty (a : ndarray) (m : ndarray) :
  shape a <> [] -> Forall (fun n => n <> O) (shape a) ->
  amax_axis a 0 = Ok m -> flatten m <> [].
Proof.
  intros Hne Hall. unfold amax_axis.
  destruct (shape a) as [|n s] eqn:E; [congruence|].
  inversion Hall as [|? ? Hn Hs]; subst.
  cbn [nth firstn skipn prod fold_right].
  destruct n as [|n']; [congruence|].
  intro H; inversion H; subst; clear H. cbn [flatten].
  pose proof (prod_pos s Hs) as Hp. unfold prod in Hp.
  destruct (fold_right Nat.mul 1%nat s) as [|k]; [lia|].
  simpl. discriminate.
Qed.

(** On a grid with at least one axis and no empty axis, [max_radius] and
    the minimum of the grid are defined. *)
Lemma max_radius_ok (a : ndarray) :
  nonempty_grid a -> exists mx, max_radius a = Ok mx.
Proof.
  intros (Hne & Hall & Hlen). unfold max_radius.
  destruct (mapM_ok (amax_axis a) (seq 0 (ndim a))) as [maxs [Hm Hf]].
  { apply Forall_forall. intros i Hi. apply in_seq in Hi.
    apply amax_axis_ok. rewrite Forall_forall in Hall.
    apply Hall, nth_In. unfold ndim in Hi. lia. }
  rewrite Hm. simpl.
  unfold ndim in Hf. destruct (shape a) as [|n s] eqn:E; [congruence|].
  simpl in Hf. inversion Hf as [|? m ? ms H0 _]; subst.
  assert (Hm0 : flatten m <> []).
  { apply (amax_axis_0_nonempty a); rewrite ?E; try assumption; discriminate. }
  simpl. destruct (flatten m) as [|x t]; [congruence|].
  simpl. eexists; reflexivity.
Qed.

Lemma grid_min_ok (a : ndarray) :
  nonempty_grid a -> exists mn, np_min (flatten a) = Ok mn.
Proof.
  intros (Hne & Hall & Hlen).
  pose proof (prod_pos _ Hall) as Hp.
  destruct (flatten a) as [|x t]; simpl in *; [lia|].
  eexists; reflexivity.
Qed.

Lemma getbins_edges (edges : list R) (coords : ndarray) (log : bool) :
  nonempty_grid coords -> _getbins (BinEdges edges) coords log = Ok edges.
Proof.
  intro H. unfold _getbins.
  destruct (max_radius_ok coords H) as [mx ->]. reflexivity.
Qed.

(** ** The cell-binning averager on explicit edges *)

Lemma shape_eqb_refl (s : list nat) : shape_eqb s s = true.
Proof.
  unfold shape_eqb. induction s as [|n s IH]; simpl; [reflexivity|].
  rewrite Nat.eqb_refl. exact IH.
Qed.

Lemma length_digitize (xs bins : list R) : length (digitize xs bins) = length xs.
Proof. apply length_map. Qed.

Lemma map_seq_shift {A : Type} (f : nat -> A) (m : nat) :
  map f (seq 1 m) = map (fun b => f (S b)) (seq 0 m).
Proof. rewrite <- seq_shift, map_map. reflexivity. Qed.

Lemma map2_map_seq {A B D : Type} (h : A -> B -> D) (f : nat -> A) (g : nat -> B)
    (l : list nat) :
  map2 h (map f l) (map g l) = map (fun b => h (f b) (g b)) l.
Proof. induction l as [|x l IH]; simpl; [reflexivity | rewrite IH; reflexivity]. Qed.

Lemma repeat_map_seq {A : Type} (x : A) (m s : nat) :
  repeat x m = map (fun _ => x) (seq s m).
Proof. revert s; induction m as [|m IH]; intro s; simpl; [|rewrite <- IH]; reflexivity. Qed.

Lemma in_seq_nbins (edges : list R) (b : nat) :
  In b (seq 0 (nbins edges)) -> (S b < length edges)%nat.
Proof. intro H. apply in_seq in H. unfold nbins in H. lia. Qed.

(** The weighted bin counts, sliced: one shell total per bin. *)
Lemma sliced_bincount_w (edges coords vals : list R) :
  strictly_increasing edges -> length coords = length vals ->
  exists t,
    bincount_w (digitize coords edges) vals (length edges + 1) = Ok t /\
    slice_1_m1 t = map (fun b => shell_total edges b coords vals) (seq 0 (nbins edges)).
Proof.
  intros Hs Hlen. unfold bincount_w.
  rewrite length_digitize, Hlen, Nat.eqb_refl.
  eexists; split; [reflexivity|].
  rewrite bincount_len_digitize, slice_1_m1_table, map_seq_shift.
  apply map_ext_in. intros b Hb.
  apply bin_total_digitize; [assumption | apply in_seq_nbins, Hb].
Qed.

(** The unweighted bin counts, sliced: the number of cells of each shell. *)
Lemma sliced_bincount (edges coords : list R) :
  strictly_increasing edges ->
  slice_1_m1 (bincount (digitize coords edges) (length edges + 1))
  = map (fun b => shell_count edges b coords) (seq 0 (nbins edges)).
Proof.
  intros Hs. unfold bincount.
  rewrite bincount_len_digitize, slice_1_m1_table, map_seq_shift.
  apply map_ext_in. intros b Hb.
  apply count_occ_digitize; [assumption | apply in_seq_nbins, Hb].
Qed.

Lemma length_scale_by (weights : weights_arg) (v : list R) :
  match weights with
  | WScalar _ => True
  | WArray w => length (flatten w) = length v
  end ->
  length (scale_by weights v) = length v.
Proof.
  destruct weights as [w|w]; simpl; intro H.
  - apply length_map.
  - rewrite map2_length, H. apply Nat.min_id.
Qed.

Lemma length_np_imag (d : fdata) : length (np_imag d) = fdata_len d.
Proof. destruct d; unfold fdata_len; simpl; rewrite !length_map; reflexivity. Qed.

(** [_get_binweights] on explicit edges returns the index of every cell,
    the summed weight of every shell and, when asked, the weighted mean
    coordinate of every shell. *)
Lemma get_binweights_shells (coords : ndarray) (weights : weights_arg)
    (bins : bins_arg) (edges : list R) (average bin_ave log_bins : bool) :
  _getbins bins coords log_bins = Ok edges ->
  strictly_increasing edges -> edges <> [] ->
  match weights with
  | WScalar _ => True
  | WArray w => shape w = shape coords /\ length (flatten w) = length (flatten coords)
  end ->
  _get_binweights coords weights bins average bin_ave log_bins
  = Ok (digitize (flatten coords) edges,
        if bin_ave then shell_centres edges (flatten coords) weights else edges,
        shell_sumweights edges (flatten coords) weights average).
Proof.
  intros Hgb Hs Hne Hw. unfold _get_binweights.
  rewrite Hgb. cbn [bind].
  assert (Hraw :
    match weights with
    | WArray w =>
        if negb (shape_eqb (shape coords) (shape w)) then Raise ValueError
        else
          c <- bincount_w (digitize (flatten coords) edges) (flatten w)
                 (length edges + 1) ;;
          Ok (slice_1_m1 c)
    | WScalar _ =>
        Ok (map INR (slice_1_m1 (bincount (digitize (flatten coords) edges)
                                   (length edges + 1))))
    end
    = Ok (map (fun b => shell_weight edges b (flatten coords) weights)
            (seq 0 (nbins edges)))).
  { destruct weights as [w|w].
    - rewrite sliced_bincount by assumption. rewrite map_map. reflexivity.
    - destruct Hw as [Hsh Hlen]. rewrite Hsh, shape_eqb_refl. cbn [negb].
      destruct (sliced_bincount_w edges (flatten coords) (flatten w) Hs
                  (eq_sym Hlen)) as [t [-> Ht]].
      cbn [bind]. rewrite Ht. reflexivity. }
  destruct (average || bin_ave) eqn:Hflags.
  - rewrite Hraw. cbn [bind].
    assert (Hsw :
      (if average
       then map (fun b => shell_weight edges b (flatten coords) weights)
              (seq 0 (nbins edges))
       else map (fun _ => 1)
              (map (fun b => shell_weight edges b (flatten coords) weights)
                 (seq 0 (nbins edges))))
      = shell_sumweights edges (flatten coords) weights average).
    { unfold shell_sumweights. destruct average; [reflexivity|].
      rewrite map_map. reflexivity. }
    rewrite Hsw.
    destruct bin_ave; [|reflexivity].
    destruct (sliced_bincount_w edges (flatten coords)
                (scale_by weights (flatten coords)) Hs) as [t [-> Ht]].
    { symmetry. apply length_scale_by.
      destruct weights; [exact I | apply Hw]. }
    cbn [bind]. rewrite Ht, map2_map_seq. reflexivity.
  - apply orb_false_iff in Hflags as [-> ->].
    destruct edges as [|e rest]; [congruence|].
    unfold shell_sumweights, ones, nbins.
    rewrite (repeat_map_seq 1 _ 0). reflexivity.
Qed.

(** [_field_average] on those indices and weights returns the reduction of
    the weighted field over every shell, for the real and the imaginary
    part alike. *)
Lemma field_average_shells (coords : ndarray) (weights : weights_arg)
    (fld : field) (edges : list R) (average : bool) :
  strictly_increasing edges -> edges <> [] ->
  well_shaped coords weights fld ->
  _field_average (digitize (flatten coords) edges) fld weights
    (shell_sumweights edges (flatten coords) weights average)
  = Ok (if is_complex (cells fld)
        then ComplexData
               (combine
                  (shell_means edges (flatten coords) weights average
                     (np_real (cells fld)))
                  (shell_means edges (flatten coords) weights average
                     (np_imag (cells fld))))
        else RealData
               (shell_means edges (flatten coords) weights average
                  (np_real (cells fld)))).
Proof.
  intros Hs Hne (Hshape & Hlen & Hw). unfold _field_average.
  assert (Hok : weights_shape_ok weights (field_shape fld) = true).
  { destruct weights as [w|w]; [reflexivity|]. simpl.
    destruct Hw as [Hsh _]. rewrite Hshape, Hsh. apply shape_eqb_refl. }
  rewrite Hok. cbn [negb].
  assert (Hm : (length (shell_sumweights edges (flatten coords) weights average) + 2
                = length edges + 1)%nat).
  { unfold shell_sumweights, nbins. rewrite length_map, length_seq.
    destruct edges; [congruence | simpl; lia]. }
  rewrite Hm.
  assert (Hpart : forall vals, length vals = length (flatten coords) ->
    exists t,
      bincount_w (digitize (flatten coords) edges) (scale_by weights vals)
        (length edges + 1) = Ok t /\
      map2 Rdiv (slice_1_m1 t)
        (shell_sumweights edges (flatten coords) weights average)
      = shell_means edges (flatten coords) weights average vals).
  { intros vals Hv.
    destruct (sliced_bincount_w edges (flatten coords) (scale_by weights vals) Hs)
      as [t [Ht1 Ht2]].
    { symmetry. rewrite length_scale_by; [exact Hv|].
      destruct weights as [w|w]; [exact I|]. destruct Hw as [_ Hw]. congruence. }
    exists t. split; [exact Ht1|].
    rewrite Ht2. unfold shell_sumweights, shell_means.
    rewrite map2_map_seq. reflexivity. }
  destruct (Hpart (np_real (cells fld)) Hlen) as [tr [-> Hr]].
  cbn [bind]. rewrite Hr.
  destruct (is_complex (cells fld)); [|reflexivity].
  destruct (Hpart (np_imag (cells fld))) as [ti [-> Hi]].
  { rewrite length_np_imag. exact Hlen. }
  cbn [bind]. rewrite Hi. reflexivity.
Qed.

Lemma average_cells_shells (coords : ndarray) (weights : weights_arg)
    (fld : field) (bins : bins_arg) (edges : list R)
    (average bin_ave log_bins : bool) :
  _getbins bins coords log_bins = Ok edges ->
  strictly_increasing edges -> edges <> [] ->
  well_shaped coords weights fld ->
  average_cells fld coords bins weights average bin_ave log_bins
  = Ok (digitize (flatten coords) edges,
        (if is_complex (cells fld)
         then ComplexData
                (combine
                   (shell_means edges (flatten coords) weights average
                      (np_real (cells fld)))
                   (shell_means edges (flatten coords) weights average
                      (np_imag (cells fld))))
         else RealData
                (shell_means edges (flatten coords) weights average
                   (np_real (cells fld)))),
        (if bin_ave then shell_centres edges (flatten coords) weights else edges),
        shell_sumweights edges (flatten coords) weights average).
Proof.
  intros Hgb Hs Hne Hws. unfold average_cells.
  rewrite (get_binweights_shells coords weights bins edges); try assumption.
  - cbn [bind]. rewrite field_average_shells by assumption. reflexivity.
  - destruct Hws as (_ & _ & Hw). exact Hw.
Qed.

Lemma map_fst_combine {A B : Type} (l : list A) (l' : list B) :
  length l = length l' -> map fst (combine l l') = l.
Proof.
  revert l'; induction l as [|a l IH]; intros [|b l'] H; simpl in *;
    try discriminate; [reflexivity|]. f_equal. apply IH. lia.
Qed.

Lemma map_snd_combine {A B : Type} (l : list A) (l' : list B) :
  length l = length l' -> map snd (combine l l') = l'.
Proof.
  revert l'; induction l as [|a l IH]; intros [|b l'] H; simpl in *;
    try discriminate; [reflexivity|]. f_equal. apply IH. lia.
Qed.

Lemma length_shell_means edges coords weights average vals :
  length (shell_means edges coords weights average vals) = nbins edges.
Proof. unfold shell_means. rewrite length_map, length_seq. reflexivity. Qed.

(** C1: for a strictly increasing edge sequence, every aggregate that the
    cell-binning averager reports for a bin (summed weight, field sum or
    mean, representative coordinate) is a reduction over the shell of that
    bin alone, the cells whose coordinate lies in the half-open interval
    from the bin's lower edge to its upper edge.  A cell whose coordinate is
    below the first edge, or at or beyond the last edge, lies in no shell
    and so contributes to no bin; a cell exactly at the first edge lies in
    the shell of the first bin. *)
Theorem out_of_range_cells_excluded (coords : ndarray) (weights : weights_arg)
    (fld : field) (edges : list R) (average bin_ave log_bins : bool) :
  strictly_increasing edges -> (2 <= length edges)%nat ->
  nonempty_grid coords -> well_shaped coords weights fld ->
  exists indx res centres sumweights,
    average_cells fld coords (BinEdges edges) weights average bin_ave log_bins
    = Ok (indx, res, centres, sumweights) /\
    (forall b, (b < nbins edges)%nat ->
       nth b sumweights 0
       = (if average then shell_weight edges b (flatten coords) weights else 1) /\
       nth b (np_real res) 0
       = shell_total edges b (flatten coords)
           (scale_by weights (np_real (cells fld))) / nth b sumweights 0 /\
       (is_complex (cells fld) = true ->
        nth b (np_imag res) 0
        = shell_total edges b (flatten coords)
            (scale_by weights (np_imag (cells fld))) / nth b sumweights 0) /\
       (bin_ave = true ->
        nth b centres 0
        = shell_total edges b (flatten coords) (scale_by weights (flatten coords))
          / shell_weight edges b (flatten coords) weights)) /\
    (forall x, x < hd 0 edges \/ last edges 0 <= x ->
       forall b, (b < nbins edges)%nat -> in_bin edges b x = false) /\
    in_bin edges 0 (hd 0 edges) = true.
Proof.
  intros Hs Hlen Hgrid Hws.
  assert (Hne : edges <> []) by (intro E; rewrite E in Hlen; simpl in Hlen; lia).
  do 4 eexists.
  split; [apply average_cells_shells;
          [apply getbins_edges|..]; assumption|].
  split; [|split].
  - intros b Hb.
    assert (Hsw : nth b (shell_sumweights edges (flatten coords) weights average) 0
                  = (if average then shell_weight edges b (flatten coords) weights
                     else 1)).
    { unfold shell_sumweights. rewrite nth_map_seq by exact Hb. reflexivity. }
    rewrite Hsw.
    assert (Hmeans : forall vals,
      nth b (shell_means edges (flatten coords) weights average vals) 0
      = shell_total edges b (flatten coords) (scale_by weights vals)
        / (if average then shell_weight edges b (flatten coords) weights else 1)).
    { intro vals. unfold shell_means. rewrite nth_map_seq by exact Hb. reflexivity. }
    split; [reflexivity|]. split; [|split].
    + destruct (is_complex (cells fld)); cbn [np_real].
      * rewrite map_fst_combine by (rewrite !length_shell_means; reflexivity).
        apply Hmeans.
      * apply Hmeans.
    + intros ->. cbn [np_imag].
      rewrite map_snd_combine by (rewrite !length_shell_means; reflexivity).
      apply Hmeans.
    + intros ->. unfold shell_centres. rewrite nth_map_seq by exact Hb. reflexivity.
  - intros x Hx b Hb. apply out_of_range_in_no_bin; try assumption.
    unfold nbins in Hb. lia.
  - apply inner_edge_in_first_bin; assumption.
Qed.

Lemma out_of_range_cells_excluded_witness :
  exists indx res centres sumweights,
    average_cells (Field [4%nat] (RealData [5; 7; 9; 11]))
      (NDArray [4%nat] [0; 1; 2; 3]) (BinEdges [1; 2; 3])
      (WScalar 1) true true false
    = Ok (indx, res, centres, sumweights) /\
    (forall b, (b < nbins [1; 2; 3]%R)%nat ->
       nth b sumweights 0
       = shell_weight [1; 2; 3] b [0; 1; 2; 3] (WScalar 1) /\
       nth b (np_real res) 0
       = shell_total [1; 2; 3] b [0; 1; 2; 3]
           (scale_by (WScalar 1) [5; 7; 9; 11]) / nth b sumweights 0 /\
       (false = true ->
        nth b (np_imag res) 0
        = shell_total [1; 2; 3] b [0; 1; 2; 3]
            (scale_by (WScalar 1) (np_imag (RealData [5; 7; 9; 11])))
          / nth b sumweights 0) /\
       (true = true ->
        nth b centres 0
        = shell_total [1; 2; 3] b [0; 1; 2; 3] (scale_by (WScalar 1) [0; 1; 2; 3])
          / shell_weight [1; 2; 3] b [0; 1; 2; 3] (WScalar 1))) /\
    (forall x, x < hd 0 [1; 2; 3] \/ last [1; 2; 3] 0 <= x ->
       forall b, (b < nbins [1; 2; 3]%R)%nat -> in_bin [1; 2; 3] b x = false) /\
    in_bin [1; 2; 3] 0 (hd 0 [1; 2; 3]) = true.
Proof.
  apply (out_of_range_cells_excluded
           (NDArray [4%nat] [0; 1; 2; 3]) (WScalar 1)
           (Field [4%nat] (RealData [5; 7; 9; 11])) [1; 2; 3] true true false).
  - repeat constructor; lra.
  - simpl; lia.
  - split; [discriminate|]. split; [repeat constructor; discriminate | reflexivity].
  - split; [reflexivity|]. split; [reflexivity | exact I].
Defined.

(** Taking a cell that lies in no bin out of the grid leaves the total of
    every shell as it was. *)
Lemma shell_total_drop_cell (edges : list R) (b : nat)
    (cs1 cs2 vs1 vs2 : list R) (c v : R) :
  length cs1 = length vs1 -> in_bin edges b c = false ->
  shell_total edges b (cs1 ++ c :: cs2) (vs1 ++ v :: vs2)
  = shell_total edges b (cs1 ++ cs2) (vs1 ++ vs2).
Proof.
  intros Hlen Hout. unfold shell_total.
  revert vs1 Hlen. induction cs1 as [|c1 cs1 IH]; intros [|v1 vs1] Hlen;
    simpl in Hlen; try discriminate.
  - simpl. rewrite Hout. reflexivity.
  - simpl. destruct (in_bin edges b c1); simpl; rewrite IH by lia; reflexivity.
Qed.

Lemma shell_count_drop_cell (edges : list R) (b : nat) (cs1 cs2 : list R) (c : R) :
  in_bin edges b c = false ->
  shell_count edges b (cs1 ++ c :: cs2) = shell_count edges b (cs1 ++ cs2).
Proof.
  intro Hout. unfold shell_count. rewrite !filter_app. simpl.
  rewrite Hout. reflexivity.
Qed.

(** ** The variance estimator under a uniform weight *)





Lemma Rsum_map_scale_1 (l : list R) : map (fun c => 1 * c) l = l.
Proof.
  induction l as [|x l IH]; simpl; [reflexivity|]. rewrite IH. f_equal. ring.
Qed.







(** ** Reported weights *)

Ltac eval_minmax :=
  repeat match goal with
    | |- context [Rmin ?a ?b] =>
        first [rewrite (Rmin_left a b) by lra | rewrite (Rmin_right a b) by lra]
    | |- context [Rmax ?a ?b] =>
        first [rewrite (Rmax_left a b) by lra | rewrite (Rmax_right a b) by lra]
    end.

Ltac decide_reals :=
  repeat match goal with
    | |- context [Rle_dec ?a ?b] => destruct (Rle_dec a b); try lra
    | |- context [Rlt_dec ?a ?b] => destruct (Rlt_dec a b); try lra
    | |- context [Req_dec_T ?a ?b] => destruct (Req_dec_T a b); try lra
    end.

(** With [average] false the weights returned by [_get_binweights] are all
    equal to one, whatever the cells are. *)
Lemma get_binweights_ones (coords : ndarray) (weights : weights_arg)
    (bins : bins_arg) (bin_ave log_bins : bool)
    (indx : list nat) (centres sumweights : list R) :
  _get_binweights coords weights bins false bin_ave log_bins
  = Ok (indx, centres, sumweights) ->
  Forall (fun w => w = 1) sumweights.
Proof.
  unfold _get_binweights.
  destruct (_getbins bins coords log_bins) as [edges|e]; cbn [bind]; [|discriminate].
  cbn [orb]. destruct bin_ave.
  - match goal with
    | |- bind ?m _ = _ -> _ => destruct m as [raw|e]; cbn [bind]; [|discriminate]
    end.
    destruct (bincount_w _ _ _) as [c|e]; cbn [bind]; [|discriminate].
    intro H; inversion H; subst.
    apply Forall_forall. intros w Hw. apply in_map_iff in Hw as [? [Hw _]].
    symmetry; exact Hw.
  - destruct edges as [|e0 rest]; [discriminate|].
    intro H; inversion H; subst.
    apply Forall_forall. intros w Hw. apply repeat_spec in Hw. exact Hw.
Qed.

(** With [average] true and a scalar weight the reported weight of a bin
    is the number of its cells. *)
Lemma get_binweights_counts (coords : ndarray) (w : R)
    (bins : bins_arg) (edges : list R) (bin_ave log_bins : bool) :
  _getbins bins coords log_bins = Ok edges ->
  strictly_increasing edges -> edges <> [] ->
  exists indx centres sumweights,
    _get_binweights coords (WScalar w) bins true bin_ave log_bins
    = Ok (indx, centres, sumweights) /\
    length sumweights = nbins edges /\
    forall b, (b < nbins edges)%nat ->
      nth b sumweights 0 = INR (shell_count edges b (flatten coords)).
Proof.
  intros Hgb Hs Hne.
  rewrite (get_binweights_shells coords (WScalar w) bins edges true bin_ave log_bins)
    by (assumption || exact I).
  do 3 eexists. split; [reflexivity|].
  unfold shell_sumweights. rewrite length_map, length_seq.
  split; [reflexivity|].
  intros b Hb. rewrite nth_map_seq by exact Hb. reflexivity.
Qed.

(** C3 at a concrete call: two cells of coordinate 1/2 fall in the single
    bin from 0 to 1, the weight is the scalar 1, [average] is false and
    the weights are requested.  The weight reported for the bin is 1, not
    the number 2 of its cells, and the reported weights sum to 1 although
    no cell is out of range. *)
Theorem sumweights_without_average_is_one :
  exists out,
    angular_average rejecting_interpolator
      (Field [2%nat] (RealData [3; 5]))
      (CoordsMag (NDArray [2%nat] [1 / 2; 1 / 2]))
      (BinEdges [0; 1]) (WScalar 1)
      false true false false None None true
    = Ok out /\
    out_sumweights out = Some [1] /\
    res out = Exact (RealData [8]) /\
    shell_count [0; 1] 0 [1 / 2; 1 / 2] = 2%nat.
Proof.
  unfold angular_average. cbn [unsupported_method].
  change (resolve_coords_grid _ _ None)
    with (Ok (NDArray [2%nat] [1 / 2; 1 / 2])).
  cbn [bind].
  rewrite (average_cells_shells (NDArray [2%nat] [1 / 2; 1 / 2]) (WScalar 1)
             (Field [2%nat] (RealData [3; 5])) (BinEdges [0; 1]) [0; 1]).
  - cbn [bind cells is_complex np_real flatten].
    eexists. split; [reflexivity|]. cbn [out_sumweights res].
    split; [reflexivity|]. split.
    + do 2 f_equal. unfold shell_means, nbins, shell_total, in_bin, Rleb, Rltb.
      cbn. decide_reals. cbn. f_equal. field.
    + unfold shell_count, in_bin, Rleb, Rltb. cbn. decide_reals. reflexivity.
  - reflexivity.
  - repeat constructor; lra.
  - discriminate.
  - split; [reflexivity|]. split; [reflexivity | exact I].
Qed.

(** *** The averaging path counts every cell in range exactly once *)

Lemma digitize1_full (x : R) (bins : list R) :
  digitize1 x bins = length bins -> bins <> [] -> last bins 0 <= x.
Proof.
  induction bins as [|e rest IH]; intros H Hne; [congruence|].
  simpl in H. destruct (Rle_dec e x) as [Hle|Hn]; [|discriminate].
  injection H as H.
  destruct rest as [|e' rest']; [exact Hle|].
  change (last (e :: e' :: rest') 0) with (last (e' :: rest') 0).
  apply IH; [exact H | discriminate].
Qed.

Lemma digitize1_out_of_range (edges : list R) (x : R) :
  strictly_increasing edges -> edges <> [] ->
  out_of_range edges x
  = Nat.eqb (digitize1 x edges) 0 || Nat.eqb (digitize1 x edges) (length edges).
Proof.
  intros Hs Hne. unfold out_of_range.
  destruct (Rlt_dec x (hd 0 edges)) as [Hlt|Hge].
  - rewrite digitize1_below by exact Hlt.
    assert (Rltb x (hd 0 edges) = true) as -> by (apply Rltb_true; exact Hlt).
    reflexivity.
  - assert (Rltb x (hd 0 edges) = false) as -> by (apply Rltb_false; lra).
    assert (Hpos : Nat.eqb (digitize1 x edges) 0 = false).
    { destruct edges as [|e rest]; [congruence|]. simpl in *.
      destruct (Rle_dec e x); [reflexivity | lra]. }
    rewrite Hpos. cbn [orb].
    destruct (Rle_dec (last edges 0) x) as [Hle|Hn].
    + rewrite digitize1_beyond by assumption.
      rewrite Nat.eqb_refl. apply Rleb_true. exact Hle.
    + assert (Rleb (last edges 0) x = false) as -> by (apply Rleb_false; lra).
      symmetry. apply Nat.eqb_neq. intro E.
      apply Hn. apply digitize1_full; assumption.
Qed.

Lemma indicator_sum (k m : nat) :
  list_sum (map (fun b => if Nat.eqb k (S b) then 1%nat else 0%nat) (seq 0 m))
  = if (Nat.eqb k 0 || Nat.ltb m k) then 0%nat else 1%nat.
Proof.
  induction m as [|m IH].
  - simpl. destruct k; reflexivity.
  - rewrite seq_S, map_app, list_sum_app, IH. simpl.
    destruct k as [|k]; [reflexivity|]. cbn [Nat.eqb orb].
    destruct (Nat.eqb k m) eqn:E.
    + apply Nat.eqb_eq in E. subst k.
      assert (Nat.ltb m (S m) = true) as -> by (apply Nat.ltb_lt; lia).
      assert (Nat.ltb (S m) (S m) = false) as -> by (apply Nat.ltb_ge; lia).
      reflexivity.
    + apply Nat.eqb_neq in E.
      destruct (Nat.ltb m (S k)) eqn:E1.
      * apply Nat.ltb_lt in E1.
        assert (Nat.ltb (S m) (S k) = true) as -> by (apply Nat.ltb_lt; lia).
        reflexivity.
      * apply Nat.ltb_ge in E1.
        assert (Nat.ltb (S m) (S k) = false) as -> by (apply Nat.ltb_ge; lia).
        reflexivity.
Qed.

Lemma list_sum_map_add (f g : nat -> nat) (l : list nat) :
  list_sum (map (fun b => (f b + g b)%nat) l)
  = (list_sum (map f l) + list_sum (map g l))%nat.
Proof. induction l as [|x l IH]; simpl; [reflexivity | rewrite IH; lia]. Qed.

(** The cell counts of all bins add up to the number of cells less the
    cells out of range. *)
Lemma shell_counts_partition (edges coords : list R) :
  strictly_increasing edges -> edges <> [] ->
  (list_sum (map (fun b => shell_count edges b coords) (seq 0 (nbins edges)))
   + length (filter (out_of_range edges) coords) = length coords)%nat.
Proof.
  intros Hs Hne. induction coords as [|c cs IH].
  - simpl. unfold shell_count. simpl.
    induction (seq 0 (nbins edges)) as [|x l IHl]; simpl; [reflexivity | exact IHl].
  - assert (Hstep :
      map (fun b => shell_count edges b (c :: cs)) (seq 0 (nbins edges))
      = map (fun b => ((if Nat.eqb (digitize1 c edges) (S b) then 1 else 0)
                       + shell_count edges b cs)%nat) (seq 0 (nbins edges))).
    { apply map_ext_in. intros b Hb. unfold shell_count. simpl.
      rewrite digitize1_in_bin by (assumption || apply in_seq_nbins, Hb).
      destruct (in_bin edges b c); reflexivity. }
    rewrite Hstep, list_sum_map_add, indicator_sum.
    cbn [filter length]. rewrite digitize1_out_of_range by assumption.
    assert (Hk : (digitize1 c edges <= length edges)%nat) by apply digitize1_le.
    assert (Hlt : Nat.ltb (nbins edges) (digitize1 c edges)
                  = Nat.eqb (digitize1 c edges) (length edges)).
    { unfold nbins. destruct edges as [|e rest]; [congruence|]. simpl length in *.
      destruct (Nat.eqb (digitize1 c (e :: rest)) (S (length rest))) eqn:E.
      - apply Nat.eqb_eq in E. apply Nat.ltb_lt. lia.
      - apply Nat.eqb_neq in E. apply Nat.ltb_ge. lia. }
    rewrite Hlt.
    destruct (Nat.eqb (digitize1 c edges) 0 || Nat.eqb (digitize1 c edges) (length edges));
      simpl; lia.
Qed.

(** ** The bin-edge resolver *)

Lemma fold_left_Rmin_spec (l : list R) (x : R) :
  In (fold_left Rmin l x) (x :: l) /\
  forall y, In y (x :: l) -> fold_left Rmin l x <= y.
Proof.
  revert x; induction l as [|a l IH]; intro x; simpl.
  - split; [left; reflexivity|]. intros y [<-|[]]; lra.
  - destruct (IH (Rmin x a)) as [Hin Hle]. split.
    + destruct Hin as [E|Hin]; [|right; right; exact Hin].
      rewrite <- E. unfold Rmin. destruct (Rle_dec x a); auto.
    + intros y Hy.
      assert (Hm : fold_left Rmin l (Rmin x a) <= Rmin x a)
        by (apply Hle; left; reflexivity).
      destruct Hy as [<-|[<-|Hy]].
      * pose proof (Rmin_l x a). lra.
      * pose proof (Rmin_r x a). lra.
      * apply Hle. right. exact Hy.
Qed.

(** [np_min] returns the least element. *)
Lemma np_min_spec (l : list R) (m : R) :
  np_min l = Ok m -> In m l /\ forall y, In y l -> m <= y.
Proof.
  destruct l as [|x t]; simpl; [discriminate|].
  intro H; inversion H; subst. apply fold_left_Rmin_spec.
Qed.

Lemma removelast_map_seq {A : Type} (f : nat -> A) (c : nat) :
  removelast (map f (seq 0 (S c))) = map f (seq 0 c).
Proof. rewrite seq_S, map_app. simpl. apply removelast_last. Qed.

Lemma linspace_S (a b : R) (c : nat) :
  linspace a b (S c + 1)
  = map (fun i => INR i * ((b - a) / INR (S c)) + a) (seq 0 (S c)) ++ [b].
Proof.
  unfold linspace.
  replace (S c + 1 - 1)%nat with (S c) by lia.
  replace (S c + 1)%nat with (S (S c)) by lia.
  change (1 <? S (S c))%nat with true. cbv iota.
  rewrite removelast_map_seq. reflexivity.
Qed.

Lemma linspace_length (a b : R) (c : nat) : length (linspace a b (c + 1)) = (c + 1)%nat.
Proof.
  destruct c as [|c].
  - reflexivity.
  - rewrite linspace_S, length_app, length_map, length_seq. simpl. lia.
Qed.

(** The samples of [np.linspace] are equally spaced from [a] to [b]. *)
Lemma linspace_nth (a b : R) (c i : nat) :
  (i <= c)%nat ->
  nth i (linspace a b (c + 1)) 0 = a + INR i * ((b - a) / INR c).
Proof.
  intro Hi. destruct c as [|c].
  - replace i with O by lia. simpl. ring.
  - rewrite linspace_S.
    destruct (Nat.eq_dec i (S c)) as [->|Hne].
    + rewrite app_nth2 by (rewrite length_map, length_seq; lia).
      rewrite length_map, length_seq, Nat.sub_diag. simpl nth.
      field. apply not_0_INR. discriminate.
    + rewrite app_nth1 by (rewrite length_map, length_seq; lia).
      rewrite nth_map_seq by lia. simpl Nat.add. ring.
Qed.

Lemma ln_10_pos : 0 < ln 10.
Proof. rewrite <- ln_1. apply ln_increasing; lra. Qed.

Lemma Rpower_10_log10 (x : R) : 0 < x -> Rpower 10 (log10 x) = x.
Proof.
  intro H. unfold Rpower, log10.
  replace (ln x / ln 10 * ln 10) with (ln x)
    by (field; pose proof ln_10_pos; lra).
  apply exp_ln. exact H.
Qed.

Lemma logspace_nth (u v : R) (c i : nat) :
  (i <= c)%nat ->
  nth i (logspace u v (c + 1)) 0 = Rpower 10 (u + INR i * ((v - u) / INR c)).
Proof.
  intro Hi. unfold logspace.
  rewrite nth_indep with (d' := Rpower 10 0)
    by (rewrite length_map, linspace_length; lia).
  rewrite map_nth, linspace_nth by exact Hi. reflexivity.
Qed.


(** ** Discarding samples outside the coordinate box *)

Lemma mapM_inv {A B : Type} (f : A -> result B) (l : list A) (ys : list B) :
  mapM f l = Ok ys -> Forall2 (fun x y => f x = Ok y) l ys.
Proof.
  revert ys; induction l as [|a l IH]; intros ys; simpl.
  - intro H; inversion H; constructor.
  - destruct (f a) as [b|e] eqn:Ha; cbn [bind]; [|discriminate].
    destruct (mapM f l) as [bs|e]; cbn [bind]; [|discriminate].
    intro H; inversion H; subst. constructor; [exact Ha | apply IH; reflexivity].
Qed.

Lemma forallb_combine_nth (P : R -> R -> bool) (l l' : list R) (i : nat) :
  forallb (fun p => P (fst p) (snd p)) (combine l l') = true ->
  (i < length l)%nat -> (i < length l')%nat ->
  P (nth i l 0) (nth i l' 0) = true.
Proof.
  revert l' i; induction l as [|a l IH]; intros [|b l'] i H Hl Hl';
    simpl in *; try lia.
  apply andb_true_iff in H as [H1 H2].
  destruct i; [exact H1 | apply IH; [exact H2 | lia | lia]].
Qed.

(** A point is in the box when each of its coordinates lies between the
    bounds of its axis. *)
Lemma in_box_spec (mins maxs p : list R) :
  in_box mins maxs p = true ->
  forall i, (i < length p)%nat -> (i < length mins)%nat -> (i < length maxs)%nat ->
    nth i mins 0 <= nth i p 0 <= nth i maxs 0.
Proof.
  unfold in_box. intros H i Hp Hmin Hmax.
  apply andb_true_iff in H as [H1 H2]. split.
  - apply Rleb_true.
    exact (forallb_combine_nth Rleb mins p i H1 Hmin Hp).
  - apply Rleb_true.
    exact (forallb_combine_nth Rleb p maxs i H2 Hp Hmax).
Qed.

Lemma sample_coords_unfold (coords : list (list R)) (bins : list R)
    (weights : weights_arg) (gen : option generator)
    (cands : list (list R)) (radii : list R) :
  candidate_samples coords bins gen = Ok (cands, radii) ->
  _sample_coords_interpolate coords bins weights gen
  = if negb (weights_size_ok weights (map (@length R) coords)) then Raise ValueError
    else
      mins <- mapM np_min coords ;;
      maxs <- mapM np_max coords ;;
      if existsb (fun p => negb (Nat.eqb (length p) (length coords))) cands
      then Raise ValueError
      else
        match filter (fun pr => in_box mins maxs (fst pr)) (combine cands radii) with
        | [] => Raise ValueError
        | kept => Ok (map fst kept, map snd kept)
        end.
Proof.
  intro H. unfold _sample_coords_interpolate. rewrite H. cbn [bind].
  destruct (negb _); [reflexivity|].
  destruct (mapM np_min coords); cbn [bind]; [|reflexivity].
  destruct (mapM np_max coords); cbn [bind]; [|reflexivity].
  destruct (existsb _ _); [reflexivity|].
  destruct (filter _ _); reflexivity.
Qed.

Lemma mapM_error {A B : Type} (f : A -> result B) (l : list A) (e0 e : error) :
  (forall a e', f a = Raise e' -> e' = e0) ->
  mapM f l = Raise e -> e = e0.
Proof.
  intros Hf. revert e; induction l as [|a l IH]; intro e; simpl; [discriminate|].
  destruct (f a) as [b|e'] eqn:Ha; cbn [bind].
  - destruct (mapM f l) as [bs|e'']; cbn [bind]; [discriminate|].
    intro H; inversion H; subst. apply IH. reflexivity.
  - intro H; inversion H; subst. apply (Hf a). exact Ha.
Qed.

Lemma np_min_error (l : list R) (e : error) : np_min l = Raise e -> e = ValueError.
Proof. destruct l; simpl; intro H; inversion H; reflexivity. Qed.

Lemma np_max_error (l : list R) (e : error) : np_max l = Raise e -> e = ValueError.
Proof. destruct l; simpl; intro H; inversion H; reflexivity. Qed.

(** C9: of the candidate sample points, exactly those inside the box
    spanned by the minimum and the maximum of every coordinate axis are
    returned, in order and with their radii; and when none is inside, the
    call raises [ValueError] and returns nothing. *)
Theorem samples_outside_box_discarded (coords : list (list R)) (bins : list R)
    (weights : weights_arg) (gen : option generator)
    (cands : list (list R)) (radii : list R) :
  candidate_samples coords bins gen = Ok (cands, radii) ->
  (forall points r_n,
     _sample_coords_interpolate coords bins weights gen = Ok (points, r_n) ->
     exists mins maxs,
       Forall2 (fun c m => np_min c = Ok m) coords mins /\
       Forall2 (fun c m => np_max c = Ok m) coords maxs /\
       points = map fst (filter (fun pr => in_box mins maxs (fst pr))
                           (combine cands radii)) /\
       r_n = map snd (filter (fun pr => in_box mins maxs (fst pr))
                        (combine cands radii)) /\
       points <> [] /\
       Forall (fun p => forall i, (i < length coords)%nat ->
                 nth i mins 0 <= nth i p 0 <= nth i maxs 0) points) /\
  ((forall mins maxs,
      mapM np_min coords = Ok mins -> mapM np_max coords = Ok maxs ->
      Forall (fun pr => in_box mins maxs (fst pr) = false) (combine cands radii)) ->
   _sample_coords_interpolate coords bins weights gen = Raise ValueError).
Proof.
  intro Hc. rewrite (sample_coords_unfold coords bins weights gen cands radii Hc).
  split.
  - intros points r_n.
    destruct (negb _); [discriminate|].
    destruct (mapM np_min coords) as [mins|e] eqn:Hmin; cbn [bind]; [|discriminate].
    destruct (mapM np_max coords) as [maxs|e] eqn:Hmax; cbn [bind]; [|discriminate].
    destruct (existsb _ cands) eqn:Hdim; [discriminate|].
    destruct (filter _ _) as [|k kept] eqn:Hk; [discriminate|].
    intro H; inversion H; subst; clear H.
    exists mins, maxs.
    pose proof (mapM_inv _ _ _ Hmin) as Hmins.
    pose proof (mapM_inv _ _ _ Hmax) as Hmaxs.
    split; [exact Hmins|]. split; [exact Hmaxs|].
    split; [rewrite Hk; reflexivity|]. split; [rewrite Hk; reflexivity|].
    split; [discriminate|].
    apply Forall_forall. intros p Hp i Hi.
    change (fst k :: map fst kept) with (map fst (k :: kept)) in Hp.
    apply in_map_iff in Hp as [[p' r] [Hp Hin]]. cbn [fst] in Hp. subst p'.
    rewrite <- Hk in Hin. apply filter_In in Hin as [Hin Hbox]. cbn [fst] in Hbox.
    apply in_combine_l in Hin.
    assert (Hlen : length p = length coords).
    { apply Bool.not_true_iff_false in Hdim.
      destruct (Nat.eq_dec (length p) (length coords)) as [E|E]; [exact E|].
      exfalso. apply Hdim. apply existsb_exists. exists p.
      split; [exact Hin|]. apply negb_true_iff, Nat.eqb_neq. exact E. }
    apply in_box_spec; try assumption.
    + lia.
    + rewrite <- (Forall2_length Hmins). exact Hi.
    + rewrite <- (Forall2_length Hmaxs). exact Hi.
  - intro Hall.
    destruct (negb _); [reflexivity|].
    destruct (mapM np_min coords) as [mins|e] eqn:Hmin; cbn [bind].
    2:{ f_equal. exact (mapM_error np_min coords ValueError e np_min_error Hmin). }
    destruct (mapM np_max coords) as [maxs|e] eqn:Hmax; cbn [bind].
    2:{ f_equal. exact (mapM_error np_max coords ValueError e np_max_error Hmax). }
    destruct (existsb _ cands); [reflexivity|].
    specialize (Hall mins maxs eq_refl eq_refl).
    assert (Hnil : filter (fun pr => in_box mins maxs (fst pr)) (combine cands radii)
                   = []).
    { induction (combine cands radii) as [|pr l IH]; [reflexivity|].
      inversion Hall; subst. simpl. rewrite H1. apply IH. assumption. }
    rewrite Hnil. reflexivity.
Qed.

Lemma samples_outside_box_discarded_witness :
  (forall points r_n,
     _sample_coords_interpolate [[0; 1; 2]] [1 / 2; 5] (WScalar 1) None
     = Ok (points, r_n) ->
     exists mins maxs,
       Forall2 (fun c m => np_min c = Ok m) [[0; 1; 2]] mins /\
       Forall2 (fun c m => np_max c = Ok m) [[0; 1; 2]] maxs /\
       points = map fst (filter (fun pr => in_box mins maxs (fst pr))
                           (combine [[1 / 2]; [5]] [1 / 2; 5])) /\
       r_n = map snd (filter (fun pr => in_box mins maxs (fst pr))
                        (combine [[1 / 2]; [5]] [1 / 2; 5])) /\
       points <> [] /\
       Forall (fun p => forall i, (i < length [[0; 1; 2]])%nat ->
                 nth i mins 0 <= nth i p 0 <= nth i maxs 0) points) /\
  ((forall mins maxs,
      mapM np_min [[0; 1; 2]] = Ok mins -> mapM np_max [[0; 1; 2]] = Ok maxs ->
      Forall (fun pr => in_box mins maxs (fst pr) = false)
        (combine [[1 / 2]; [5]] [1 / 2; 5])) ->
   _sample_coords_interpolate [[0; 1; 2]] [1 / 2; 5] (WScalar 1) None
   = Raise ValueError).
Proof.
  apply (samples_outside_box_discarded [[0; 1; 2]] [1 / 2; 5] (WScalar 1) None
           [[1 / 2]; [5]] [1 / 2; 5]).
  reflexivity.
Defined.

(** ** The upper bound of the radial range *)

Lemma fold_left_Rmax_spec (l : list R) (x : R) :
  In (fold_left Rmax l x) (x :: l) /\
  forall y, In y (x :: l) -> y <= fold_left Rmax l x.
Proof.
  revert x; induction l as [|a l IH]; intro x; simpl.
  - split; [left; reflexivity|]. intros y [<-|[]]; lra.
  - destruct (IH (Rmax x a)) as [Hin Hle]. split.
    + destruct Hin as [E|Hin]; [|right; right; exact Hin].
      rewrite <- E. unfold Rmax. destruct (Rle_dec x a); auto.
    + intros y Hy.
      assert (Hm : Rmax x a <= fold_left Rmax l (Rmax x a))
        by (apply Hle; left; reflexivity).
      destruct Hy as [<-|[<-|Hy]].
      * pose proof (Rmax_l x a). lra.
      * pose proof (Rmax_r x a). lra.
      * apply Hle. right. exact Hy.
Qed.

Lemma line_max_unique (a : ndarray) (i o j : nat) (m m' : R) :
  line_max a i o j m -> line_max a i o j m' -> m = m'.
Proof.
  intros [[k [Hk Hm]] Hle] [[k' [Hk' Hm']] Hle'].
  pose proof (Hle k' Hk'). pose proof (Hle' k Hk). lra.
Qed.

(** The cells of [np.max(a, axis=i)] are the maxima of the lines of [a]
    along axis [i], one per line. *)
Lemma amax_axis_lines (a : ndarray) (i : nat) (m : ndarray) :
  amax_axis a i = Ok m ->
  (forall v, In v (flatten m) ->
     exists o j, (o < prod (firstn i (shape a)))%nat /\
                 (j < prod (skipn (S i) (shape a)))%nat /\
                 line_max a i o j v) /\
  (forall o j, (o < prod (firstn i (shape a)))%nat ->
               (j < prod (skipn (S i) (shape a)))%nat ->
     exists v, In v (flatten m) /\ line_max a i o j v).
Proof.
  unfold amax_axis.
  destruct (nth i (shape a) 0%nat) as [|n'] eqn:En; [discriminate|].
  intro H; inversion H; subst; clear H. cbn [flatten].
  assert (Hline : forall o j,
    line_max a i o j
      (fold_left Rmax
         (map (fun k => nth ((o * S n' + k) * prod (skipn (S i) (shape a)) + j)
                          (flatten a) 0) (seq 1 n'))
         (nth (o * S n' * prod (skipn (S i) (shape a)) + j) (flatten a) 0))).
  { intros o j.
    set (cell := fun k => nth ((o * S n' + k) * prod (skipn (S i) (shape a)) + j)
                            (flatten a) 0).
    assert (H0 : nth (o * S n' * prod (skipn (S i) (shape a)) + j) (flatten a) 0
                 = cell 0%nat)
      by (unfold cell; rewrite Nat.add_0_r; reflexivity).
    rewrite H0.
    destruct (fold_left_Rmax_spec (map cell (seq 1 n')) (cell 0%nat)) as [Hin Hle].
    change (cell 0%nat :: map cell (seq 1 n')) with (map cell (seq 0 (S n')))
      in Hin, Hle.
    unfold line_max, axis_cell. rewrite En. fold cell. split.
    - apply in_map_iff in Hin as [k [Hk Hks]]. apply in_seq in Hks.
      exists k. split; [lia | exact Hk].
    - intros k Hk. apply Hle. apply in_map_iff. exists k.
      split; [reflexivity | apply in_seq; lia]. }
  split.
  - intros v Hv. apply in_flat_map in Hv as [o [Ho Hv]].
    apply in_map_iff in Hv as [j [<- Hj]].
    apply in_seq in Ho. apply in_seq in Hj.
    destruct Ho as [_ Ho]. destruct Hj as [_ Hj].
    exists o, j. split; [exact Ho|]. split; [exact Hj | apply Hline].
  - intros o j Ho Hj. eexists. split; [|apply Hline].
    apply in_flat_map. exists o.
    split; [apply in_seq; split; [lia | exact Ho]|].
    apply in_map_iff. exists j.
    split; [reflexivity | apply in_seq; split; [lia | exact Hj]].
Qed.

Lemma Forall2_right_image {A B : Type} (P : A -> B -> Prop) (l : list A)
    (l' : list B) (y : B) :
  Forall2 P l l' -> In y l' -> exists x, In x l /\ P x y.
Proof.
  induction 1 as [|a b l l' Hab _ IH]; intros Hin; [destruct Hin|].
  destruct Hin as [<-|Hin].
  - exists a. split; [left; reflexivity | exact Hab].
  - destruct (IH Hin) as [x [Hx Hp]]. exists x. split; [right; exact Hx | exact Hp].
Qed.

Lemma Forall2_left_image {A B : Type} (P : A -> B -> Prop) (l : list A)
    (l' : list B) (x : A) :
  Forall2 P l l' -> In x l -> exists y, In y l' /\ P x y.
Proof.
  induction 1 as [|a b l l' Hab _ IH]; intros Hin; [destruct Hin|].
  destruct Hin as [<-|Hin].
  - exists b. split; [left; reflexivity | exact Hab].
  - destruct (IH Hin) as [y [Hy Hp]]. exists y. split; [right; exact Hy | exact Hp].
Qed.

(** [max_radius] is the smallest of the maxima of the lines of the grid,
    taken along every axis: it is the maximum of one line, and no line
    has a smaller maximum. *)
Lemma max_radius_lines (coords : ndarray) (mx : R) :
  max_radius coords = Ok mx ->
  (exists i o j, axis_line coords i o j /\ line_max coords i o j mx) /\
  (forall i o j m,
     axis_line coords i o j -> line_max coords i o j m -> mx <= m).
Proof.
  unfold max_radius.
  destruct (mapM (amax_axis coords) (seq 0 (ndim coords))) as [maxs|e] eqn:Hmaxs;
    cbn [bind]; [|discriminate].
  intro Hmx. destruct (np_min_spec _ _ Hmx) as [Hin Hleast].
  pose proof (mapM_inv _ _ _ Hmaxs) as Hall.
  split.
  - apply in_flat_map in Hin as [m [Hm Hv]].
    destruct (Forall2_right_image _ _ _ m Hall Hm) as [i [Hi Hax]].
    apply in_seq in Hi.
    destruct (proj1 (amax_axis_lines coords i m Hax) mx Hv) as (o & j & Ho & Hj & Hl).
    exists i, o, j. split; [|exact Hl].
    unfold axis_line. repeat split; [lia | exact Ho | exact Hj].
  - intros i o j m (Hi & Ho & Hj) Hl.
    assert (Hseq : In i (seq 0 (ndim coords))) by (apply in_seq; lia).
    destruct (Forall2_left_image _ _ _ i Hall Hseq) as [mi [Hmi Hax]].
    destruct (proj2 (amax_axis_lines coords i mi Hax) o j Ho Hj) as [v [Hv Hlv]].
    rewrite (line_max_unique coords i o j m v Hl Hlv).
    apply Hleast. apply in_flat_map. exists mi. split; assumption.
Qed.

(** C2, on a grid with at least one axis and no empty axis: the resolver
    returns an explicit edge sequence unchanged.  The upper bound [mx] of
    the radial range is the smallest per-axis maximum: the maximum of the
    cells of one line of the grid along one axis, no line along any axis
    having a smaller maximum.  For a bin count [c] in linear mode the
    resolver returns [c + 1] edges, equally spaced, the first one the
    minimum radial value and (when there is at least one bin) the last one
    [mx]; in log mode, when the grid has a positive value and [mx] is
    positive, it returns [c + 1] edges in constant ratio, from the minimum
    positive radial value to [mx]. *)
Theorem getbins_resolves (coords : ndarray) :
  nonempty_grid coords ->
  (forall edges log, _getbins (BinEdges edges) coords log = Ok edges) /\
  exists mx,
    max_radius coords = Ok mx /\
    (exists i o j, axis_line coords i o j /\ line_max coords i o j mx) /\
    (forall i o j m,
       axis_line coords i o j -> line_max coords i o j m -> mx <= m) /\
    (forall c, exists mn edges,
       In mn (flatten coords) /\
       (forall x, In x (flatten coords) -> mn <= x) /\
       _getbins (BinCount c) coords false = Ok edges /\
       length edges = (c + 1)%nat /\
       nth 0 edges 0 = mn /\
       ((1 <= c)%nat -> nth c edges 0 = mx) /\
       (forall i, (i < c)%nat ->
          nth (S i) edges 0 - nth i edges 0 = (mx - mn) / INR c)) /\
    (forall c, (exists x, In x (flatten coords) /\ 0 < x) -> 0 < mx ->
       exists mn edges,
         In mn (flatten coords) /\ 0 < mn /\
         (forall x, In x (flatten coords) -> 0 < x -> mn <= x) /\
         _getbins (BinCount c) coords true = Ok edges /\
         length edges = (c + 1)%nat /\
         nth 0 edges 0 = mn /\
         ((1 <= c)%nat -> nth c edges 0 = mx) /\
         (forall i, (i < c)%nat ->
            nth (S i) edges 0 = nth i edges 0 * Rpower (mx / mn) (/ INR c))).
Proof.
  intro Hgrid. split; [intros; apply getbins_edges; exact Hgrid|].
  destruct (max_radius_ok coords Hgrid) as [mx Hmx].
  destruct (max_radius_lines coords mx Hmx) as [Hline Hleast].
  exists mx. split; [exact Hmx|]. split; [exact Hline|]. split; [exact Hleast|].
  split.
  - intro c. destruct (grid_min_ok coords Hgrid) as [mn Hmn].
    destruct (np_min_spec _ _ Hmn) as [Hmin Hmle].
    exists mn, (linspace mn mx (c + 1)).
    split; [exact Hmin|]. split; [exact Hmle|].
    split; [unfold _getbins; rewrite Hmx; cbn [bind negb]; rewrite Hmn; reflexivity|].
    split; [apply linspace_length|].
    split; [rewrite linspace_nth by lia; simpl; ring|].
    split.
    + intro Hc. rewrite linspace_nth by lia. field.
      apply not_0_INR. lia.
    + intros i Hi. rewrite !linspace_nth by lia. rewrite S_INR. ring.
  - intros c [x [Hx Hxpos]] Hmxpos.
    assert (Hf : In x (filter (fun c0 => Rltb 0 c0) (flatten coords)))
      by (apply filter_In; split; [exact Hx | apply Rltb_true; exact Hxpos]).
    destruct (filter (fun c0 => Rltb 0 c0) (flatten coords)) as [|y t] eqn:Ef;
      [destruct Hf|].
    assert (Hmn : np_min (y :: t) = Ok (fold_left Rmin t y)) by reflexivity.
    set (mn := fold_left Rmin t y) in *.
    destruct (np_min_spec _ _ Hmn) as [Hmin Hmle].
    rewrite <- Ef in Hmin, Hmle.
    apply filter_In in Hmin as [Hmin Hmnpos]. apply Rltb_true in Hmnpos.
    exists mn, (logspace (log10 mn) (log10 mx) (c + 1)).
    split; [exact Hmin|]. split; [exact Hmnpos|].
    split.
    { intros z Hz Hzpos. apply Hmle, filter_In.
      split; [exact Hz | apply Rltb_true; exact Hzpos]. }
    split.
    { unfold _getbins. rewrite Hmx. cbn [bind negb]. rewrite Ef, Hmn. reflexivity. }
    split; [unfold logspace; rewrite length_map; apply linspace_length|].
    split.
    { rewrite logspace_nth by lia.
      match goal with
      | |- Rpower 10 ?e = _ => replace e with (log10 mn) by (simpl; ring)
      end.
      apply Rpower_10_log10. exact Hmnpos. }
    split.
    + intro Hc. rewrite logspace_nth by lia.
      replace (log10 mn + INR c * ((log10 mx - log10 mn) / INR c)) with (log10 mx)
        by (field; apply not_0_INR; lia).
      apply Rpower_10_log10. exact Hmxpos.
    + intros i Hi. rewrite !logspace_nth by lia. rewrite S_INR.
      replace (log10 mn + (INR i + 1) * ((log10 mx - log10 mn) / INR c))
        with ((log10 mn + INR i * ((log10 mx - log10 mn) / INR c))
              + (log10 mx - log10 mn) / INR c) by ring.
      rewrite Rpower_plus. f_equal.
      unfold Rpower, log10. f_equal.
      replace (ln (mx / mn)) with (ln mx - ln mn).
      2:{ unfold Rdiv. rewrite ln_mult, ln_Rinv; try assumption;
          [ring | apply Rinv_0_lt_compat; exact Hmnpos]. }
      field. split; [apply not_0_INR; lia | pose proof ln_10_pos; lra].
Qed.

Lemma getbins_resolves_witness :
  (forall edges log,
     _getbins (BinEdges edges) (NDArray [2%nat; 3%nat] [0; 1; 2; 3; 4; 5]) log
     = Ok edges) /\
  exists mx,
    max_radius (NDArray [2%nat; 3%nat] [0; 1; 2; 3; 4; 5]) = Ok mx /\
    (exists i o j,
       axis_line (NDArray [2%nat; 3%nat] [0; 1; 2; 3; 4; 5]) i o j /\
       line_max (NDArray [2%nat; 3%nat] [0; 1; 2; 3; 4; 5]) i o j mx) /\
    (forall i o j m,
       axis_line (NDArray [2%nat; 3%nat] [0; 1; 2; 3; 4; 5]) i o j ->
       line_max (NDArray [2%nat; 3%nat] [0; 1; 2; 3; 4; 5]) i o j m -> mx <= m) /\
    (forall c, exists mn edges,
       In mn [0; 1; 2; 3; 4; 5] /\
       (forall x, In x [0; 1; 2; 3; 4; 5] -> mn <= x) /\
       _getbins (BinCount c) (NDArray [2%nat; 3%nat] [0; 1; 2; 3; 4; 5]) false
       = Ok edges /\
       length edges = (c + 1)%nat /\
       nth 0 edges 0 = mn /\
       ((1 <= c)%nat -> nth c edges 0 = mx) /\
       (forall i, (i < c)%nat ->
          nth (S i) edges 0 - nth i edges 0 = (mx - mn) / INR c)) /\
    (forall c, (exists x, In x [0; 1; 2; 3; 4; 5] /\ 0 < x) -> 0 < mx ->
       exists mn edges,
         In mn [0; 1; 2; 3; 4; 5] /\ 0 < mn /\
         (forall x, In x [0; 1; 2; 3; 4; 5] -> 0 < x -> mn <= x) /\
         _getbins (BinCount c) (NDArray [2%nat; 3%nat] [0; 1; 2; 3; 4; 5]) true
         = Ok edges /\
         length edges = (c + 1)%nat /\
         nth 0 edges 0 = mn /\
         ((1 <= c)%nat -> nth c edges 0 = mx) /\
         (forall i, (i < c)%nat ->
            nth (S i) edges 0 = nth i edges 0 * Rpower (mx / mn) (/ INR c))).
Proof.
  apply (getbins_resolves (NDArray [2%nat; 3%nat] [0; 1; 2; 3; 4; 5])).
  split; [discriminate|].
  split; [repeat constructor; discriminate | reflexivity].
Defined.

(** On the grid of two rows 0, 1, 2 and 3, 4, 5 the maxima along the first
    axis are 3, 4 and 5 and those along the second axis are 2 and 5: the
    upper bound is 2, the maximum of the first row. *)
Example max_radius_example :
  max_radius (NDArray [2%nat; 3%nat] [0; 1; 2; 3; 4; 5]) = Ok 2 /\
  line_max (NDArray [2%nat; 3%nat] [0; 1; 2; 3; 4; 5]) 1 0 0 2.
Proof.
  split.
  - unfold max_radius, amax_axis. cbn. eval_minmax. reflexivity.
  - split.
    + exists 2%nat. split; [simpl; lia | reflexivity].
    + intros k Hk. cbn in Hk. unfold axis_cell. cbn [shape flatten nth skipn prod fold_right].
      destruct k as [|[|[|k]]]; try lia; cbn; lra.
Qed.

(** The claim as stated, for every coordinate grid, fails on a grid
    without cells: explicit edges are not returned, the resolver raises
    [ValueError] while it computes the upper bound. *)
Lemma getbins_explicit_edges_on_empty_grid :
  _getbins (BinEdges [0; 1]) (NDArray [0%nat] []) false = Raise ValueError.
Proof. reflexivity. Qed.

(** ** The interpolated averager *)

Lemma length_insert_unique (x : R) (l : list R) :
  (length (insert_unique x l) <= S (length l))%nat.
Proof.
  induction l as [|y t IH]; simpl; [lia|].
  destruct (Rlt_dec x y); [simpl; lia|].
  destruct (Rlt_dec y x); simpl; lia.
Qed.

Lemma length_np_unique (l : list R) : (length (np_unique l) <= length l)%nat.
Proof.
  induction l as [|x t IH]; simpl; [lia|].
  pose proof (length_insert_unique x (np_unique t)). lia.
Qed.

Lemma length_filter_le {A : Type} (f : A -> bool) (l : list A) :
  (length (filter f l) <= length l)%nat.
Proof. induction l as [|a l IH]; simpl; [lia|]. destruct (f a); simpl; lia. Qed.

Lemma filter_none {A : Type} (f : A -> bool) (l : list A) :
  (forall a, In a l -> f a = false) -> filter f l = [].
Proof.
  induction l as [|a l IH]; intro H; simpl; [reflexivity|].
  rewrite (H a) by (left; reflexivity). apply IH.
  intros b Hb. apply H. right. exact Hb.
Qed.

Lemma Reqb_false (x y : R) : x <> y -> Reqb x y = false.
Proof. intro H. unfold Reqb. destruct (Req_dec_T x y); [contradiction | reflexivity]. Qed.

(** The averaged values have one entry per target radius, the mean of the
    valid samples taken at that radius, which is NaN when no sample was
    taken there; the weights have one entry per distinct radius that has a
    valid sample, so at most as many as there are samples. *)
Lemma field_average_interpolate_lengths
    (RegularGridInterpolator :
       list (list R) -> list nat -> list (option C) -> result interpolant)
    (coords : list (list R)) (fld : field) (bins : list R)
    (weights : weights_arg) (sample_coords : list (list R)) (r_n : list R)
    (avged : list (option C)) (sumweights : list R) :
  _field_average_interpolate RegularGridInterpolator coords fld bins weights
    sample_coords r_n = Ok (avged, sumweights) ->
  length avged = length bins /\
  (length sumweights <= length r_n)%nat /\
  (forall i, (i < length bins)%nat -> ~ In (nth i bins 0) r_n ->
     nth i avged None = None).
Proof.
  unfold _field_average_interpolate.
  destruct (negb (weights_size_ok _ _)); [discriminate|].
  destruct (RegularGridInterpolator _ _ _) as [fnc|e]; cbn [bind]; [|discriminate].
  destruct (negb (Nat.eqb _ _)); [discriminate|].
  intro H; inversion H; subst; clear H.
  split; [apply length_map|]. split.
  - unfold np_unique_counts. rewrite !length_map.
    etransitivity; [apply length_np_unique|].
    rewrite length_map.
    etransitivity; [apply length_filter_le|].
    rewrite length_combine. lia.
  - intros i Hi Hb.
    match goal with
    | |- nth i (map ?F bins) None = None =>
        rewrite nth_indep with (d' := F 0) by (rewrite length_map; exact Hi);
        rewrite (map_nth F)
    end.
    rewrite filter_none; [reflexivity|].
    intros [v r] Hin. cbn [snd]. apply Reqb_false.
    intro E. apply Hb. rewrite <- E. exact (in_combine_r _ _ _ _ Hin).
Qed.

Lemma sample_coords_example :
  _sample_coords_interpolate [[0; 1; 2]] (bin_centres [0; 1; 9] false)
    (WScalar 1) None
  = Ok ([[(1 + 0) / 2]], [(1 + 0) / 2]).
Proof.
  unfold _sample_coords_interpolate, candidate_samples, bin_centres.
  cbn. eval_minmax. unfold in_box, Rleb. cbn.
  decide_reals; reflexivity.
Qed.

Lemma getbins_example (log : bool) :
  _getbins (BinEdges [0; 1; 9]) (_magnitude_grid [[0; 1; 2]]) log = Ok [0; 1; 9].
Proof.
  apply getbins_edges. split; [discriminate|].
  split; [repeat constructor; discriminate | reflexivity].
Qed.

(** C8 at a concrete call: a field on the axis 0, 1, 2 is averaged by
    interpolation over the edges 0, 1, 9, so the target radii are 1/2 and
    5, and the sample at radius 5 is outside the field's box.  Whatever the
    interpolator is, the result has a value for each of the two radii (NaN
    for radius 5) but at most one weight: the radius without a valid sample
    gets no entry.  With an interpolator that is constant the call returns
    the single weight 1. *)
Theorem interpolated_weights_skip_empty_radius :
  (forall RegularGridInterpolator out,
     angular_average RegularGridInterpolator
       (Field [3%nat] (RealData [1; 2; 3])) (CoordsAxes [[0; 1; 2]])
       (BinEdges [0; 1; 9]) (WScalar 1) true true false false
       (Some "linear"%string) None true = Ok out ->
     exists v0 sw,
       res out = Sampled false [v0; None] /\
       out_bins out = [(1 + 0) / 2; (9 + 1) / 2] /\
       out_sumweights out = Some sw /\
       (length sw <= 1)%nat) /\
  exists v0,
    angular_average (constant_interpolator (0, 0))
      (Field [3%nat] (RealData [1; 2; 3])) (CoordsAxes [[0; 1; 2]])
      (BinEdges [0; 1; 9]) (WScalar 1) true true false false
      (Some "linear"%string) None true
    = Ok (Averaged [2%nat] (Sampled false [v0; None])
            [(1 + 0) / 2; (9 + 1) / 2] None (Some [1])).
Proof.
  split.
  - intros RGI out. unfold angular_average.
    change (unsupported_method (Some "linear"%string)) with false. cbv iota.
    change (resolve_coords_grid _ _ _) with (Ok (_magnitude_grid [[0; 1; 2]])).
    cbn [bind]. rewrite getbins_example. cbn [bind interp_axes].
    rewrite sample_coords_example. cbn [bind].
    destruct (_field_average_interpolate _ _ _ _ _ _ _) as [[avged sw]|e] eqn:E;
      cbn [bind]; [|discriminate].
    intro H; inversion H; subst; clear H. cbn [res out_bins out_sumweights].
    destruct (field_average_interpolate_lengths _ _ _ _ _ _ _ _ _ E)
      as (Hlen & Hsw & Hnan).
    specialize (Hnan 1%nat).
    assert (H1 : nth 1 avged None = None).
    { apply Hnan; [simpl; lia|]. simpl. intros [H|[]]. lra. }
    destruct avged as [|v0 [|v1 [|v2 t]]]; simpl in Hlen; try lia.
    simpl in H1. subst v1.
    exists v0, sw. repeat split. exact Hsw.
  - unfold angular_average.
    change (unsupported_method (Some "linear"%string)) with false. cbv iota.
    change (resolve_coords_grid _ _ _) with (Ok (_magnitude_grid [[0; 1; 2]])).
    cbn [bind]. rewrite getbins_example. cbn [bind interp_axes].
    rewrite sample_coords_example. cbn [bind].
    unfold _field_average_interpolate, constant_interpolator.
    cbn [weights_size_ok negb field_shape cells fdata_len np_real length
         cell_weights repeat to_complex map map2 bind].
    unfold bin_centres.
    cbn [tl removelast map2 map combine length Nat.eqb negb filter snd fst].
    unfold Reqb.
    destruct (Req_dec_T (1 * 1) 0) as [E|_]; [lra|].
    cbn [nanmean nanstd valid option_map].
    destruct (Req_dec_T ((1 + 0) / 2) ((1 + 0) / 2)) as [_|E]; [|contradiction].
    destruct (Req_dec_T ((1 + 0) / 2) ((9 + 1) / 2)) as [E|_]; [lra|].
    cbn [filter map fst snd valid nanmean length].
    unfold np_unique_counts. cbn [np_unique fold_right insert_unique map count_occ].
    destruct (Req_dec_T ((1 + 0) / 2) ((1 + 0) / 2)) as [_|E]; [|contradiction].
    cbn [bind is_complex cells length map INR].
    eexists. reflexivity.
Qed.

(** ** Variance requests that are not supported *)

Lemma field_variance_complex (indx : list nat) (fld : field) (average : list R)
    (weights : weights_arg) (V1 : list R) :
  is_complex (cells fld) = true ->
  _field_variance indx fld average weights V1 = Raise NotImplementedError.
Proof.
  unfold _field_variance. destruct (cells fld); [discriminate | reflexivity].
Qed.

(** C5: when the variance is requested for a complex-valued field, or
    together with an interpolation method, [angular_average] returns no
    result.  It raises [NotImplementedError] whenever the same call without
    the variance request succeeds, and otherwise fails with the error of
    that call, which is raised first. *)
Theorem variance_unsupported
    (RegularGridInterpolator :
       list (list R) -> list nat -> list (option C) -> result interpolant)
    (fld : field) (coords : coords_arg) (bins : bins_arg) (weights : weights_arg)
    (average bin_ave log_bins : bool)
    (interpolation_method : option String.string)
    (interp_points_generator : option generator) (return_sumweights : bool) :
  is_complex (cells fld) = true \/ interpolation_method <> None ->
  angular_average RegularGridInterpolator fld coords bins weights
    average bin_ave true log_bins interpolation_method interp_points_generator
    return_sumweights
  = match angular_average RegularGridInterpolator fld coords bins weights
            average bin_ave false log_bins interpolation_method
            interp_points_generator return_sumweights with
    | Ok _ => Raise NotImplementedError
    | Raise e => Raise e
    end /\
  forall out,
    angular_average RegularGridInterpolator fld coords bins weights
      average bin_ave true log_bins interpolation_method interp_points_generator
      return_sumweights <> Ok out.
Proof.
  intro Hcase.
  assert (Heq :
    angular_average RegularGridInterpolator fld coords bins weights
      average bin_ave true log_bins interpolation_method interp_points_generator
      return_sumweights
    = match angular_average RegularGridInterpolator fld coords bins weights
              average bin_ave false log_bins interpolation_method
              interp_points_generator return_sumweights with
      | Ok _ => Raise NotImplementedError
      | Raise e => Raise e
      end).
  { unfold angular_average.
    destruct (unsupported_method interpolation_method); [reflexivity|].
    destruct (resolve_coords_grid fld coords interpolation_method) as [g|e];
      cbn [bind]; [|reflexivity].
    destruct interpolation_method as [m|].
    - destruct (_getbins bins g log_bins) as [edges|e]; cbn [bind]; [|reflexivity].
      destruct (interp_axes coords) as [axes|e]; cbn [bind]; [|reflexivity].
      destruct (_sample_coords_interpolate _ _ _ _) as [[sc r_n]|e];
        cbn [bind]; [|reflexivity].
      destruct (_field_average_interpolate _ _ _ _ _ _ _) as [[r sw]|e];
        cbn [bind]; reflexivity.
    - destruct Hcase as [Hc|Hm]; [|congruence].
      destruct (average_cells fld g bins weights average bin_ave log_bins)
        as [[[[indx r] centres] sw]|e]; cbn [bind]; [|reflexivity].
      rewrite field_variance_complex by exact Hc. reflexivity. }
  split; [exact Heq|].
  intros out H. rewrite Heq in H.
  destruct (angular_average RegularGridInterpolator fld coords bins weights
              average bin_ave false log_bins interpolation_method
              interp_points_generator return_sumweights);
    discriminate H.
Qed.

Lemma variance_unsupported_witness :
  angular_average rejecting_interpolator
    (Field [2%nat] (ComplexData [(1, 2); (3, 4)]))
    (CoordsMag (NDArray [2%nat] [1 / 2; 3 / 2])) (BinEdges [0; 1; 2]) (WScalar 1)
    true true true false None None false
  = match angular_average rejecting_interpolator
            (Field [2%nat] (ComplexData [(1, 2); (3, 4)]))
            (CoordsMag (NDArray [2%nat] [1 / 2; 3 / 2])) (BinEdges [0; 1; 2])
            (WScalar 1) true true false false None None false with
    | Ok _ => Raise NotImplementedError
    | Raise e => Raise e
    end /\
  forall out,
    angular_average rejecting_interpolator
      (Field [2%nat] (ComplexData [(1, 2); (3, 4)]))
      (CoordsMag (NDArray [2%nat] [1 / 2; 3 / 2])) (BinEdges [0; 1; 2]) (WScalar 1)
      true true true false None None false <> Ok out.
Proof.
  apply (variance_unsupported rejecting_interpolator
           (Field [2%nat] (ComplexData [(1, 2); (3, 4)]))
           (CoordsMag (NDArray [2%nat] [1 / 2; 3 / 2])) (BinEdges [0; 1; 2])
           (WScalar 1) true true false None None false).
  left. reflexivity.
Defined.

(** On that call the request is the only fault: the error raised is
    [NotImplementedError]. *)
Example variance_complex_field_example :
  angular_average rejecting_interpolator
    (Field [2%nat] (ComplexData [(1, 2); (3, 4)]))
    (CoordsMag (NDArray [2%nat] [1 / 2; 3 / 2])) (BinEdges [0; 1; 2]) (WScalar 1)
    true true true false None None false
  = Raise NotImplementedError.
Proof.
  unfold angular_average. cbn [unsupported_method].
  change (resolve_coords_grid _ _ None)
    with (Ok (NDArray [2%nat] [1 / 2; 3 / 2])).
  cbn [bind].
  rewrite (average_cells_shells (NDArray [2%nat] [1 / 2; 3 / 2]) (WScalar 1)
             (Field [2%nat] (ComplexData [(1, 2); (3, 4)]))
             (BinEdges [0; 1; 2]) [0; 1; 2]).
  - cbn [bind cells is_complex]. reflexivity.
  - reflexivity.
  - repeat constructor; lra.
  - discriminate.
  - split; [reflexivity|]. split; [reflexivity | exact I].
Qed.

(** ** Averaging over all axes *)

Lemma angular_average_default_generator
    (RegularGridInterpolator :
       list (list R) -> list nat -> list (option C) -> result interpolant)
    (fld : field) (coords : coords_arg) (bins : bins_arg) (weights : weights_arg)
    (average bin_ave get_variance log_bins : bool)
    (interpolation_method : option String.string) (return_sumweights : bool) :
  angular_average RegularGridInterpolator fld coords bins weights
    average bin_ave get_variance log_bins interpolation_method
    (Some regular_angular_generator) return_sumweights
  = angular_average RegularGridInterpolator fld coords bins weights
      average bin_ave get_variance log_bins interpolation_method
      None return_sumweights.
Proof. reflexivity. Qed.

(** C6: when the coordinates are given as one array per axis of the field
    and the number of axes to average is the dimensionality of the field
    (explicitly or by default), [angular_average_nd] returns exactly what
    [angular_average] returns for the same field, coordinates, bins,
    weights and flags: the same values, bin coordinates, variance and
    weights, or the same error. *)
Theorem nd_all_axes_is_angular_average
    (RegularGridInterpolator :
       list (list R) -> list nat -> list (option C) -> result interpolant)
    (fld : field) (coords : coords_arg) (bins : bins_arg) (n : option nat)
    (weights : weights_arg) (average bin_ave get_variance log_bins : bool)
    (interpolation_method : option String.string)
    (interp_points_generator : option generator) (return_sumweights : bool) :
  coords_len coords = Ok (length (field_shape fld)) ->
  n = None \/ n = Some (length (field_shape fld)) ->
  angular_average_nd RegularGridInterpolator fld coords bins n weights
    average bin_ave get_variance log_bins interpolation_method
    interp_points_generator return_sumweights
  = angular_average RegularGridInterpolator fld coords bins weights
      average bin_ave get_variance log_bins interpolation_method
      interp_points_generator return_sumweights.
Proof.
  intros Hlen Hn. unfold angular_average_nd. rewrite Hlen. cbn [bind].
  rewrite Nat.eqb_refl. cbn [negb].
  assert (Hfull : Nat.eqb (match n with
                           | Some n0 => n0
                           | None => length (field_shape fld)
                           end) (length (field_shape fld)) = true).
  { destruct Hn as [->| ->]; apply Nat.eqb_refl. }
  rewrite Hfull.
  destruct (unsupported_method interpolation_method) eqn:Hm.
  - unfold angular_average. rewrite Hm. reflexivity.
  - destruct interpolation_method as [m|]; [|reflexivity].
    destruct interp_points_generator as [g|]; [reflexivity|].
    apply angular_average_default_generator.
Qed.

Lemma nd_all_axes_is_angular_average_witness :
  angular_average_nd rejecting_interpolator
    (Field [2%nat; 2%nat] (RealData [1; 2; 3; 4]))
    (CoordsAxes [[0; 1]; [0; 1]]) (BinCount 2) None (WScalar 1)
    true true true false None None true
  = angular_average rejecting_interpolator
      (Field [2%nat; 2%nat] (RealData [1; 2; 3; 4]))
      (CoordsAxes [[0; 1]; [0; 1]]) (BinCount 2) (WScalar 1)
      true true true false None None true.
Proof.
  apply (nd_all_axes_is_angular_average rejecting_interpolator
           (Field [2%nat; 2%nat] (RealData [1; 2; 3; 4]))
           (CoordsAxes [[0; 1]; [0; 1]]) (BinCount 2) None (WScalar 1)
           true true true false None None true).
  - reflexivity.
  - left. reflexivity.
Defined.
(** ** The default number of bins of [get_power] *)

(** [int()] of a finite double truncates its value towards zero. *)
Lemma py_int_truncates (x : float) :
  is_finite_float x = true ->
  exists b, py_int x = Ok b /\
    (0 <= float_value x -> 0 <= IZR b <= float_value x /\ float_value x < IZR b + 1) /\
    (float_value x <= 0 -> float_value x <= IZR b <= 0 /\ IZR b - 1 < float_value x).
Proof.
  unfold is_finite_float, py_int, float_value.
  destruct (Prim2SF x) as [s| s | |s m e]; try discriminate; intros _.
  - exists 0%Z. split; [reflexivity|]. split; intros _; lra.
  - set (t := Z.shiftl (Z.pos m) e).
    set (v := if (0 <=? e)%Z then IZR (Z.pos m * 2 ^ e)
              else IZR (Z.pos m) / IZR (2 ^ (- e))).
    assert (Ht : 0 <= IZR t <= v /\ v < IZR t + 1).
    { unfold t, v. destruct (0 <=? e)%Z eqn:He.
      - apply Z.leb_le in He. rewrite Z.shiftl_mul_pow2 by exact He.
        assert (H0 : (0 <= Z.pos m * 2 ^ e)%Z)
          by (apply Z.mul_nonneg_nonneg; [lia | apply Z.pow_nonneg; lia]).
        apply IZR_le in H0. lra.
      - apply Z.leb_gt in He.
        set (d := (2 ^ (- e))%Z).
        assert (Hsh : Z.shiftl (Z.pos m) e = (Z.pos m / d)%Z).
        { replace e with (- (- e))%Z at 1 by lia.
          rewrite Z.shiftl_opp_r, Z.shiftr_div_pow2 by lia. reflexivity. }
        rewrite Hsh.
        assert (Hd : (0 < d)%Z) by (apply Z.pow_pos_nonneg; lia).
        pose proof (Z.mul_div_le (Z.pos m) d Hd) as H1.
        pose proof (Z.mul_succ_div_gt (Z.pos m) d Hd) as H2.
        assert (H3 : (0 <= Z.pos m / d)%Z) by (apply Z.div_pos; lia).
        apply IZR_le in H1, H3. apply IZR_lt in H2.
        rewrite mult_IZR in H1, H2. rewrite succ_IZR in H2.
        assert (HdR : 0 < IZR d) by (apply IZR_lt; exact Hd).
        split; [split; [exact H3|]|].
        + apply Rmult_le_reg_r with (r := IZR d); [exact HdR|].
          replace (IZR (Z.pos m) / IZR d * IZR d) with (IZR (Z.pos m))
            by (field; lra).
          lra.
        + apply Rmult_lt_reg_r with (r := IZR d); [exact HdR|].
          replace (IZR (Z.pos m) / IZR d * IZR d) with (IZR (Z.pos m))
            by (field; lra).
          lra. }
    destruct s.
    + exists (- t)%Z. split; [reflexivity|]. rewrite opp_IZR.
      split; intro H; lra.
    + exists t. split; [reflexivity|]. split; intro H; lra.
Qed.

(** C7, as the code has it: when no bin count is supplied the number of
    bins is [int(q)], where [q] is the double-precision value of the root
    of the product of the grid extents over the averaged axes (the power
    [1.0 / res_ndim] of their 64-bit product), divided by 2.2.  For a
    finite [q] this is its value truncated towards zero: the largest
    integer that does not exceed [q] when [q] is not negative.  It is not
    [q] rounded to the nearest integer. *)
Theorem default_bins_truncates (c_pow : float -> float -> float)
    (N : list nat) (dim : nat) (res_ndim : option nat) (r : nat) (q : float) :
  r = match res_ndim with None => dim | Some r0 => r0 end ->
  (1 <= r)%nat ->
  q = (c_pow (float_of_Z (int64 (Z.of_nat (prod (firstn r N)))))
         (1 / float_of_Z (Z.of_nat r)) / 0x1.199999999999ap+1)%float ->
  is_finite_float q = true ->
  exists b : Z,
    get_power_bins c_pow None N dim res_ndim = Ok (DefaultCount b) /\
    (0 <= float_value q -> 0 <= IZR b <= float_value q /\ float_value q < IZR b + 1) /\
    (float_value q <= 0 -> float_value q <= IZR b <= 0 /\ IZR b - 1 < float_value q).
Proof.
  intros Hr Hpos Hq Hfin.
  destruct (py_int_truncates _ Hfin) as (b & Hb & Htrunc).
  exists b. split; [|exact Htrunc].
  unfold get_power_bins, default_bins. rewrite <- Hr.
  destruct r; [lia|].
  change (default_bins_quotient c_pow N (S r))
    with (c_pow (float_of_Z (int64 (Z.of_nat (prod (firstn (S r) N)))))
            (1 / float_of_Z (Z.of_nat (S r))) / 0x1.199999999999ap+1)%float.
  rewrite <- Hq, Hb. reflexivity.
Qed.

Lemma default_bins_truncates_witness :
  exists b : Z,
    get_power_bins pow_exponent_one None [33%nat] 1 (Some 1%nat)
    = Ok (DefaultCount b) /\
    (0 <= float_value (33 / 0x1.199999999999ap+1)%float ->
     0 <= IZR b <= float_value (33 / 0x1.199999999999ap+1)%float /\
     float_value (33 / 0x1.199999999999ap+1)%float < IZR b + 1) /\
    (float_value (33 / 0x1.199999999999ap+1)%float <= 0 ->
     float_value (33 / 0x1.199999999999ap+1)%float <= IZR b <= 0 /\
     IZR b - 1 < float_value (33 / 0x1.199999999999ap+1)%float).
Proof.
  apply (default_bins_truncates pow_exponent_one [33%nat] 1 (Some 1%nat) 1
           (33 / 0x1.199999999999ap+1)%float).
  - reflexivity.
  - lia.
  - vm_compute. reflexivity.
  - vm_compute. reflexivity.
Defined.

Lemma quotient_of_ten :
  Prim2SF (10 / 0x1.199999999999ap+1)%float
  = S754_finite false 5117726849284654 (-50).
Proof. vm_compute. reflexivity. Qed.

Lemma quotient_of_thirty_three :
  Prim2SF (33 / 0x1.199999999999ap+1)%float
  = S754_finite false 8444249301319679 (-49).
Proof. vm_compute. reflexivity. Qed.

(** On a grid of 10 cells on one axis the quotient is the double nearest
    to 10 / 2.2, about 4.55: the code takes 4 bins, whereas rounding to
    the nearest integer gives 5. *)
Lemma default_bins_not_rounded :
  get_power_bins pow_exponent_one None [10%nat] 1 None = Ok (DefaultCount 4) /\
  4 + 1 / 2 < float_value (10 / 0x1.199999999999ap+1)%float < 5 /\
  np_round (float_value (10 / 0x1.199999999999ap+1)%float) = 5%Z.
Proof.
  assert (Hv : float_value (10 / 0x1.199999999999ap+1)%float
               = 5117726849284654 / 1125899906842624).
  { unfold float_value. rewrite quotient_of_ten. reflexivity. }
  split; [vm_compute; reflexivity|].
  rewrite Hv. split; [lra|].
  assert (Hi : Int_part (5117726849284654 / 1125899906842624) = 4%Z)
    by (symmetry; apply Int_part_spec; lra).
  unfold np_round, frac_part. rewrite Hi.
  destruct (Rlt_dec (5117726849284654 / 1125899906842624 - 4) (1 / 2)) as [H|_];
    [lra|].
  destruct (Rlt_dec (1 / 2) (5117726849284654 / 1125899906842624 - 4)) as [_|H];
    [reflexivity | lra].
Qed.

(** On a grid of 33 cells on one axis the exact quotient 33 / 2.2 is 15,
    but the double-precision quotient lies just below it: the code takes
    14 bins. *)
Example default_bins_below_exact_quotient :
  get_power_bins pow_exponent_one None [33%nat] 1 None = Ok (DefaultCount 14) /\
  float_value (33 / 0x1.199999999999ap+1)%float < 15 /\
  33 / (22 / 10) = 15.
Proof.
  split; [vm_compute; reflexivity|]. split; [|field].
  unfold float_value. rewrite quotient_of_thirty_three.
  change (if (0 <=? (-49))%Z then IZR (8444249301319679 * 2 ^ (-49))
          else IZR 8444249301319679 / IZR (2 ^ (- (-49))))
    with (8444249301319679 / 562949953421312).
  lra.
Qed.

(** * Further properties of the cell-binning averager *)

Lemma Rsum_map_INR (l : list nat) : Rsum (map INR l) = INR (list_sum l).
Proof.
  induction l as [|n l IH]; simpl; [reflexivity|].
  change (fold_right Rplus 0 (map INR l)) with (Rsum (map INR l)).
  rewrite IH, plus_INR. reflexivity.
Qed.

Lemma Rsum_app (l l' : list R) : Rsum (l ++ l') = Rsum l + Rsum l'.
Proof.
  induction l as [|x l IH]; simpl; [ring|].
  change (fold_right Rplus 0 (l ++ l')) with (Rsum (l ++ l')).
  change (fold_right Rplus 0 l) with (Rsum l).
  rewrite IH. ring.
Qed.

Lemma Rsum_map_add (f g : nat -> R) (l : list nat) :
  Rsum (map (fun b => f b + g b) l) = Rsum (map f l) + Rsum (map g l).
Proof.
  induction l as [|x l IH]; simpl; [ring|].
  change (fold_right Rplus 0 ?k) with (Rsum k) in *.
  unfold Rsum in *. rewrite IH. ring.
Qed.

(** With a scalar weight and [average] set, the weight reported for a bin
    is the number of its cells, and the reported weights add up to the
    number of cells that are in range. *)
Theorem uniform_weights_count_cells (coords : ndarray) (w : R) (bins : bins_arg)
    (edges : list R) (bin_ave log_bins : bool) :
  _getbins bins coords log_bins = Ok edges ->
  strictly_increasing edges -> edges <> [] ->
  exists indx centres sumweights,
    _get_binweights coords (WScalar w) bins true bin_ave log_bins
    = Ok (indx, centres, sumweights) /\
    (forall b, (b < nbins edges)%nat ->
       nth b sumweights 0 = INR (shell_count edges b (flatten coords))) /\
    Rsum sumweights
    = INR (length (flatten coords))
      - INR (length (filter (out_of_range edges) (flatten coords))).
Proof.
  intros Hgb Hs Hne.
  rewrite (get_binweights_shells coords (WScalar w) bins edges true bin_ave log_bins)
    by (assumption || exact I).
  do 3 eexists. split; [reflexivity|]. split.
  - intros b Hb. unfold shell_sumweights. rewrite nth_map_seq by exact Hb. reflexivity.
  - unfold shell_sumweights. cbn [shell_weight].
    rewrite <- (map_map (fun b => shell_count edges b (flatten coords)) INR).
    rewrite Rsum_map_INR.
    pose proof (shell_counts_partition edges (flatten coords) Hs Hne) as Hp.
    rewrite <- Hp, plus_INR. ring.
Qed.

Lemma uniform_weights_count_cells_witness :
  exists indx centres sumweights,
    _get_binweights (NDArray [4%nat] [0; 1; 2; 3]) (WScalar 1) (BinEdges [1; 2; 3])
      true true false
    = Ok (indx, centres, sumweights) /\
    (forall b, (b < nbins [1; 2; 3]%R)%nat ->
       nth b sumweights 0 = INR (shell_count [1; 2; 3] b [0; 1; 2; 3])) /\
    Rsum sumweights
    = INR (length [0; 1; 2; 3]%R)
      - INR (length (filter (out_of_range [1; 2; 3]) [0; 1; 2; 3])).
Proof.
  apply (uniform_weights_count_cells (NDArray [4%nat] [0; 1; 2; 3]) 1
           (BinEdges [1; 2; 3]) [1; 2; 3] true false).
  - reflexivity.
  - repeat constructor; lra.
  - discriminate.
Defined.

(** ** The raw sum conserves the weighted field *)

Lemma indicator_sum_R (k m : nat) (v : R) :
  Rsum (map (fun b => if Nat.eqb k (S b) then v else 0) (seq 0 m))
  = if (Nat.eqb k 0 || Nat.ltb m k) then 0 else v.
Proof.
  induction m as [|m IH].
  - simpl. destruct k; reflexivity.
  - rewrite seq_S, map_app, Rsum_app, IH. simpl.
    destruct k as [|k]; [simpl; ring|]. cbn [Nat.eqb orb].
    destruct (Nat.eqb k m) eqn:E.
    + apply Nat.eqb_eq in E. subst k.
      assert (Nat.ltb m (S m) = true) as -> by (apply Nat.ltb_lt; lia).
      assert (Nat.ltb (S m) (S m) = false) as -> by (apply Nat.ltb_ge; lia).
      ring.
    + apply Nat.eqb_neq in E.
      destruct (Nat.ltb m (S k)) eqn:E1.
      * apply Nat.ltb_lt in E1.
        assert (Nat.ltb (S m) (S k) = true) as -> by (apply Nat.ltb_lt; lia).
        ring.
      * apply Nat.ltb_ge in E1.
        assert (Nat.ltb (S m) (S k) = false) as -> by (apply Nat.ltb_ge; lia).
        ring.
Qed.

Lemma Rsum_zeros {A : Type} (l : list A) : Rsum (map (fun _ => 0) l) = 0.
Proof.
  induction l as [|x l IH]; simpl; [reflexivity|].
  change (fold_right Rplus 0 ?k) with (Rsum k). rewrite IH. ring.
Qed.

(** The shell totals of all bins add up to the total over the cells in
    range. *)
Lemma shell_totals_partition (edges coords vals : list R) :
  strictly_increasing edges -> edges <> [] ->
  Rsum (map (fun b => shell_total edges b coords vals) (seq 0 (nbins edges)))
  = in_range_total edges coords vals.
Proof.
  intros Hs Hne. unfold in_range_total.
  revert vals. induction coords as [|c cs IH]; intros vals.
  - rewrite (map_ext _ (fun _ => 0)) by reflexivity. apply Rsum_zeros.
  - destruct vals as [|v vs].
    + rewrite (map_ext _ (fun _ => 0)) by reflexivity. apply Rsum_zeros.
    + assert (Hstep :
        map (fun b => shell_total edges b (c :: cs) (v :: vs)) (seq 0 (nbins edges))
        = map (fun b => (if Nat.eqb (digitize1 c edges) (S b) then v else 0)
                        + shell_total edges b cs vs) (seq 0 (nbins edges))).
      { apply map_ext_in. intros b Hb. unfold shell_total. simpl.
        rewrite digitize1_in_bin by (assumption || apply in_seq_nbins, Hb).
        destruct (in_bin edges b c); simpl; ring. }
      rewrite Hstep, Rsum_map_add, indicator_sum_R, IH.
      cbn [combine filter fst]. rewrite digitize1_out_of_range by assumption.
      assert (Hk : (digitize1 c edges <= length edges)%nat) by apply digitize1_le.
      assert (Hlt : Nat.ltb (nbins edges) (digitize1 c edges)
                    = Nat.eqb (digitize1 c edges) (length edges)).
      { unfold nbins. destruct edges as [|e rest]; [congruence|]. simpl length in *.
        destruct (Nat.eqb (digitize1 c (e :: rest)) (S (length rest))) eqn:E.
        - apply Nat.eqb_eq in E. apply Nat.ltb_lt. lia.
        - apply Nat.eqb_neq in E. apply Nat.ltb_ge. lia. }
      rewrite Hlt.
      destruct (Nat.eqb (digitize1 c edges) 0
                || Nat.eqb (digitize1 c edges) (length edges)); simpl; ring.
Qed.

(** With [average] unset the values returned for the bins are raw sums:
    they add up to the total of the weighted field over the cells whose
    coordinate is in range, so no in-range cell is lost or counted twice. *)
Theorem raw_sums_conserve_field (coords : ndarray) (weights : weights_arg)
    (fld : field) (f : list R) (bins : bins_arg) (edges : list R)
    (bin_ave log_bins : bool) :
  cells fld = RealData f ->
  _getbins bins coords log_bins = Ok edges ->
  strictly_increasing edges -> edges <> [] ->
  well_shaped coords weights fld ->
  exists indx r centres sumweights,
    average_cells fld coords bins weights false bin_ave log_bins
    = Ok (indx, RealData r, centres, sumweights) /\
    Rsum r = in_range_total edges (flatten coords) (scale_by weights f).
Proof.
  intros Hf Hgb Hs Hne Hws.
  rewrite (average_cells_shells coords weights fld bins edges) by assumption.
  rewrite Hf. cbn [is_complex np_real].
  do 4 eexists. split; [reflexivity|].
  rewrite <- shell_totals_partition by assumption.
  unfold shell_means. f_equal. apply map_ext. intro b. field.
Qed.

Lemma raw_sums_conserve_field_witness :
  exists indx r centres sumweights,
    average_cells (Field [4%nat] (RealData [5; 7; 9; 11]))
      (NDArray [4%nat] [0; 1; 2; 3]) (BinEdges [1; 2; 3]) (WScalar 1)
      false true false
    = Ok (indx, RealData r, centres, sumweights) /\
    Rsum r = in_range_total [1; 2; 3] [0; 1; 2; 3] (scale_by (WScalar 1) [5; 7; 9; 11]).
Proof.
  apply (raw_sums_conserve_field (NDArray [4%nat] [0; 1; 2; 3]) (WScalar 1)
           (Field [4%nat] (RealData [5; 7; 9; 11])) [5; 7; 9; 11]
           (BinEdges [1; 2; 3]) [1; 2; 3] true false).
  - reflexivity.
  - reflexivity.
  - repeat constructor; lra.
  - discriminate.
  - split; [reflexivity|]. split; [reflexivity | exact I].
Defined.

(** ** Weighted means *)

Lemma shell_total_scale (edges : list R) (b : nat) (k : R) (coords vals : list R) :
  shell_total edges b coords (map (fun x => k * x) vals)
  = k * shell_total edges b coords vals.
Proof.
  unfold shell_total. revert vals.
  induction coords as [|c cs IH]; intros [|v vs]; simpl; try ring.
  destruct (in_bin edges b c); simpl; change (fold_right Rplus 0 ?l) with (Rsum l);
    rewrite IH; ring.
Qed.

Lemma map2_scale_l (k : R) (w v : list R) :
  map2 Rmult (map (fun x => k * x) w) v = map (fun x => k * x) (map2 Rmult w v).
Proof.
  revert v; induction w as [|a w IH]; intros [|x v]; simpl; auto.
  rewrite IH. f_equal. ring.
Qed.

Lemma map2_constant_r (c : R) (w f : list R) :
  Forall (fun x => x = c) f -> length w = length f ->
  map2 Rmult w f = map (fun x => c * x) w.
Proof.
  intros Hf. revert w. induction Hf as [|x f Hx _ IH]; intros [|a w] Hlen;
    simpl in *; try discriminate; [reflexivity|].
  rewrite IH by lia. subst x. f_equal. ring.
Qed.

Lemma shell_total_constant (edges : list R) (b : nat) (c : R) (coords f : list R) :
  Forall (fun x => x = c) f -> length f = length coords ->
  shell_total edges b coords f = c * INR (shell_count edges b coords).
Proof.
  intros Hf. unfold shell_total, shell_count. revert coords.
  induction Hf as [|x f Hx _ IH]; intros [|c0 cs] Hlen; simpl in *;
    try discriminate; [ring|].
  destruct (in_bin edges b c0).
  - cbn [map snd length]. rewrite Rsum_cons, IH by lia. subst x.
    rewrite S_INR. ring.
  - apply IH. lia.
Qed.

(** The reduction of a weighted constant field over a shell is the
    constant times the weight of the shell. *)
Lemma shell_total_weighted_constant (edges : list R) (b : nat) (c : R)
    (coords f : list R) (weights : weights_arg) :
  Forall (fun x => x = c) f -> length f = length coords ->
  match weights with
  | WScalar s => s = 1
  | WArray w => length (flatten w) = length coords
  end ->
  shell_total edges b coords (scale_by weights f)
  = c * shell_weight edges b coords weights.
Proof.
  intros Hf Hlen Hw. destruct weights as [s|w]; cbn [scale_by shell_weight].
  - subst s. rewrite Rsum_map_scale_1. apply shell_total_constant; assumption.
  - rewrite (map2_constant_r c) by (assumption || congruence).
    apply shell_total_scale.
Qed.

(** Averaging a field that takes one value [c] in every cell returns [c]
    for every bin whose summed weight is not zero (the weights being an
    array, or the scalar 1). *)
Theorem constant_field_average (coords : ndarray) (weights : weights_arg)
    (fld : field) (f : list R) (c : R) (bins : bins_arg) (edges : list R)
    (bin_ave log_bins : bool) :
  cells fld = RealData f -> Forall (fun x => x = c) f ->
  (forall s, weights = WScalar s -> s = 1) ->
  _getbins bins coords log_bins = Ok edges ->
  strictly_increasing edges -> edges <> [] ->
  well_shaped coords weights fld ->
  exists indx r centres sumweights,
    average_cells fld coords bins weights true bin_ave log_bins
    = Ok (indx, RealData r, centres, sumweights) /\
    forall b, (b < nbins edges)%nat ->
      shell_weight edges b (flatten coords) weights <> 0 ->
      nth b r 0 = c.
Proof.
  intros Hf Hc Hsc Hgb Hs Hne Hws.
  rewrite (average_cells_shells coords weights fld bins edges) by assumption.
  rewrite Hf. cbn [is_complex np_real].
  do 4 eexists. split; [reflexivity|].
  intros b Hb Hw. unfold shell_means. rewrite nth_map_seq by exact Hb.
  cbn [Nat.add].
  destruct Hws as (_ & Hlen & Hwa). unfold fdata_len in Hlen.
  rewrite Hf in Hlen. cbn [np_real] in Hlen.
  rewrite (shell_total_weighted_constant edges b c); try assumption.
  - field. exact Hw.
  - destruct weights as [s|w]; [apply Hsc; reflexivity | apply Hwa].
Qed.

Lemma constant_field_average_witness :
  exists indx r centres sumweights,
    average_cells (Field [3%nat] (RealData [7; 7; 7]))
      (NDArray [3%nat] [0; 1; 2]) (BinEdges [0; 1; 3])
      (WArray (NDArray [3%nat] [1; 2; 3])) true true false
    = Ok (indx, RealData r, centres, sumweights) /\
    forall b, (b < nbins [0; 1; 3]%R)%nat ->
      shell_weight [0; 1; 3] b [0; 1; 2] (WArray (NDArray [3%nat] [1; 2; 3])) <> 0 ->
      nth b r 0 = 7.
Proof.
  apply (constant_field_average (NDArray [3%nat] [0; 1; 2])
           (WArray (NDArray [3%nat] [1; 2; 3]))
           (Field [3%nat] (RealData [7; 7; 7])) [7; 7; 7] 7
           (BinEdges [0; 1; 3]) [0; 1; 3] true false).
  - reflexivity.
  - repeat constructor.
  - discriminate.
  - reflexivity.
  - repeat constructor; lra.
  - discriminate.
  - split; [reflexivity|]. split; [reflexivity|]. split; reflexivity.
Defined.

(** Multiplying every weight of a weight array by one factor [k <> 0]
    changes neither the averaged values nor the representative
    coordinates of the bins whose summed weight is not zero. *)
Theorem average_invariant_under_weight_scaling (coords w : ndarray) (k : R)
    (fld : field) (f : list R) (bins : bins_arg) (edges : list R)
    (log_bins : bool) :
  k <> 0 ->
  cells fld = RealData f ->
  _getbins bins coords log_bins = Ok edges ->
  strictly_increasing edges -> edges <> [] ->
  well_shaped coords (WArray w) fld ->
  exists indx r centres sumweights r' centres' sumweights',
    average_cells fld coords bins (WArray w) true true log_bins
    = Ok (indx, RealData r, centres, sumweights) /\
    average_cells fld coords bins
      (WArray (NDArray (shape w) (map (fun x => k * x) (flatten w))))
      true true log_bins
    = Ok (indx, RealData r', centres', sumweights') /\
    forall b, (b < nbins edges)%nat ->
      shell_weight edges b (flatten coords) (WArray w) <> 0 ->
      nth b r' 0 = nth b r 0 /\ nth b centres' 0 = nth b centres 0.
Proof.
  intros Hk Hf Hgb Hs Hne Hws.
  set (w' := NDArray (shape w) (map (fun x => k * x) (flatten w))).
  assert (Hws' : well_shaped coords (WArray w') fld).
  { destruct Hws as (H1 & H2 & H3 & H4). split; [exact H1|]. split; [exact H2|].
    split; [exact H3|]. unfold w'. cbn [flatten]. rewrite length_map. exact H4. }
  rewrite (average_cells_shells coords (WArray w) fld bins edges) by assumption.
  rewrite (average_cells_shells coords (WArray w') fld bins edges) by assumption.
  rewrite Hf. cbn [is_complex np_real].
  do 7 eexists. split; [reflexivity|]. split; [reflexivity|].
  intros b Hb Hw. unfold shell_means, shell_centres.
  rewrite !nth_map_seq by exact Hb. cbn [Nat.add scale_by shell_weight] in *.
  unfold w'. cbn [flatten].
  rewrite !map2_scale_l, !shell_total_scale.
  split; field; auto.
Qed.

Lemma average_invariant_under_weight_scaling_witness :
  exists indx r centres sumweights r' centres' sumweights',
    average_cells (Field [3%nat] (RealData [5; 6; 7]))
      (NDArray [3%nat] [0; 1; 2]) (BinEdges [0; 1; 3])
      (WArray (NDArray [3%nat] [1; 2; 3])) true true false
    = Ok (indx, RealData r, centres, sumweights) /\
    average_cells (Field [3%nat] (RealData [5; 6; 7]))
      (NDArray [3%nat] [0; 1; 2]) (BinEdges [0; 1; 3])
      (WArray (NDArray (shape (NDArray [3%nat] [1; 2; 3]))
                 (map (fun x => 4 * x) (flatten (NDArray [3%nat] [1; 2; 3])))))
      true true false
    = Ok (indx, RealData r', centres', sumweights') /\
    forall b, (b < nbins [0; 1; 3]%R)%nat ->
      shell_weight [0; 1; 3] b (flatten (NDArray [3%nat] [0; 1; 2]))
        (WArray (NDArray [3%nat] [1; 2; 3])) <> 0 ->
      nth b r' 0 = nth b r 0 /\ nth b centres' 0 = nth b centres 0.
Proof.
  apply (average_invariant_under_weight_scaling (NDArray [3%nat] [0; 1; 2])
           (NDArray [3%nat] [1; 2; 3]) 4
           (Field [3%nat] (RealData [5; 6; 7])) [5; 6; 7]
           (BinEdges [0; 1; 3]) [0; 1; 3] false).
  - lra.
  - reflexivity.
  - reflexivity.
  - repeat constructor; lra.
  - discriminate.
  - split; [reflexivity|]. split; [reflexivity|]. split; reflexivity.
Defined.

(** ** The representative coordinate of a bin *)

Lemma in_bin_bounds (edges : list R) (b : nat) (c : R) :
  in_bin edges b c = true -> nth b edges 0 <= c < nth (S b) edges 0.
Proof.
  unfold in_bin. intro H. apply andb_true_iff in H as [H1 H2].
  apply Rleb_true in H1. apply Rltb_true in H2. lra.
Qed.

Lemma shell_weighted_coordinate_bounds (edges : list R) (b : nat)
    (coords w : list R) :
  Forall (fun x => 0 <= x) w -> length w = length coords ->
  0 <= shell_total edges b coords w /\
  nth b edges 0 * shell_total edges b coords w
  <= shell_total edges b coords (map2 Rmult w coords) /\
  shell_total edges b coords (map2 Rmult w coords)
  <= nth (S b) edges 0 * shell_total edges b coords w /\
  (0 < shell_total edges b coords w ->
   shell_total edges b coords (map2 Rmult w coords)
   < nth (S b) edges 0 * shell_total edges b coords w).
Proof.
  intros Hw. unfold shell_total. revert coords.
  induction Hw as [|a w Ha _ IH]; intros [|c cs] Hlen; simpl in *;
    try discriminate.
  - repeat split; try lra.
  - specialize (IH cs ltac:(lia)). destruct IH as (IH0 & IHlo & IHhi & IHstrict).
    destruct (in_bin edges b c) eqn:Hin.
    + apply in_bin_bounds in Hin. destruct Hin as [Hlo Hhi].
      cbn [map snd]. rewrite !Rsum_cons.
      set (W := Rsum (map snd (filter (fun cv => in_bin edges b (fst cv))
                                 (combine cs w)))) in *.
      set (T := Rsum (map snd (filter (fun cv => in_bin edges b (fst cv))
                                 (combine cs (map2 Rmult w cs))))) in *.
      assert (H1 : nth b edges 0 * a <= a * c) by nra.
      assert (H2 : a * c <= nth (S b) edges 0 * a) by nra.
      repeat split; try lra.
      intro Hpos.
      destruct (Rle_lt_or_eq_dec 0 a Ha) as [Hapos|Ha0].
      * assert (a * c < nth (S b) edges 0 * a) by nra. lra.
      * subst a. assert (0 < W) by lra. specialize (IHstrict H). lra.
    + repeat split; assumption.
Qed.

Lemma shell_unit_coordinate_bounds (edges : list R) (b : nat) (coords : list R) :
  nth b edges 0 * INR (shell_count edges b coords)
  <= shell_total edges b coords (map (fun c => 1 * c) coords)
  <= nth (S b) edges 0 * INR (shell_count edges b coords) /\
  (0 < INR (shell_count edges b coords) ->
   shell_total edges b coords (map (fun c => 1 * c) coords)
   < nth (S b) edges 0 * INR (shell_count edges b coords)).
Proof.
  unfold shell_total, shell_count.
  induction coords as [|c cs IH]; simpl; [split; lra|].
  destruct IH as [[IHlo IHup] IHhi].
  destruct (in_bin edges b c) eqn:Hin.
  - apply in_bin_bounds in Hin. destruct Hin as [Hlo Hhi].
    cbn [map snd length]. rewrite Rsum_cons, S_INR.
    set (n := INR (length (filter (in_bin edges b) cs))) in *.
    split; [split; lra|]. intros _. lra.
  - split; [split|]; assumption.
Qed.

(** With weights that are not negative (an array of such weights, or the
    scalar 1), the representative coordinate reported for a bin of
    positive summed weight lies inside the bin: at or above its lower edge
    and below its upper edge. *)
Theorem bin_centre_within_bin (coords : ndarray) (weights : weights_arg)
    (bins : bins_arg) (edges : list R) (average log_bins : bool) :
  _getbins bins coords log_bins = Ok edges ->
  strictly_increasing edges -> edges <> [] ->
  match weights with
  | WScalar s => s = 1
  | WArray w =>
      shape w = shape coords /\ length (flatten w) = length (flatten coords) /\
      Forall (fun x => 0 <= x) (flatten w)
  end ->
  exists indx centres sumweights,
    _get_binweights coords weights bins average true log_bins
    = Ok (indx, centres, sumweights) /\
    forall b, (b < nbins edges)%nat ->
      0 < shell_weight edges b (flatten coords) weights ->
      nth b edges 0 <= nth b centres 0 < nth (S b) edges 0.
Proof.
  intros Hgb Hs Hne Hw.
  rewrite (get_binweights_shells coords weights bins edges average true log_bins);
    try assumption.
  2:{ destruct weights as [s|w]; [exact I|]. split; apply Hw. }
  do 3 eexists. split; [reflexivity|].
  intros b Hb Hpos. unfold shell_centres. rewrite nth_map_seq by exact Hb.
  cbn [Nat.add].
  assert (Hbounds :
    nth b edges 0 * shell_weight edges b (flatten coords) weights
    <= shell_total edges b (flatten coords) (scale_by weights (flatten coords))
    < nth (S b) edges 0 * shell_weight edges b (flatten coords) weights).
  { destruct weights as [s|w]; cbn [shell_weight scale_by] in *.
    - subst s.
      destruct (shell_unit_coordinate_bounds edges b (flatten coords))
        as [[Hlo _] Hhi].
      split; [exact Hlo | exact (Hhi Hpos)].
    - destruct Hw as (_ & Hlen & Hnn).
      destruct (shell_weighted_coordinate_bounds edges b (flatten coords)
                  (flatten w) Hnn Hlen) as (_ & Hlo & _ & Hhi).
      split; [exact Hlo | exact (Hhi Hpos)]. }
  set (W := shell_weight edges b (flatten coords) weights) in *.
  set (T := shell_total edges b (flatten coords)
              (scale_by weights (flatten coords))) in *.
  split.
  - apply Rmult_le_reg_r with (r := W); [exact Hpos|].
    replace (T / W * W) with T by (field; lra). lra.
  - apply Rmult_lt_reg_r with (r := W); [exact Hpos|].
    replace (T / W * W) with T by (field; lra). lra.
Qed.

Lemma bin_centre_within_bin_witness :
  exists indx centres sumweights,
    _get_binweights (NDArray [4%nat] [0; 1 / 2; 1; 2]) (WScalar 1)
      (BinEdges [0; 1; 3]) true true false
    = Ok (indx, centres, sumweights) /\
    forall b, (b < nbins [0; 1; 3]%R)%nat ->
      0 < shell_weight [0; 1; 3] b (flatten (NDArray [4%nat] [0; 1 / 2; 1; 2]))
            (WScalar 1) ->
      nth b [0; 1; 3] 0 <= nth b centres 0 < nth (S b) [0; 1; 3] 0.
Proof.
  apply (bin_centre_within_bin (NDArray [4%nat] [0; 1 / 2; 1; 2]) (WScalar 1)
           (BinEdges [0; 1; 3]) [0; 1; 3] true false).
  - reflexivity.
  - repeat constructor; lra.
  - discriminate.
  - reflexivity.
Defined.

(** ** The variance estimator under a uniform weight array *)






(** ** Further properties of the bin-edge resolver *)

Lemma amax_axis_error (a : ndarray) (i : nat) (e : error) :
  amax_axis a i = Raise e -> e = ValueError.
Proof.
  unfold amax_axis. destruct (nth i (shape a) O); intro H; inversion H; reflexivity.
Qed.

Lemma max_radius_error (a : ndarray) (e : error) :
  max_radius a = Raise e -> e = ValueError.
Proof.
  unfold max_radius.
  destruct (mapM (amax_axis a) (seq 0 (ndim a))) as [maxs|e'] eqn:E; cbn [bind].
  - apply np_min_error.
  - intro H; inversion H; subst.
    apply (mapM_error (amax_axis a) _ ValueError e (amax_axis_error a) E).
Qed.

Lemma Forall2_In_left {A B : Type} (P : A -> B -> Prop) (l : list A) (l' : list B)
    (x : A) :
  Forall2 P l l' -> In x l -> exists y, P x y.
Proof.
  induction 1 as [|a b l l' Hab _ IH]; intros Hin; [destruct Hin|].
  destruct Hin as [<-|Hin]; [exists b; exact Hab | apply IH; exact Hin].
Qed.

(** On a grid without axes, or with an axis of extent zero, the resolver
    raises [ValueError] whatever the bins are: explicit edges are not
    passed through. *)
Theorem getbins_empty_grid (coords : ndarray) (bins : bins_arg) (log : bool) :
  shape coords = [] \/ In O (shape coords) ->
  _getbins bins coords log = Raise ValueError.
Proof.
  intro H. unfold _getbins.
  destruct (max_radius coords) as [mx|e] eqn:E; cbn [bind].
  - exfalso. unfold max_radius in E.
    destruct (mapM (amax_axis coords) (seq 0 (ndim coords))) as [maxs|e'] eqn:Em;
      cbn [bind] in E; [|discriminate].
    destruct H as [H|H].
    + unfold ndim in Em. rewrite H in Em. simpl in Em.
      inversion Em; subst. discriminate.
    + apply In_nth with (d := O) in H as [i [Hi Hn]].
      pose proof (mapM_inv _ _ _ Em) as Hf.
      assert (Hin : In i (seq 0 (ndim coords))) by (apply in_seq; unfold ndim; lia).
      destruct (Forall2_In_left _ _ _ i Hf Hin) as [y Hy].
      unfold amax_axis in Hy. rewrite Hn in Hy. discriminate.
  - f_equal. apply (max_radius_error coords). exact E.
Qed.

Lemma getbins_empty_grid_witness :
  _getbins (BinEdges [0; 1; 2]) (NDArray [3%nat; 0%nat] []) false = Raise ValueError.
Proof.
  apply (getbins_empty_grid (NDArray [3%nat; 0%nat] []) (BinEdges [0; 1; 2]) false).
  right. simpl. auto.
Defined.

Lemma strictly_increasing_from_nth (l : list R) :
  (forall i j, (i < j)%nat -> (j < length l)%nat -> nth i l 0 < nth j l 0) ->
  strictly_increasing l.
Proof.
  unfold strictly_increasing.
  induction l as [|x l IH]; intro H; constructor.
  - apply IH. intros i j Hij Hj.
    apply (H (S i) (S j)); simpl; lia.
  - apply Forall_forall. intros y Hy.
    apply In_nth with (d := 0) in Hy as [k [Hk <-]].
    apply (H 0%nat (S k)); simpl; lia.
Qed.

Lemma last_nth (l : list R) : last l 0 = nth (length l - 1) l 0.
Proof.
  induction l as [|x l IH]; [reflexivity|].
  destruct l as [|y l']; [reflexivity|].
  change (last (x :: y :: l') 0) with (last (y :: l') 0). rewrite IH.
  simpl. rewrite Nat.sub_0_r. reflexivity.
Qed.

(** The edges of [np.linspace] between [a < b] are strictly increasing. *)
Lemma linspace_increasing (a b : R) (c : nat) :
  a < b -> strictly_increasing (linspace a b (c + 1)).
Proof.
  intro Hab. apply strictly_increasing_from_nth.
  intros i j Hij Hj. rewrite linspace_length in Hj.
  rewrite !linspace_nth by lia.
  assert (Hc : 0 < INR c) by (apply lt_0_INR; lia).
  assert (Hstep : 0 < (b - a) / INR c).
  { apply Rmult_lt_0_compat; [lra | apply Rinv_0_lt_compat; exact Hc]. }
  assert (Hlt : INR i < INR j) by (apply lt_INR; exact Hij).
  nra.
Qed.

(** When a bin count [c >= 1] is given in linear mode and the minimum of
    the grid is below the smallest per-axis maximum [mx], the edges are
    strictly increasing, start at the minimum and end at [mx]; hence the
    cells that fall out of range are exactly those at or beyond [mx] (on a
    square or cubic grid, the corners outside the inscribed sphere). *)
Theorem counted_linear_bins_drop_beyond_max_radius (coords : ndarray) (c : nat)
    (mn mx : R) :
  np_min (flatten coords) = Ok mn -> max_radius coords = Ok mx ->
  mn < mx -> (1 <= c)%nat ->
  exists edges,
    _getbins (BinCount c) coords false = Ok edges /\
    strictly_increasing edges /\
    hd 0 edges = mn /\ last edges 0 = mx /\
    forall x, In x (flatten coords) -> out_of_range edges x = Rleb mx x.
Proof.
  intros Hmn Hmx Hlt Hc.
  exists (linspace mn mx (c + 1)).
  assert (Hhd : hd 0 (linspace mn mx (c + 1)) = mn).
  { pose proof (linspace_nth mn mx c 0 ltac:(lia)) as H0.
    pose proof (linspace_length mn mx c) as Hl.
    destruct (linspace mn mx (c + 1)) as [|e t]; [simpl in Hl; lia|].
    simpl in *. rewrite H0. ring. }
  assert (Hlast : last (linspace mn mx (c + 1)) 0 = mx).
  { rewrite last_nth, linspace_length.
    replace (c + 1 - 1)%nat with c by lia.
    rewrite linspace_nth by lia. field. apply not_0_INR. lia. }
  split; [unfold _getbins; rewrite Hmx; cbn [bind negb]; rewrite Hmn; reflexivity|].
  split; [apply linspace_increasing; exact Hlt|].
  split; [exact Hhd|]. split; [exact Hlast|].
  intros x Hx. unfold out_of_range. rewrite Hhd, Hlast.
  destruct (np_min_spec _ _ Hmn) as [_ Hle].
  assert (Rltb x mn = false) as -> by (apply Rltb_false, Hle, Hx).
  reflexivity.
Qed.

Lemma counted_linear_bins_drop_beyond_max_radius_witness :
  exists edges,
    _getbins (BinCount 2) (NDArray [2%nat] [0; 1]) false = Ok edges /\
    strictly_increasing edges /\
    hd 0 edges = 0 /\ last edges 0 = Rmax 0 1 /\
    forall x, In x (flatten (NDArray [2%nat] [0; 1])) ->
      out_of_range edges x = Rleb (Rmax 0 1) x.
Proof.
  apply (counted_linear_bins_drop_beyond_max_radius (NDArray [2%nat] [0; 1]) 2
           0 (Rmax 0 1)).
  - simpl. f_equal. apply Rmin_left. lra.
  - reflexivity.
  - rewrite Rmax_right; lra.
  - lia.
Defined.

(** ** The grid of radial magnitudes *)

Lemma flat_map_map {A B D : Type} (f : A -> B) (g : B -> list D) (l : list A) :
  flat_map g (map f l) = flat_map (fun x => g (f x)) l.
Proof. induction l as [|a l IH]; simpl; [reflexivity | rewrite IH; reflexivity]. Qed.

Lemma map_flat_map {A B D : Type} (f : B -> D) (g : A -> list B) (l : list A) :
  map f (flat_map g l) = flat_map (fun x => map f (g x)) l.
Proof.
  induction l as [|a l IH]; simpl; [reflexivity|].
  rewrite map_app, IH. reflexivity.
Qed.

(** Applying a function to every axis commutes with forming the grid. *)
Lemma meshgrid_ij_map (f : R -> R) (axes : list (list R)) :
  meshgrid_ij (map (map f) axes) = map (map f) (meshgrid_ij axes).
Proof.
  induction axes as [|a rest IH]; [reflexivity|].
  cbn [map meshgrid_ij]. rewrite flat_map_map, map_flat_map, IH.
  apply flat_map_ext. intro x. rewrite !map_map. reflexivity.
Qed.

Lemma length_flat_map_const {A B : Type} (g : A -> list B) (l : list A) (n : nat) :
  (forall x, length (g x) = n) -> length (flat_map g l) = (length l * n)%nat.
Proof.
  intro H. induction l as [|a l IH]; simpl; [reflexivity|].
  rewrite length_app, H, IH. reflexivity.
Qed.

Lemma length_meshgrid_ij (axes : list (list R)) :
  length (meshgrid_ij axes) = prod (map (@length R) axes).
Proof.
  induction axes as [|a rest IH]; [reflexivity|].
  cbn [meshgrid_ij map prod fold_right].
  rewrite (length_flat_map_const _ _ (length (meshgrid_ij rest)))
    by (intro x; apply length_map).
  rewrite IH. reflexivity.
Qed.

Lemma meshgrid_ij_tuples (axes : list (list R)) (p : list R) :
  In p (meshgrid_ij axes) -> Forall2 (fun x a => In x a) p axes.
Proof.
  revert p; induction axes as [|a rest IH]; intros p Hp.
  - destruct Hp as [<-|[]]. constructor.
  - cbn [meshgrid_ij] in Hp. apply in_flat_map in Hp as [x [Hx Hp]].
    apply in_map_iff in Hp as [q [<- Hq]].
    constructor; [exact Hx | apply IH; exact Hq].
Qed.

(** The magnitude grid built from per-axis coordinates has one extent per
    axis and one cell per coordinate tuple, in row-major order; the cell
    of a tuple is its Euclidean norm, which is never negative. *)
Theorem magnitude_grid_norms (x : list (list R)) :
  shape (_magnitude_grid x) = map (@length R) x /\
  length (flatten (_magnitude_grid x)) = prod (shape (_magnitude_grid x)) /\
  flatten (_magnitude_grid x) = map norm (meshgrid_ij x) /\
  Forall (fun c => 0 <= c) (flatten (_magnitude_grid x)) /\
  forall p, In p (meshgrid_ij x) -> Forall2 (fun c axis => In c axis) p x.
Proof.
  unfold _magnitude_grid. cbn [shape flatten].
  split; [reflexivity|]. split.
  - rewrite length_map, length_meshgrid_ij, map_map.
    f_equal. apply map_ext. intro a. apply length_map.
  - split.
    + rewrite meshgrid_ij_map, map_map. reflexivity.
    + split.
      * apply Forall_forall. intros c Hc.
        apply in_map_iff in Hc as [p [<- _]]. apply sqrt_pos.
      * apply meshgrid_ij_tuples.
Qed.

(** * Further properties of the spherical sampler *)

Lemma general_branch_nth (r : R) (phi : list R) :
  forall (acc : R) (k : nat), (k <= length phi)%nat ->
    nth k (map2 (fun s c => s * c * r)
             (acc :: cumprod_from acc (map sin phi))
             (map cos phi ++ [1])) 0
    = r * (acc * Rprod (map sin (firstn k phi)))
      * (if (k <? length phi)%nat then cos (nth k phi 0) else 1).
Proof.
  induction phi as [|p t IH]; intros acc k Hk.
  - simpl in Hk. replace k with O by lia. simpl. ring.
  - change (map sin (p :: t)) with (sin p :: map sin t).
    change (map cos (p :: t) ++ [1]) with (cos p :: (map cos t ++ [1])).
    change (cumprod_from acc (sin p :: map sin t))
      with ((acc * sin p) :: cumprod_from (acc * sin p) (map sin t)).
    rewrite map2_cons.
    destruct k as [|k].
    + simpl. ring.
    + cbn [nth]. rewrite IH by (simpl in Hk; lia).
      cbn [firstn map Rprod fold_right length].
      change (S k <? S (length t))%nat with (k <? length t)%nat.
      change (fold_right Rmult 1 ?l) with (Rprod l).
      ring.
Qed.

Lemma length_cumprod_from (l : list R) :
  forall acc : R, length (cumprod_from acc l) = length l.
Proof.
  induction l as [|x l IHl]; intro acc; simpl; [reflexivity|].
  rewrite IHl. reflexivity.
Qed.

(** The cumulative-product construction, on any tuple of angles. *)
Lemma general_branch_spec (r : R) (phi0 : list R) :
  let phi_n := (2 * PI * 1) :: phi0 in
  let pt := map2 (fun s c => s * c * r) (cumprod (1 :: tl (map sin phi_n)))
              (roll_m1 (map cos phi_n)) in
  length pt = S (length phi0) /\
  forall k, (k <= length phi0)%nat ->
    nth k pt 0
    = r * Rprod (map sin (firstn k phi0))
      * (if (k <? length phi0)%nat then cos (nth k phi0 0) else 1).
Proof.
  intros phi_n pt. unfold pt, phi_n.
  change (tl (map sin (2 * PI * 1 :: phi0))) with (map sin phi0).
  change (roll_m1 (map cos (2 * PI * 1 :: phi0)))
    with (map cos phi0 ++ [cos (2 * PI * 1)]).
  rewrite Rmult_1_r, cos_2PI. unfold cumprod.
  change (cumprod_from 1 (1 :: map sin phi0))
    with ((1 * 1) :: cumprod_from (1 * 1) (map sin phi0)).
  rewrite Rmult_1_r. split.
  - rewrite map2_length. cbn [length].
    rewrite length_app, length_map. cbn [length].
    rewrite length_cumprod_from, length_map. lia.
  - intros k Hk. rewrite general_branch_nth by exact Hk. ring.
Qed.

Lemma length_spherical2cartesian_point (r : R) (phi : list R) :
  length (spherical2cartesian_point r phi) = S (length phi).
Proof.
  destruct phi as [|p0 [|p1 [|p2 t]]].
  - exact (proj1 (general_branch_spec r [])).
  - reflexivity.
  - reflexivity.
  - exact (proj1 (general_branch_spec r (p0 :: p1 :: p2 :: t))).
Qed.

(** In every dimension the transform is the n-sphere parametrisation:
    the point has one coordinate more than there are angles, coordinate
    [k] is the radius times the sines of the first [k] angles times the
    cosine of angle [k], and the last coordinate is the radius times the
    sines of all the angles.  The closed forms for two and three
    dimensions and the cumulative-product construction agree on this. *)
Theorem spherical2cartesian_coordinates (r : R) (phi : list R) :
  length (spherical2cartesian_point r phi) = S (length phi) /\
  forall k, (k <= length phi)%nat ->
    nth k (spherical2cartesian_point r phi) 0
    = r * Rprod (map sin (firstn k phi))
      * (if (k <? length phi)%nat then cos (nth k phi 0) else 1).
Proof.
  split; [apply length_spherical2cartesian_point|].
  destruct phi as [|p0 [|p1 [|p2 t]]].
  - exact (proj2 (general_branch_spec r [])).
  - intros k Hk. simpl in Hk.
    destruct k as [|[|k]]; try lia; simpl; ring.
  - intros k Hk. simpl in Hk.
    destruct k as [|[|[|k]]]; try lia; simpl; ring.
  - exact (proj2 (general_branch_spec r (p0 :: p1 :: p2 :: t))).
Qed.

(** ** The regular angular generator *)

Lemma length_flat_map_sum {A B : Type} (g : A -> list B) (l : list A) :
  length (flat_map g l) = list_sum (map (fun x => length (g x)) l).
Proof.
  induction l as [|a l IH]; simpl; [reflexivity|].
  rewrite length_app, IH. reflexivity.
Qed.

Lemma length_meshgrid_xy (axes : list (list R)) :
  length (meshgrid_xy axes) = prod (map (@length R) axes).
Proof.
  destruct axes as [|a1 [|a2 rest]]; try apply length_meshgrid_ij.
  cbn [meshgrid_xy map prod fold_right].
  rewrite (length_flat_map_const _ _ (length a1 * length (meshgrid_ij rest))).
  - rewrite length_meshgrid_ij. unfold prod. lia.
  - intro y. apply length_flat_map_const. intro x. apply length_map.
Qed.

Lemma meshgrid_ij_tuple_length (axes : list (list R)) (p : list R) :
  In p (meshgrid_ij axes) -> length p = length axes.
Proof.
  intro H. apply meshgrid_ij_tuples in H. apply (Forall2_length H).
Qed.

Lemma meshgrid_xy_tuple_length (axes : list (list R)) (p : list R) :
  In p (meshgrid_xy axes) -> length p = length axes.
Proof.
  destruct axes as [|a1 [|a2 rest]]; try apply meshgrid_ij_tuple_length.
  cbn [meshgrid_xy]. intro H.
  apply in_flat_map in H as [y [_ H]]. apply in_flat_map in H as [x [_ H]].
  apply in_map_iff in H as [t [<- Ht]].
  apply meshgrid_ij_tuple_length in Ht. simpl. rewrite Ht. reflexivity.
Qed.

Lemma prod_repeat (n k : nat) : prod (repeat n k) = (n ^ k)%nat.
Proof.
  unfold prod. induction k as [|k IH]; simpl; [reflexivity|].
  rewrite IH. reflexivity.
Qed.

Lemma linspace_length_any (a b : R) (n : nat) : length (linspace a b n) = n.
Proof.
  destruct n as [|c]; [reflexivity|].
  replace (S c) with (c + 1)%nat by lia. apply linspace_length.
Qed.

Lemma num_angular_bins_floor (res r : R) : (100 <= num_angular_bins res r)%nat.
Proof. unfold num_angular_bins. lia. Qed.

Lemma regular_generator_grid_size (angular_resolution r : R) (dims2avg : nat) :
  (1 <= dims2avg)%nat ->
  length (meshgrid_xy
            (linspace 0 (2 * PI) (num_angular_bins angular_resolution r)
             :: repeat (linspace 0 PI (num_angular_bins angular_resolution r))
                  (dims2avg - 1)))
  = (num_angular_bins angular_resolution r ^ dims2avg)%nat.
Proof.
  intro Hd. rewrite length_meshgrid_xy. cbn [map].
  rewrite map_repeat, !linspace_length_any.
  unfold prod at 1. cbn [fold_right].
  change (fold_right Nat.mul 1%nat ?l) with (prod l).
  rewrite prod_repeat.
  replace dims2avg with (S (dims2avg - 1)) at 2 by lia. reflexivity.
Qed.

Lemma count_occ_flat_map_repeat (f : R -> nat) (bins : list R) (x : R) :
  count_occ Req_dec_T (flat_map (fun r => repeat r (f r)) bins) x
  = (count_occ Req_dec_T bins x * f x)%nat.
Proof.
  induction bins as [|r bins IH]; [reflexivity|].
  cbn [flat_map]. rewrite count_occ_app, IH. cbn [count_occ].
  destruct (Req_dec_T r x) as [E|E].
  - subst r. rewrite count_occ_repeat_eq by reflexivity. lia.
  - rewrite count_occ_repeat_neq by (intro E'; apply E; symmetry; exact E'). lia.
Qed.

(** [np.round] returns an integer nearest to its argument. *)
Lemma np_round_nearest (x : R) : Rabs (IZR (np_round x) - x) <= 1 / 2.
Proof.
  unfold np_round, frac_part.
  destruct (base_Int_part x) as [Hle Hlt].
  destruct (Rlt_dec (x - IZR (Int_part x)) (1 / 2)) as [H1|H1].
  - apply Rabs_le. lra.
  - destruct (Rlt_dec (1 / 2) (x - IZR (Int_part x))) as [H2|H2].
    + rewrite plus_IZR. apply Rabs_le. lra.
    + destruct (Z.even (Int_part x)).
      * apply Rabs_le. lra.
      * rewrite plus_IZR. apply Rabs_le. lra.
Qed.

(** What the regular generator returns for at least one radius and one
    angle per point. *)
Lemma regular_generator_facts (angular_resolution : R) (bins : list R)
    (dims2avg : nat) :
  bins <> [] -> (1 <= dims2avg)%nat ->
  exists r_n phi_n,
    regular_angular_generator_res angular_resolution bins dims2avg
    = Ok (r_n, phi_n) /\
    length r_n = length phi_n /\
    Forall (fun phi => length phi = dims2avg) phi_n /\
    Forall (fun r => In r bins) r_n /\
    forall r, count_occ Req_dec_T r_n r
              = (count_occ Req_dec_T bins r
                 * num_angular_bins angular_resolution r ^ dims2avg)%nat.
Proof.
  intros Hb Hd. unfold regular_angular_generator_res.
  destruct bins as [|b0 bins']; [congruence|].
  destruct dims2avg as [|d']; [lia|].
  set (bins := b0 :: bins'). set (d := S d').
  eexists. eexists. split; [reflexivity|].
  split; [|split; [|split]].
  - rewrite !length_flat_map_sum. f_equal. apply map_ext. intro r.
    rewrite repeat_length. symmetry.
    apply regular_generator_grid_size. unfold d. lia.
  - apply Forall_forall. intros phi Hphi.
    apply in_flat_map in Hphi as [r [_ Hphi]].
    apply meshgrid_xy_tuple_length in Hphi. rewrite Hphi.
    cbn [length]. rewrite repeat_length. unfold d. lia.
  - apply Forall_forall. intros r Hr.
    apply in_flat_map in Hr as [r0 [Hr0 Hr]].
    apply repeat_spec in Hr. subst r. exact Hr0.
  - intro r.
    exact (count_occ_flat_map_repeat
             (fun r => (num_angular_bins angular_resolution r ^ d)%nat) bins r).
Qed.

Lemma regular_generator_raises (angular_resolution : R) (bins : list R)
    (dims2avg : nat) :
  bins = [] \/ dims2avg = O ->
  regular_angular_generator_res angular_resolution bins dims2avg = Raise ValueError.
Proof.
  intros [-> | ->]; unfold regular_angular_generator_res.
  - reflexivity.
  - destruct bins; reflexivity.
Qed.

(** For a resolution that is not zero, at least one radius and at least
    one angle per point, the regular generator returns as many radii as
    angle columns; every column has [dims2avg] angles; every radius [r] of
    [bins] is returned [n ^ dims2avg] times for each of its occurrences in
    [bins], and no other radius is returned; the number [n] of angular
    bins of [r] is the larger of 100 and an integer nearest to
    [2 * PI * r / angular_resolution].  Without a radius or without an
    angle the generator raises [ValueError]. *)
Theorem regular_generator_samples (angular_resolution : R) (bins : list R)
    (dims2avg : nat) :
  angular_resolution <> 0 -> bins <> [] -> (1 <= dims2avg)%nat ->
  (exists r_n phi_n,
     regular_angular_generator_res angular_resolution bins dims2avg
     = Ok (r_n, phi_n) /\
     length r_n = length phi_n /\
     Forall (fun phi => length phi = dims2avg) phi_n /\
     forall r,
       exists (z : Z) (n : nat),
         Rabs (IZR z - 2 * PI * r / angular_resolution) <= 1 / 2 /\
         Z.of_nat n = Z.max z 100 /\
         count_occ Req_dec_T r_n r
         = (count_occ Req_dec_T bins r * n ^ dims2avg)%nat) /\
  regular_angular_generator_res angular_resolution [] dims2avg = Raise ValueError /\
  regular_angular_generator_res angular_resolution bins 0%nat = Raise ValueError.
Proof.
  intros _ Hb Hd. split; [|split].
  - destruct (regular_generator_facts angular_resolution bins dims2avg Hb Hd)
      as (r_n & phi_n & Hgen & Hlen & Hcol & _ & Hcount).
    exists r_n, phi_n. split; [exact Hgen|]. split; [exact Hlen|].
    split; [exact Hcol|].
    intro r.
    exists (np_round (2 * PI * r / angular_resolution)),
           (num_angular_bins angular_resolution r).
    split; [apply np_round_nearest|]. split; [|apply Hcount].
    unfold num_angular_bins. rewrite Z2Nat.id by lia. reflexivity.
  - apply regular_generator_raises. left. reflexivity.
  - apply regular_generator_raises. right. reflexivity.
Qed.

Lemma regular_generator_samples_witness :
  (exists r_n phi_n,
     regular_angular_generator_res (1 / 10) [1; 2] 2%nat = Ok (r_n, phi_n) /\
     length r_n = length phi_n /\
     Forall (fun phi => length phi = 2%nat) phi_n /\
     forall r,
       exists (z : Z) (n : nat),
         Rabs (IZR z - 2 * PI * r / (1 / 10)) <= 1 / 2 /\
         Z.of_nat n = Z.max z 100 /\
         count_occ Req_dec_T r_n r
         = (count_occ Req_dec_T [1; 2]%R r * n ^ 2)%nat) /\
  regular_angular_generator_res (1 / 10) [] 2%nat = Raise ValueError /\
  regular_angular_generator_res (1 / 10) [1; 2] 0%nat = Raise ValueError.
Proof.
  apply (regular_generator_samples (1 / 10) [1; 2] 2%nat).
  - lra.
  - discriminate.
  - lia.
Defined.

(** ** The default sample points *)

Lemma points_on_spheres (r_n : list R) (phi_n : list (list R)) (d : nat) :
  length r_n = length phi_n ->
  Forall (fun r => 0 <= r) r_n ->
  Forall (fun phi => length phi = S d) phi_n ->
  Forall2 (fun r p => norm p = r) r_n (map2 spherical2cartesian_point r_n phi_n) /\
  Forall (fun p => length p = S (S d)) (map2 spherical2cartesian_point r_n phi_n).
Proof.
  intros Hlen Hr. revert phi_n Hlen.
  induction Hr as [|r rs Hr0 _ IH]; intros [|phi phis] Hlen Hphi;
    simpl in *; try discriminate.
  - split; constructor.
  - inversion Hphi as [|? ? Hp Hps]; subst.
    destruct (IH phis ltac:(lia) Hps) as [IH1 IH2].
    split; constructor; try assumption.
    + unfold norm. rewrite sum_squares_on_sphere by lia.
      replace (r ^ 2) with (Rsqr r) by (unfold Rsqr; ring).
      apply sqrt_Rsqr. exact Hr0.
    + rewrite length_spherical2cartesian_point, Hp. reflexivity.
Qed.

Lemma filter_combine_Forall2 {A B : Type} (P : B -> A -> Prop)
    (f : A * B -> bool) (l : list A) (l' : list B) :
  Forall2 P l' l ->
  Forall2 P (map snd (filter f (combine l l'))) (map fst (filter f (combine l l'))).
Proof.
  intro H. induction H as [|b a bs as_ Hab _ IH]; simpl; [constructor|].
  destruct (f (a, b)); simpl; [constructor; assumption | exact IH].
Qed.

Lemma filter_combine_radii {A : Type} (Q : R -> Prop)
    (f : A * R -> bool) (l : list A) (l' : list R) :
  Forall Q l' -> Forall Q (map snd (filter f (combine l l'))).
Proof.
  intro H. apply Forall_forall. intros r Hr.
  apply in_map_iff in Hr as [[a r'] [E Hin]]. cbn [snd] in E. subst r'.
  apply filter_In in Hin as [Hin _]. apply in_combine_r in Hin.
  exact (proj1 (Forall_forall Q l') H r Hin).
Qed.

Lemma norm_singleton (b : R) : 0 <= b -> norm [b] = b.
Proof.
  intro Hb. unfold norm. cbn [map Rsum fold_right].
  replace (b ^ 2 + 0) with (Rsqr b) by (unfold Rsqr; ring).
  apply sqrt_Rsqr. exact Hb.
Qed.

(** What a returning call of the regular generator returned. *)
Lemma regular_generator_inv (angular_resolution : R) (bins : list R)
    (dims2avg : nat) (r_n : list R) (phi_n : list (list R)) :
  regular_angular_generator_res angular_resolution bins dims2avg
  = Ok (r_n, phi_n) ->
  bins <> [] /\ (1 <= dims2avg)%nat /\
  length r_n = length phi_n /\
  Forall (fun phi => length phi = dims2avg) phi_n /\
  Forall (fun r => In r bins) r_n.
Proof.
  intro H.
  assert (Hb : bins <> []).
  { intro E. rewrite regular_generator_raises in H by (left; exact E).
    discriminate. }
  assert (Hd : (1 <= dims2avg)%nat).
  { destruct dims2avg; [|lia].
    rewrite regular_generator_raises in H by (right; reflexivity). discriminate. }
  destruct (regular_generator_facts angular_resolution bins dims2avg Hb Hd)
    as (r' & phi' & Hgen & Hlen & Hcol & Hin & _).
  rewrite Hgen in H. inversion H; subst. repeat split; assumption.
Qed.

(** The candidate points of a generator whose radii are among the
    requested ones and pair up with angle columns of the right length lie
    on the spheres of their radii; on a single axis the candidates are the
    radii themselves. *)
Lemma candidates_on_spheres (coords : list (list R)) (bins : list R)
    (g : generator) (cands : list (list R)) (radii : list R) :
  Forall (fun r => 0 <= r) bins ->
  (forall r_n phi_n,
     (2 <= length coords)%nat ->
     g bins (length coords - 1)%nat = Ok (r_n, phi_n) ->
     length r_n = length phi_n /\
     Forall (fun r => In r bins) r_n /\
     Forall (fun phi => length phi = (length coords - 1)%nat) phi_n) ->
  candidate_samples coords bins (Some g) = Ok (cands, radii) ->
  Forall2 (fun r p => norm p = r) radii cands /\
  Forall (fun r => In r bins) radii.
Proof.
  intros Hb Hg. unfold candidate_samples.
  destruct (1 <? length coords)%nat eqn:Hd.
  - apply Nat.ltb_lt in Hd.
    destruct (g bins (length coords - 1)%nat) as [[r_n phi_n]|e] eqn:Eg;
      cbn [bind]; [|discriminate].
    destruct (Hg r_n phi_n Hd eq_refl) as (Hlen & Hin & Hcol).
    unfold _spherical2cartesian. rewrite Hlen, Nat.eqb_refl. cbn [bind].
    intro H; inversion H; subst; clear H.
    split; [|exact Hin].
    assert (Hpos : Forall (fun r => 0 <= r) radii).
    { apply Forall_forall. intros r Hr.
      apply (proj1 (Forall_forall _ bins) Hb).
      exact (proj1 (Forall_forall _ radii) Hin r Hr). }
    replace (length coords - 1)%nat with (S (length coords - 2)) in Hcol by lia.
    exact (proj1 (points_on_spheres radii phi_n _ Hlen Hpos Hcol)).
  - intro H; inversion H; subst; clear H. split.
    + clear Hg. induction Hb as [|b bs Hb0 _ IH]; simpl; constructor.
      * apply norm_singleton. exact Hb0.
      * exact IH.
    + apply Forall_forall. intros r Hr. exact Hr.
Qed.

Lemma sample_coords_candidates (coords : list (list R)) (bins : list R)
    (weights : weights_arg) (gen : option generator)
    (sample_coords : list (list R)) (r_n : list R) :
  _sample_coords_interpolate coords bins weights gen = Ok (sample_coords, r_n) ->
  exists cands radii, candidate_samples coords bins gen = Ok (cands, radii).
Proof.
  unfold _sample_coords_interpolate.
  destruct (negb _); [discriminate|].
  destruct (candidate_samples coords bins gen) as [[cands radii]|e];
    cbn [bind]; [|discriminate].
  intros _. exists cands, radii. reflexivity.
Qed.

Lemma samples_on_spheres (coords : list (list R)) (bins : list R)
    (weights : weights_arg) (gen : option generator)
    (cands : list (list R)) (radii : list R)
    (sample_coords : list (list R)) (r_n : list R) :
  candidate_samples coords bins gen = Ok (cands, radii) ->
  Forall2 (fun r p => norm p = r) radii cands ->
  Forall (fun r => In r bins) radii ->
  _sample_coords_interpolate coords bins weights gen = Ok (sample_coords, r_n) ->
  length sample_coords = length r_n /\ sample_coords <> [] /\
  Forall2 (fun r p => norm p = r) r_n sample_coords /\
  Forall (fun r => In r bins) r_n.
Proof.
  intros Hc Hn Hin.
  rewrite (sample_coords_unfold coords bins weights gen cands radii Hc).
  destruct (negb _); [discriminate|].
  destruct (mapM np_min coords) as [mins|e]; cbn [bind]; [|discriminate].
  destruct (mapM np_max coords) as [maxs|e]; cbn [bind]; [|discriminate].
  destruct (existsb _ cands); [discriminate|].
  destruct (filter _ _) as [|k kept] eqn:Hk; [discriminate|].
  intro H; inversion H; subst; clear H.
  change (fst k :: map fst kept) with (map fst (k :: kept)).
  change (snd k :: map snd kept) with (map snd (k :: kept)).
  rewrite <- Hk.
  split; [rewrite !length_map; reflexivity|].
  split; [rewrite Hk; discriminate|].
  split; [apply filter_combine_Forall2; exact Hn|].
  apply filter_combine_radii. exact Hin.
Qed.

(** The sampler returns when the weights fit, every axis has a
    coordinate, every candidate has one component per axis and one
    candidate lies in the box. *)
Lemma sample_coords_returns (coords : list (list R)) (bins : list R)
    (weights : weights_arg) (gen : option generator)
    (cands : list (list R)) (radii : list R) (mins maxs : list R)
    (p : list R) (r : R) :
  weights_size_ok weights (map (@length R) coords) = true ->
  candidate_samples coords bins gen = Ok (cands, radii) ->
  mapM np_min coords = Ok mins -> mapM np_max coords = Ok maxs ->
  Forall (fun q => length q = length coords) cands ->
  In (p, r) (combine cands radii) -> in_box mins maxs p = true ->
  exists sample_coords r_n,
    _sample_coords_interpolate coords bins weights gen = Ok (sample_coords, r_n).
Proof.
  intros Hw Hc Hmin Hmax Hlen Hin Hbox.
  rewrite (sample_coords_unfold coords bins weights gen cands radii Hc).
  rewrite Hw, Hmin, Hmax. cbn [negb bind].
  assert (Hex : existsb (fun q => negb (Nat.eqb (length q) (length coords))) cands
                = false).
  { apply Bool.not_true_iff_false. intro H.
    apply existsb_exists in H as [q [Hq Hneq]].
    apply negb_true_iff, Nat.eqb_neq in Hneq.
    apply Hneq. exact (proj1 (Forall_forall _ cands) Hlen q Hq). }
  rewrite Hex.
  destruct (filter (fun pr => in_box mins maxs (fst pr)) (combine cands radii))
    as [|k kept] eqn:Hk.
  - exfalso.
    assert (Hf : In (p, r) (filter (fun pr => in_box mins maxs (fst pr))
                              (combine cands radii)))
      by (apply filter_In; split; [exact Hin | exact Hbox]).
    rewrite Hk in Hf. destruct Hf.
  - eexists. eexists. reflexivity.
Qed.

(** The first sample of the regular generator on one angle per point: the
    first radius at the angle zero. *)
Lemma regular_generator_first_sample (angular_resolution r : R) (rest : list R) :
  exists a rs phis,
    regular_angular_generator_res angular_resolution (r :: rest) 1%nat
    = Ok (r :: rs, [a] :: phis) /\ a = 0.
Proof.
  unfold regular_angular_generator_res.
  pose proof (num_angular_bins_floor angular_resolution r) as Hn.
  cbn [flat_map Nat.sub repeat].
  destruct (num_angular_bins angular_resolution r) as [|[|n]] eqn:En; try lia.
  rewrite Nat.pow_1_r. cbn [repeat app].
  unfold meshgrid_xy at 1. cbn [meshgrid_ij].
  unfold linspace at 1.
  replace (1 <? S (S n))%nat with true by (symmetry; apply Nat.ltb_lt; lia).
  cbn [seq map]. 
  change (removelast (?x :: ?y :: ?l)) with (x :: removelast (y :: l)).
  cbn [app flat_map map].
  eexists. eexists. eexists. split; [reflexivity|].
  simpl. ring.
Qed.

(** With the default generator and radii that are not negative, every
    sample point that the sampler returns lies at the distance of its
    radius from the origin, and that radius is one of the requested radii;
    there is at least one sample, and as many radii as points. *)
Theorem default_samples_on_spheres (coords : list (list R)) (bins : list R)
    (weights : weights_arg) (sample_coords : list (list R)) (r_n : list R) :
  Forall (fun r => 0 <= r) bins ->
  _sample_coords_interpolate coords bins weights None = Ok (sample_coords, r_n) ->
  length sample_coords = length r_n /\ sample_coords <> [] /\
  Forall2 (fun r p => norm p = r) r_n sample_coords /\
  Forall (fun r => In r bins) r_n.
Proof.
  intros Hb H.
  destruct (sample_coords_candidates _ _ _ _ _ _ H) as (cands & radii & Hc).
  destruct (candidates_on_spheres coords bins regular_angular_generator
              cands radii Hb) as (Hn & Hin).
  - intros r' phi' Hd Hg. unfold regular_angular_generator in Hg.
    destruct (regular_generator_inv _ _ _ _ _ Hg) as (_ & _ & Hlen & Hcol & Hrad).
    repeat split; assumption.
  - exact Hc.
  - exact (samples_on_spheres coords bins weights None cands radii
             sample_coords r_n Hc Hn Hin H).
Qed.

(** A call on two axes: the radius 1 is sampled by the default generator
    on the box from 0 to 2 on both axes, and the sample at the angle zero,
    the point (1, 0), lies in the box. *)
Lemma default_sampler_example :
  exists sample_coords r_n,
    _sample_coords_interpolate [[0; 2]; [0; 2]] [1] (WScalar 1) None
    = Ok (sample_coords, r_n).
Proof.
  destruct (regular_generator_first_sample (1 / 10) 1 [])
    as (a & rs & phis & Hgen & Ha).
  assert (Hinv := regular_generator_inv _ _ _ _ _ Hgen).
  destruct Hinv as (_ & _ & Hlen & Hcol & Hrad).
  assert (Hpos : Forall (fun r => 0 <= r) (1 :: rs)).
  { apply Forall_forall. intros r Hr.
    pose proof (proj1 (Forall_forall _ _) Hrad r Hr) as [<-|[]]. lra. }
  assert (Hc : candidate_samples [[0; 2]; [0; 2]] [1] None
               = Ok (map2 spherical2cartesian_point (1 :: rs) ([a] :: phis),
                     1 :: rs)).
  { unfold candidate_samples. cbn [length Nat.ltb Nat.leb Nat.sub].
    unfold regular_angular_generator. rewrite Hgen. cbn [bind].
    unfold _spherical2cartesian. rewrite Hlen, Nat.eqb_refl. reflexivity. }
  apply (sample_coords_returns [[0; 2]; [0; 2]] [1] (WScalar 1) None
           _ _ [Rmin 0 2; Rmin 0 2] [Rmax 0 2; Rmax 0 2]
           (spherical2cartesian_point 1 [a]) 1 eq_refl Hc).
  - reflexivity.
  - reflexivity.
  - exact (proj2 (points_on_spheres (1 :: rs) ([a] :: phis) 0 Hlen Hpos Hcol)).
  - left. reflexivity.
  - subst a. cbn [spherical2cartesian_point]. rewrite cos_0, sin_0.
    unfold in_box. cbn [combine forallb fst snd]. unfold Rleb.
    eval_minmax. decide_reals; try reflexivity.
Qed.

Lemma default_samples_on_spheres_witness :
  exists sample_coords r_n,
    _sample_coords_interpolate [[0; 2]; [0; 2]] [1] (WScalar 1) None
    = Ok (sample_coords, r_n) /\
    length sample_coords = length r_n /\ sample_coords <> [] /\
    Forall2 (fun r p => norm p = r) r_n sample_coords /\
    Forall (fun r => In r [1]) r_n.
Proof.
  destruct default_sampler_example as (sc & r_n & E).
  exists sc, r_n. split; [exact E|].
  apply (default_samples_on_spheres [[0; 2]; [0; 2]] [1] (WScalar 1) sc r_n).
  - repeat constructor; lra.
  - exact E.
Defined.

(** ** The generator with a cut on the angles *)

Lemma sin_below_cut (mu p : R) : 1 < mu -> Rleb mu (sin p) = false.
Proof.
  intro Hmu. apply Rleb_false. pose proof (SIN_bound p) as [_ H]. lra.
Qed.

Lemma above_mu_min_nothing_left (angular_resolution mu : R) (bins : list R)
    (dims2avg : nat) :
  1 < mu -> (1 <= dims2avg)%nat ->
  above_mu_min_angular_generator_res angular_resolution mu bins dims2avg
  = match bins with
    | [] => Raise ValueError
    | _ => Ok ([], [])
    end.
Proof.
  intros Hmu Hd. unfold above_mu_min_angular_generator_res.
  destruct bins as [|b0 bins'].
  - rewrite regular_generator_raises by (left; reflexivity). reflexivity.
  - destruct (regular_generator_facts angular_resolution (b0 :: bins') dims2avg
                ltac:(discriminate) Hd)
      as (r_n & phi_n & Hgen & _ & Hcol & _).
    rewrite Hgen. cbn [bind].
    rewrite filter_none; [reflexivity|].
    intros [r phi] Hin. cbn [snd]. apply in_combine_r in Hin.
    pose proof (proj1 (Forall_forall _ phi_n) Hcol phi Hin) as Hlen.
    destruct phi as [|p0 [|p1 t]].
    + simpl in Hlen. lia.
    + apply sin_below_cut. exact Hmu.
    + cbn [tl forallb]. rewrite sin_below_cut by exact Hmu. reflexivity.
Qed.

(** A cut [mu] above 1 cannot be met by any sine, so the generator with
    that cut keeps no sample (and raises [ValueError] when there is no
    radius): on a field of two or more axes the sampler then raises
    [ValueError], whatever the radii and the weights are. *)
Theorem cut_above_one_leaves_no_sample (angular_resolution mu : R)
    (coords : list (list R)) (bins : list R) (weights : weights_arg) :
  1 < mu -> (2 <= length coords)%nat ->
  above_mu_min_angular_generator_res angular_resolution mu bins
    (length coords - 1)%nat
  = match bins with
    | [] => Raise ValueError
    | _ => Ok ([], [])
    end /\
  _sample_coords_interpolate coords bins weights
    (Some (above_mu_min_angular_generator_res angular_resolution mu))
  = Raise ValueError.
Proof.
  intros Hmu Hd.
  assert (Hgen := above_mu_min_nothing_left angular_resolution mu bins
                    (length coords - 1)%nat Hmu ltac:(lia)).
  split; [exact Hgen|].
  unfold _sample_coords_interpolate.
  destruct (negb _); [reflexivity|].
  unfold candidate_samples.
  replace (1 <? length coords)%nat with true
    by (symmetry; apply Nat.ltb_lt; lia).
  rewrite Hgen. destruct bins as [|b0 bins']; [reflexivity|].
  cbn [bind _spherical2cartesian length Nat.eqb map2].
  destruct (mapM np_min coords) as [mins|e] eqn:Hmin; cbn [bind].
  2:{ f_equal. exact (mapM_error np_min coords ValueError e np_min_error Hmin). }
  destruct (mapM np_max coords) as [maxs|e] eqn:Hmax; cbn [bind].
  2:{ f_equal. exact (mapM_error np_max coords ValueError e np_max_error Hmax). }
  reflexivity.
Qed.

Lemma cut_above_one_leaves_no_sample_witness :
  above_mu_min_angular_generator_res (1 / 10) 2 [1; 2]
    (length [[0; 1]; [0; 1]] - 1)%nat
  = match [1; 2] with
    | [] => Raise ValueError
    | _ => Ok ([], [])
    end /\
  _sample_coords_interpolate [[0; 1]; [0; 1]] [1; 2] (WScalar 1)
    (Some (above_mu_min_angular_generator_res (1 / 10) 2))
  = Raise ValueError.
Proof.
  apply (cut_above_one_leaves_no_sample (1 / 10) 2 [[0; 1]; [0; 1]] [1; 2]
           (WScalar 1)).
  - lra.
  - simpl. lia.
Defined.

(** * Further properties of the interpolated averager *)

Lemma insert_unique_In (x y : R) (l : list R) :
  In y (insert_unique x l) <-> y = x \/ In y l.
Proof.
  induction l as [|z t IH]; simpl.
  - split; intros [H|[]]; left; symmetry; exact H.
  - destruct (Rlt_dec x z) as [Hxz|Hxz].
    + simpl. split.
      * intros [H|[H|H]]; [left; symmetry; exact H | right; left; exact H
                          | right; right; exact H].
      * intros [H|[H|H]]; [left; symmetry; exact H | right; left; exact H
                          | right; right; exact H].
    + destruct (Rlt_dec z x) as [Hzx|Hzx].
      * simpl. rewrite IH. split.
        -- intros [H|[H|H]]; [right; left; exact H | left; exact H
                             | right; right; exact H].
        -- intros [H|[H|H]]; [right; left; exact H | left; exact H
                             | right; right; exact H].
      * assert (E : x = z) by lra. subst z. simpl. split.
        -- intros [H|H]; [right; left; exact H | right; right; exact H].
        -- intros [H|[H|H]]; [left; symmetry; exact H | left; exact H
                             | right; exact H].
Qed.

Lemma insert_unique_sorted (x : R) (l : list R) :
  StronglySorted Rlt l -> StronglySorted Rlt (insert_unique x l).
Proof.
  intro Hs. induction Hs as [|z t Ht IH Hz]; simpl.
  - repeat constructor.
  - destruct (Rlt_dec x z) as [Hxz|Hxz].
    + constructor; [constructor; assumption|].
      constructor; [exact Hxz|].
      apply Forall_forall. intros y Hy.
      pose proof (proj1 (Forall_forall _ t) Hz y Hy). lra.
    + destruct (Rlt_dec z x) as [Hzx|Hzx].
      * constructor; [exact IH|].
        apply Forall_forall. intros y Hy.
        apply insert_unique_In in Hy as [Hy|Hy]; [subst y; exact Hzx|].
        exact (proj1 (Forall_forall _ t) Hz y Hy).
      * constructor; assumption.
Qed.

Lemma np_unique_sorted (l : list R) : StronglySorted Rlt (np_unique l).
Proof.
  induction l as [|x t IH]; simpl; [constructor|].
  apply insert_unique_sorted. exact IH.
Qed.

Lemma np_unique_In (y : R) (l : list R) : In y (np_unique l) <-> In y l.
Proof.
  induction l as [|x t IH]; simpl; [reflexivity|].
  rewrite insert_unique_In, IH. split; intros [H|H]; auto.
Qed.

Lemma sorted_NoDup (l : list R) : StronglySorted Rlt l -> NoDup l.
Proof.
  intro Hs. induction Hs as [|z t Ht IH Hz]; constructor; [|exact IH].
  intro Hin. pose proof (proj1 (Forall_forall _ t) Hz z Hin). lra.
Qed.

Lemma indicator_absent (a : R) (t : list R) :
  ~ In a t ->
  list_sum (map (fun x => if Req_dec_T a x then 1%nat else 0%nat) t) = 0%nat.
Proof.
  induction t as [|y t IHt]; intro Hz; [reflexivity|]. simpl.
  destruct (Req_dec_T a y) as [E|E].
  - subst y. exfalso. apply Hz. left. reflexivity.
  - apply IHt. intro H. apply Hz. right. exact H.
Qed.

Lemma indicator_count (a : R) (u : list R) :
  NoDup u -> In a u ->
  list_sum (map (fun x => if Req_dec_T a x then 1%nat else 0%nat) u) = 1%nat.
Proof.
  intro Hn. induction Hn as [|z t Hz Ht IH]; intro Hin; [destruct Hin|].
  simpl. destruct (Req_dec_T a z) as [E|E].
  - subst z. rewrite indicator_absent by exact Hz. reflexivity.
  - destruct Hin as [H|H]; [exfalso; apply E; symmetry; exact H|].
    rewrite (IH H). reflexivity.
Qed.

Lemma list_sum_map_plus {A : Type} (f g : A -> nat) (l : list A) :
  list_sum (map (fun x => (f x + g x)%nat) l)
  = (list_sum (map f l) + list_sum (map g l))%nat.
Proof. induction l as [|a l IH]; simpl; [reflexivity|]. rewrite IH. lia. Qed.

(** The occurrences of the distinct values add up to the length. *)
Lemma count_occ_total (l u : list R) :
  NoDup u -> incl l u ->
  list_sum (map (count_occ Req_dec_T l) u) = length l.
Proof.
  intros Hn. induction l as [|a l IH]; intro Hincl.
  - simpl. clear Hn Hincl. induction u as [|x u IHu]; [reflexivity|].
    simpl. exact IHu.
  - rewrite (map_ext (count_occ Req_dec_T (a :: l))
               (fun x => ((if Req_dec_T a x then 1 else 0)
                          + count_occ Req_dec_T l x)%nat)).
    + rewrite list_sum_map_plus, indicator_count, IH; try assumption.
      * reflexivity.
      * intros y Hy. apply Hincl. right. exact Hy.
      * apply Hincl. left. reflexivity.
    + intro x. simpl. destruct (Req_dec_T a x); reflexivity.
Qed.

Lemma np_unique_counts_total (l : list R) :
  list_sum (np_unique_counts l) = length l.
Proof.
  unfold np_unique_counts. apply count_occ_total.
  - apply sorted_NoDup, np_unique_sorted.
  - intros y Hy. apply np_unique_In. exact Hy.
Qed.

Lemma np_unique_counts_positive (l : list R) :
  Forall (fun c => (1 <= c)%nat) (np_unique_counts l).
Proof.
  unfold np_unique_counts. apply Forall_forall. intros c Hc.
  apply in_map_iff in Hc as [u [<- Hu]].
  apply (proj1 (np_unique_In u l)) in Hu.
  apply (count_occ_In Req_dec_T) in Hu. lia.
Qed.

Lemma length_filter_valid {A B : Type} (v : list (option A)) (r : list B) :
  length v = length r ->
  length (filter (fun vr : option A * B =>
                    match fst vr with Some _ => true | None => false end)
            (combine v r))
  = length (valid v).
Proof.
  revert r; induction v as [|[a|] v IH]; intros [|b r] H; simpl in *;
    try discriminate; try reflexivity.
  - f_equal. apply IH. lia.
  - apply IH. lia.
Qed.

Lemma length_valid_map_option {A B : Type} (f : A -> option B) (g : B -> B)
    (l : list A) :
  length (valid (map (fun p => option_map g (f p)) l))
  = length (filter (fun p => is_number (f p)) l).
Proof.
  induction l as [|a l IH]; [reflexivity|]. simpl.
  destruct (f a); simpl; rewrite IH; reflexivity.
Qed.

Lemma rescaling_undone (m z : C) (s : R) :
  s <> 0 -> Cplus (Cscale s (Cscale (/ s) (Cminus z m))) m = z.
Proof.
  intro Hs. destruct z as [zr zi], m as [mr mi].
  unfold Cplus, Cscale, Cminus. cbn [fst snd]. f_equal; field; exact Hs.
Qed.

(** The interpolated averager in terms of the fitted interpolant, when the
    weighted field has a mean and a standard deviation. *)
Lemma field_average_interpolate_unfold
    (RegularGridInterpolator :
       list (list R) -> list nat -> list (option C) -> result interpolant)
    (coords : list (list R)) (fld : field) (bins : list R)
    (weights : weights_arg) (sample_coords : list (list R)) (r_n : list R)
    (m : C) (sd : R) (fnc : interpolant) :
  weights_size_ok weights (field_shape fld) = true ->
  nanmean (weighted_cells weights fld) = Some m ->
  nanstd (weighted_cells weights fld) = Some sd ->
  RegularGridInterpolator coords (field_shape fld)
    (rescale_cells m (Rmax sd 1) (weighted_cells weights fld)) = Ok fnc ->
  length sample_coords = length r_n ->
  _field_average_interpolate RegularGridInterpolator coords fld bins weights
    sample_coords r_n
  = Ok (map (fun b =>
               nanmean (map fst
                          (filter (fun vr => Reqb (snd vr) b)
                             (combine (interpolate_samples fnc m (Rmax sd 1)
                                         sample_coords) r_n)))) bins,
        map INR
          (np_unique_counts
             (map snd
                (filter (fun vr => is_number (fst vr))
                   (combine (interpolate_samples fnc m (Rmax sd 1) sample_coords)
                      r_n))))).
Proof.
  intros Hw Hm Hsd Hrgi Hlen. unfold _field_average_interpolate.
  rewrite Hw. cbn [negb].
  fold (weighted_cells weights fld). rewrite Hm, Hsd. cbn [option_map].
  assert (Hres :
    map (fun c : option C =>
           match c with
           | Some z => Some (Cscale (/ Rmax sd 1) (Cminus z m))
           | None => None
           end) (weighted_cells weights fld)
    = rescale_cells m (Rmax sd 1) (weighted_cells weights fld)).
  { unfold rescale_cells. apply map_ext. intros [z|]; reflexivity. }
  rewrite Hres, Hrgi. cbn [bind].
  assert (Hint :
    map (fun p : list R =>
           match fnc p with
           | Some v => Some (Cplus (Cscale (Rmax sd 1) v) m)
           | None => None
           end) sample_coords
    = interpolate_samples fnc m (Rmax sd 1) sample_coords).
  { unfold interpolate_samples. apply map_ext. intro p.
    destruct (fnc p); reflexivity. }
  rewrite Hint.
  assert (Hl : length (interpolate_samples fnc m (Rmax sd 1) sample_coords)
               = length r_n)
    by (unfold interpolate_samples; rewrite length_map; exact Hlen).
  rewrite Hl, Nat.eqb_refl. cbn [negb]. reflexivity.
Qed.

(** The interpolated averager fits the interpolant to the rescaled
    weighted field and evaluates it at every sample point: the value at a
    sample is the interpolant's value scaled back by [std] and shifted by
    [mean], so a sample at which the interpolant reproduces the rescaled
    value of a cell gets the value of that cell.  The value of a target
    radius is the mean of the values that are not NaN among the samples at
    that radius; every reported weight is a count of at least one, and the
    weights add up to the number of samples at which the interpolant is
    not NaN. *)
Theorem interpolated_weights_count_valid_samples
    (RegularGridInterpolator :
       list (list R) -> list nat -> list (option C) -> result interpolant)
    (coords : list (list R)) (fld : field) (bins : list R)
    (weights : weights_arg) (sample_coords : list (list R)) (r_n : list R)
    (m : C) (sd : R) (fnc : interpolant) :
  weights_size_ok weights (field_shape fld) = true ->
  nanmean (weighted_cells weights fld) = Some m ->
  nanstd (weighted_cells weights fld) = Some sd ->
  RegularGridInterpolator coords (field_shape fld)
    (rescale_cells m (Rmax sd 1) (weighted_cells weights fld)) = Ok fnc ->
  length sample_coords = length r_n ->
  exists avged sumweights,
    _field_average_interpolate RegularGridInterpolator coords fld bins weights
      sample_coords r_n = Ok (avged, sumweights) /\
    avged
    = map (fun b =>
             nanmean (map fst
                        (filter (fun vr => Reqb (snd vr) b)
                           (combine (interpolate_samples fnc m (Rmax sd 1)
                                       sample_coords) r_n)))) bins /\
    (forall p z, In p sample_coords ->
       fnc p = Some (Cscale (/ Rmax sd 1) (Cminus z m)) ->
       In (Some z) (interpolate_samples fnc m (Rmax sd 1) sample_coords)) /\
    Forall (fun w => 1 <= w) sumweights /\
    Rsum sumweights
    = INR (length (filter (fun p => is_number (fnc p)) sample_coords)).
Proof.
  intros Hw Hm Hsd Hrgi Hlen.
  rewrite (field_average_interpolate_unfold RegularGridInterpolator coords fld
             bins weights sample_coords r_n m sd fnc Hw Hm Hsd Hrgi Hlen).
  eexists. eexists. split; [reflexivity|]. split; [reflexivity|].
  split; [|split].
  - intros p z Hp Hf. unfold interpolate_samples.
    apply in_map_iff. exists p. split; [|exact Hp].
    rewrite Hf. cbn [option_map]. f_equal. apply rescaling_undone.
    pose proof (Rmax_r sd 1). lra.
  - apply Forall_forall. intros w Hin.
    apply in_map_iff in Hin as [c [<- Hc]].
    pose proof (proj1 (Forall_forall _ _) (np_unique_counts_positive _) c Hc) as H1.
    change 1 with (INR 1). apply le_INR. exact H1.
  - rewrite Rsum_map_INR, np_unique_counts_total, length_map.
    assert (Hl : length (interpolate_samples fnc m (Rmax sd 1) sample_coords)
                 = length r_n)
      by (unfold interpolate_samples; rewrite length_map; exact Hlen).
    assert (Hf : forall (v : list (option C)) (r : list R),
      length v = length r ->
      length (filter (fun vr : option C * R => is_number (fst vr)) (combine v r))
      = length (valid v)).
    { intros v r. exact (length_filter_valid v r). }
    rewrite Hf by exact Hl.
    f_equal. unfold interpolate_samples. apply length_valid_map_option.
Qed.

(** A field on the axis 0, 1, 2 with the values 3, 5, 7 and the weight 1,
    sampled at the radii 1 and 5 by an interpolant that is a number at the
    first sample only. *)
Lemma interpolated_weights_count_valid_samples_witness :
  exists (m : C) (sd : R) (fnc : interpolant) avged sumweights,
    nanmean (weighted_cells (WScalar 1) (Field [3%nat] (RealData [3; 5; 7])))
    = Some m /\
    nanstd (weighted_cells (WScalar 1) (Field [3%nat] (RealData [3; 5; 7])))
    = Some sd /\
    _field_average_interpolate
      (fun _ _ _ => Ok (fun p => match p with
                                 | [x] => if Rle_dec x 2 then Some (0, 0) else None
                                 | _ => None
                                 end))
      [[0; 1; 2]] (Field [3%nat] (RealData [3; 5; 7])) [1; 5] (WScalar 1)
      [[1]; [5]] [1; 5] = Ok (avged, sumweights) /\
    avged
    = map (fun b =>
             nanmean (map fst
                        (filter (fun vr => Reqb (snd vr) b)
                           (combine (interpolate_samples fnc m (Rmax sd 1)
                                       [[1]; [5]]) [1; 5])))) [1; 5] /\
    (forall p z, In p [[1]; [5]] ->
       fnc p = Some (Cscale (/ Rmax sd 1) (Cminus z m)) ->
       In (Some z) (interpolate_samples fnc m (Rmax sd 1) [[1]; [5]])) /\
    Forall (fun w => 1 <= w) sumweights /\
    Rsum sumweights
    = INR (length (filter (fun p => is_number (fnc p)) [[1]; [5]])).
Proof.
  assert (Hcells :
    weighted_cells (WScalar 1) (Field [3%nat] (RealData [3; 5; 7]))
    = [Some (Cscale (1 * 1) (3, 0)); Some (Cscale (1 * 1) (5, 0));
       Some (Cscale (1 * 1) (7, 0))]).
  { unfold weighted_cells.
    cbn [cells fdata_len np_real length cell_weights repeat to_complex map map2].
    destruct (Req_dec_T (1 * 1) 0) as [E|_]; [lra | reflexivity]. }
  assert (Hm : exists m, nanmean (weighted_cells (WScalar 1)
                                    (Field [3%nat] (RealData [3; 5; 7]))) = Some m)
    by (rewrite Hcells; eexists; reflexivity).
  assert (Hsd : exists sd, nanstd (weighted_cells (WScalar 1)
                                     (Field [3%nat] (RealData [3; 5; 7]))) = Some sd)
    by (rewrite Hcells; eexists; reflexivity).
  clear Hcells.
  destruct Hm as [m Hm]. destruct Hsd as [sd Hsd].
  destruct (interpolated_weights_count_valid_samples
              (fun _ _ _ => Ok (fun p => match p with
                                         | [x] => if Rle_dec x 2 then Some (0, 0)
                                                  else None
                                         | _ => None
                                         end))
              [[0; 1; 2]] (Field [3%nat] (RealData [3; 5; 7])) [1; 5] (WScalar 1)
              [[1]; [5]] [1; 5] m sd _ eq_refl Hm Hsd eq_refl eq_refl)
    as (avged & sw & H1 & H2 & H3 & H4 & H5).
  exists m, sd. eexists. exists avged, sw.
  split; [exact Hm|]. split; [exact Hsd|]. split; [exact H1|].
  split; [exact H2|]. split; [exact H3|]. split; [exact H4 | exact H5].
Defined.

(** ** The average of a bin lies between the bounds of the field *)

Lemma shell_weighted_value_bounds (edges : list R) (b : nat)
    (coords w f : list R) (lo hi : R) :
  Forall (fun x => 0 <= x) w -> length w = length coords ->
  length f = length coords ->
  Forall (fun x => lo <= x <= hi) f ->
  lo * shell_total edges b coords w
  <= shell_total edges b coords (map2 Rmult w f)
  <= hi * shell_total edges b coords w.
Proof.
  intros Hw. unfold shell_total. revert coords f.
  induction Hw as [|a w Ha _ IH]; intros [|c cs] [|x f] Hlen Hf Hb;
    simpl in *; try discriminate.
  - lra.
  - inversion Hb as [|? ? Hx Hb']; subst.
    specialize (IH cs f ltac:(lia) ltac:(lia) Hb').
    destruct (in_bin edges b c).
    + cbn [map snd]. rewrite !Rsum_cons.
      assert (lo * a <= a * x <= hi * a) by nra. lra.
    + exact IH.
Qed.

Lemma shell_unit_value_bounds (edges : list R) (b : nat)
    (coords f : list R) (lo hi : R) :
  length f = length coords ->
  Forall (fun x => lo <= x <= hi) f ->
  lo * INR (shell_count edges b coords)
  <= shell_total edges b coords (map (fun c => 1 * c) f)
  <= hi * INR (shell_count edges b coords).
Proof.
  unfold shell_total, shell_count. revert f.
  induction coords as [|c cs IH]; intros [|x f] Hlen Hb;
    simpl in *; try discriminate.
  - lra.
  - inversion Hb as [|? ? Hx Hb']; subst.
    specialize (IH f ltac:(lia) Hb').
    destruct (in_bin edges b c).
    + cbn [map snd length]. rewrite Rsum_cons, S_INR. lra.
    + exact IH.
Qed.

(** With weights that are not negative (an array of such weights, or the
    scalar 1), the average reported for a bin of positive summed weight
    lies between a lower and an upper bound of the field: averaging a
    field that is not negative never gives a negative value. *)
Theorem average_within_field_bounds (coords : ndarray) (weights : weights_arg)
    (fld : field) (f : list R) (lo hi : R) (bins : bins_arg) (edges : list R)
    (bin_ave log_bins : bool) :
  cells fld = RealData f ->
  Forall (fun x => lo <= x <= hi) f ->
  match weights with
  | WScalar s => s = 1
  | WArray w => Forall (fun x => 0 <= x) (flatten w)
  end ->
  _getbins bins coords log_bins = Ok edges ->
  strictly_increasing edges -> edges <> [] ->
  well_shaped coords weights fld ->
  exists indx r centres sumweights,
    average_cells fld coords bins weights true bin_ave log_bins
    = Ok (indx, RealData r, centres, sumweights) /\
    forall b, (b < nbins edges)%nat ->
      0 < shell_weight edges b (flatten coords) weights ->
      lo <= nth b r 0 <= hi.
Proof.
  intros Hf Hb Hw Hgb Hs Hne Hws.
  rewrite (average_cells_shells coords weights fld bins edges true bin_ave log_bins)
    by assumption.
  rewrite Hf. cbn [is_complex np_real].
  do 4 eexists. split; [reflexivity|].
  intros b Hlt Hpos. unfold shell_means. rewrite nth_map_seq by exact Hlt.
  cbn [Nat.add].
  destruct Hws as (_ & Hlen & Hwlen). rewrite Hf in Hlen.
  unfold fdata_len in Hlen. cbn [np_real] in Hlen.
  assert (Hbounds :
    lo * shell_weight edges b (flatten coords) weights
    <= shell_total edges b (flatten coords) (scale_by weights f)
    <= hi * shell_weight edges b (flatten coords) weights).
  { destruct weights as [s|w]; cbn [shell_weight scale_by] in *.
    - subst s. apply shell_unit_value_bounds; assumption.
    - apply shell_weighted_value_bounds; try assumption. apply Hwlen. }
  set (W := shell_weight edges b (flatten coords) weights) in *.
  set (T := shell_total edges b (flatten coords) (scale_by weights f)) in *.
  split.
  - apply Rmult_le_reg_r with (r := W); [exact Hpos|].
    replace (T / W * W) with T by (field; lra). lra.
  - apply Rmult_le_reg_r with (r := W); [exact Hpos|].
    replace (T / W * W) with T by (field; lra). lra.
Qed.

Lemma average_within_field_bounds_witness :
  exists indx r centres sumweights,
    average_cells (Field [3%nat] (RealData [4; 5; 7])) (NDArray [3%nat] [0; 1; 2])
      (BinEdges [0; 1; 3]) (WArray (NDArray [3%nat] [1; 0; 3])) true true false
    = Ok (indx, RealData r, centres, sumweights) /\
    forall b, (b < nbins [0; 1; 3]%R)%nat ->
      0 < shell_weight [0; 1; 3] b (flatten (NDArray [3%nat] [0; 1; 2]))
            (WArray (NDArray [3%nat] [1; 0; 3])) ->
      4 <= nth b r 0 <= 7.
Proof.
  apply (average_within_field_bounds (NDArray [3%nat] [0; 1; 2])
           (WArray (NDArray [3%nat] [1; 0; 3]))
           (Field [3%nat] (RealData [4; 5; 7])) [4; 5; 7] 4 7
           (BinEdges [0; 1; 3]) [0; 1; 3] true false).
  - reflexivity.
  - repeat constructor; lra.
  - repeat constructor; lra.
  - reflexivity.
  - repeat constructor; lra.
  - discriminate.
  - split; [reflexivity|]. split; [reflexivity|]. split; reflexivity.
Defined.

(** * Averaging over the leading axes only *)

Lemma mapM_map_ok {A B : Type} (f : A -> result B) (g : A -> B) (l : list A) :
  (forall x, In x l -> f x = Ok (g x)) -> mapM f l = Ok (map g l).
Proof.
  induction l as [|a l IH]; intro H; simpl; [reflexivity|].
  rewrite (H a) by (left; reflexivity). cbn [bind].
  rewrite IH by (intros x Hx; apply H; right; exact Hx). reflexivity.
Qed.

Lemma nth_flat_map_const {A B : Type} (g : A -> list B) (l : list A)
    (m b i : nat) (da : A) (d : B) :
  (forall x, length (g x) = m) -> (b < length l)%nat -> (i < m)%nat ->
  nth (b * m + i) (flat_map g l) d = nth i (g (nth b l da)) d.
Proof.
  intros Hg. revert b. induction l as [|a l IH]; intros b Hb Hi;
    simpl in Hb; [lia|].
  destruct b as [|b]; cbn [flat_map nth].
  - rewrite Nat.mul_0_l, Nat.add_0_l. apply app_nth1. rewrite Hg. exact Hi.
  - rewrite app_nth2 by (rewrite Hg; simpl; lia).
    rewrite Hg. replace (S b * m + i - m)%nat with (b * m + i)%nat by (simpl; lia).
    apply IH; [lia | exact Hi].
Qed.

Lemma shell_weight_flat (edges : list R) (b : nat) (coords : list R)
    (weights : weights_arg) :
  shell_weight edges b coords (flat_weights weights)
  = shell_weight edges b coords weights.
Proof. destruct weights; reflexivity. Qed.

Lemma scale_by_flat (weights : weights_arg) (v : list R) :
  scale_by (flat_weights weights) v = scale_by weights v.
Proof. destruct weights; reflexivity. Qed.

Lemma shell_sumweights_flat (edges coords : list R) (weights : weights_arg)
    (average : bool) :
  shell_sumweights edges coords (flat_weights weights) average
  = shell_sumweights edges coords weights average.
Proof.
  unfold shell_sumweights. apply map_ext. intro b.
  rewrite shell_weight_flat. reflexivity.
Qed.

Lemma shell_means_flat (edges coords : list R) (weights : weights_arg)
    (average : bool) (vals : list R) :
  shell_means edges coords (flat_weights weights) average vals
  = shell_means edges coords weights average vals.
Proof.
  unfold shell_means. apply map_ext. intro b.
  rewrite shell_weight_flat, scale_by_flat. reflexivity.
Qed.

Lemma length_shell_sumweights (edges coords : list R) (weights : weights_arg)
    (average : bool) :
  length (shell_sumweights edges coords weights average) = nbins edges.
Proof. unfold shell_sumweights. rewrite length_map, length_seq. reflexivity. Qed.

Lemma length_column {A : Type} (d : A) (n1 n2 i : nat) (l : list A) :
  length (column d n1 n2 i l) = n1.
Proof. unfold column. rewrite length_map, length_seq. reflexivity. Qed.

Lemma length_magnitude_grid (x : list (list R)) :
  length (flatten (_magnitude_grid x)) = prod (map (@length R) x).
Proof.
  unfold _magnitude_grid. cbn [flatten].
  rewrite length_map, length_meshgrid_ij, map_map.
  f_equal. apply map_ext. intro a. apply length_map.
Qed.

Lemma nth_map_fst (l : list C) (k : nat) :
  nth k (map fst l) 0 = fst (nth k l (0, 0)).
Proof. exact (map_nth fst l (0, 0) k). Qed.

Lemma nth_map_pair (l : list R) (k : nat) :
  fst (nth k (map (fun x => (x, 0)) l) (0, 0)) = nth k l 0.
Proof. rewrite <- nth_map_fst, map_map. cbn [fst]. rewrite map_id. reflexivity. Qed.

(** The reduction of one column of a real field, when the weights have
    the shape of the grid of the averaged axes. *)
Lemma nd_column_binned_shells
    (g : ndarray) (weights : weights_arg) (edges : list R)
    (average : bool) (col : list R) :
  strictly_increasing edges -> edges <> [] ->
  length col = length (flatten g) ->
  match weights with
  | WScalar _ => True
  | WArray w => length (flatten w) = length (flatten g)
  end ->
  nd_column_binned (digitize (flatten g) edges) weights
    (shell_sumweights edges (flatten g) weights average) false
    (Field [length (flatten g)] (RealData col))
  = Ok (map (fun x => (x, 0))
          (shell_means edges (flatten g) weights average col), []).
Proof.
  intros Hs Hne Hcol Hw. unfold nd_column_binned.
  rewrite <- (shell_sumweights_flat edges (flatten g) weights average).
  pose proof (field_average_shells (NDArray [length (flatten g)] (flatten g))
                (flat_weights weights)
                (Field [length (flatten g)] (RealData col)) edges average Hs Hne)
    as Hfa.
  cbn [flatten cells is_complex np_real] in Hfa.
  rewrite Hfa.
  - cbn [bind]. unfold fdata_len. cbn [np_real].
    rewrite length_shell_means, length_shell_sumweights, Nat.eqb_refl.
    cbn [negb to_complex]. rewrite shell_means_flat. reflexivity.
  - split; [reflexivity|]. split; [exact Hcol|].
    destruct weights as [s|w]; cbn [flat_weights]; [exact I|].
    cbn [shape flatten]. split; [rewrite Hw; reflexivity | exact Hw].
Qed.

(** When only the first [n] axes of a real field are averaged (without
    interpolation and without variance), every column of the field, one
    per cell of the remaining axes, is averaged on its own over the same
    shells of the grid of the first [n] axes: entry [(b, i)] of the result
    is the shell mean of column [i] in bin [b], the result has one row per
    bin followed by the remaining extents of the field, and the bins and
    the weights are those of the grid of the first [n] axes. *)
Theorem nd_averages_each_column
    (RegularGridInterpolator :
       list (list R) -> list nat -> list (option C) -> result interpolant)
    (fld : field) (f : list R) (axes : list (list R)) (n : nat)
    (bins : bins_arg) (edges : list R) (weights : weights_arg)
    (average bin_ave log_bins : bool)
    (interp_points_generator : option generator) (return_sumweights : bool) :
  let g := _magnitude_grid (firstn n axes) in
  let n1 := prod (firstn n (field_shape fld)) in
  let n2 := prod (skipn n (field_shape fld)) in
  cells fld = RealData f ->
  field_shape fld = map (@length R) axes ->
  (n < length axes)%nat ->
  length f = (n1 * n2)%nat ->
  _getbins bins g log_bins = Ok edges ->
  strictly_increasing edges -> edges <> [] ->
  match weights with
  | WScalar _ => True
  | WArray w => shape w = shape g /\ length (flatten w) = length (flatten g)
  end ->
  exists r,
    angular_average_nd RegularGridInterpolator fld (CoordsAxes axes) bins
      (Some n) weights average bin_ave false log_bins None
      interp_points_generator return_sumweights
    = Ok (Averaged (nbins edges :: skipn n (field_shape fld))
            (Exact (RealData r))
            (if bin_ave then shell_centres edges (flatten g) weights else edges)
            None
            (if return_sumweights
             then Some (shell_sumweights edges (flatten g) weights average)
             else None)) /\
    length r = (nbins edges * n2)%nat /\
    forall b i, (b < nbins edges)%nat -> (i < n2)%nat ->
      nth (b * n2 + i) r 0
      = nth b (shell_means edges (flatten g) weights average
                 (column 0 n1 n2 i f)) 0.
Proof.
  intros g n1 n2 Hf Hshape Hn Hlen Hgb Hs Hne Hw.
  assert (Hg1 : length (flatten g) = n1).
  { unfold g, n1. rewrite length_magnitude_grid, Hshape, firstn_map. reflexivity. }
  unfold angular_average_nd. cbn [coords_len bind coords_rows].
  rewrite Hshape, length_map, Nat.eqb_refl. cbn [negb unsupported_method].
  replace (Nat.eqb n (length axes)) with false
    by (symmetry; apply Nat.eqb_neq; lia).
  fold g.
  rewrite (get_binweights_shells g weights bins edges average bin_ave log_bins)
    by assumption.
  cbn [bind].
  replace (length axes <? n)%nat with false
    by (symmetry; apply Nat.ltb_ge; lia).
  rewrite <- Hshape. fold n1 n2.
  rewrite Hf. unfold fdata_len at 1. cbn [np_real].
  rewrite Hlen, Nat.eqb_refl. cbn [negb].
  rewrite (mapM_map_ok _
             (fun c => (map (fun x => (x, 0))
                          (shell_means edges (flatten g) weights average
                             (np_real (cells c))), []))).
  - cbn [bind is_complex]. rewrite length_shell_sumweights.
    eexists. split; [reflexivity|]. split.
    + rewrite length_map. unfold from_columns.
      rewrite (length_flat_map_const _ _ n2).
      * rewrite length_seq. reflexivity.
      * intro b. rewrite !length_map, length_seq. reflexivity.
    + intros b i Hb Hi.
      rewrite nth_map_fst. unfold from_columns.
      rewrite (nth_flat_map_const _ _ n2 b i O)
        by (try (intro; rewrite !length_map, length_seq; reflexivity);
            try (rewrite length_seq; exact Hb); exact Hi).
      rewrite seq_nth by exact Hb. cbn [Nat.add].
      rewrite !map_map.
      rewrite nth_map_seq by exact Hi. cbn [Nat.add fst cells fdata_column np_real].
      apply nth_map_pair.
  - intros c Hc. apply in_map_iff in Hc as [i [<- Hi]].
    cbn [cells fdata_column np_real].
    rewrite <- Hg1.
    apply nd_column_binned_shells; try assumption.
    + rewrite length_column. reflexivity.
    + destruct weights as [s|w]; [exact I | apply Hw].
Qed.

Lemma nd_averages_each_column_witness :
  exists r,
    angular_average_nd rejecting_interpolator
      (Field [2%nat; 2%nat] (RealData [1; 2; 3; 4]))
      (CoordsAxes [[0; 1]; [0; 1]]) (BinEdges [0; 1; 2])
      (Some 1%nat) (WScalar 1) true false false false None None true
    = Ok (Averaged (nbins [0; 1; 2]%R :: skipn 1 [2%nat; 2%nat])
            (Exact (RealData r))
            [0; 1; 2]
            None
            (Some (shell_sumweights [0; 1; 2]
                     (flatten (_magnitude_grid (firstn 1 [[0; 1]; [0; 1]])))
                     (WScalar 1) true))) /\
    length r = (nbins [0; 1; 2]%R * prod (skipn 1 [2%nat; 2%nat]))%nat /\
    forall b i, (b < nbins [0; 1; 2]%R)%nat ->
      (i < prod (skipn 1 [2%nat; 2%nat]))%nat ->
      nth (b * prod (skipn 1 [2%nat; 2%nat]) + i) r 0
      = nth b (shell_means [0; 1; 2]
                 (flatten (_magnitude_grid (firstn 1 [[0; 1]; [0; 1]])))
                 (WScalar 1) true
                 (column 0 (prod (firstn 1 [2%nat; 2%nat]))
                    (prod (skipn 1 [2%nat; 2%nat])) i [1; 2; 3; 4])) 0.
Proof.
  apply (nd_averages_each_column rejecting_interpolator
           (Field [2%nat; 2%nat] (RealData [1; 2; 3; 4])) [1; 2; 3; 4]
           [[0; 1]; [0; 1]] 1%nat (BinEdges [0; 1; 2]) [0; 1; 2] (WScalar 1)
           true false false None true).
  - reflexivity.
  - reflexivity.
  - simpl. lia.
  - reflexivity.
  - apply getbins_edges. split; [discriminate|].
    split; [repeat constructor; discriminate | reflexivity].
  - repeat constructor; lra.
  - discriminate.
  - exact I.
Defined.

(** ** Variance requests on the leading axes *)

Lemma nd_column_interp_variance
    (RegularGridInterpolator :
       list (list R) -> list nat -> list (option C) -> result interpolant)
    (axes : list (list R)) (bins : list R) (weights : weights_arg)
    (gen : option generator) (fld : field) (p : list (option C) * list R) :
  nd_column_interp RegularGridInterpolator axes bins weights gen true fld <> Ok p.
Proof.
  unfold nd_column_interp.
  destruct (_sample_coords_interpolate _ _ _ _) as [[sc r_n]|e];
    cbn [bind]; [|discriminate].
  destruct (_field_average_interpolate _ _ _ _ _ _ _) as [[r sw]|e];
    cbn [bind]; [|discriminate].
  destruct (negb _); discriminate.
Qed.

Lemma nd_column_binned_complex_variance (indx : list nat) (weights : weights_arg)
    (sumweights : list R) (fld : field) (p : list C * list R) :
  is_complex (cells fld) = true ->
  nd_column_binned indx weights sumweights true fld <> Ok p.
Proof.
  intro Hc. unfold nd_column_binned.
  destruct (_field_average _ _ _ _) as [r|e]; cbn [bind]; [|discriminate].
  destruct (negb _); [discriminate|].
  rewrite field_variance_complex by exact Hc. discriminate.
Qed.

Lemma mapM_first_fails {A B : Type} (f : A -> result B) (a : A) (l : list A)
    (ys : list B) :
  (forall y, f a <> Ok y) -> mapM f (a :: l) <> Ok ys.
Proof.
  intros Hf. simpl. destruct (f a) as [y|e] eqn:E; cbn [bind]; [|discriminate].
  exfalso. exact (Hf y eq_refl).
Qed.

Lemma is_complex_fdata_column (n1 n2 i : nat) (d : fdata) :
  is_complex (fdata_column n1 n2 i d) = is_complex d.
Proof. destruct d; reflexivity. Qed.

(** When fewer axes are averaged than the field has, a variance request
    together with an interpolation method, or for a complex-valued field
    that has at least one column, gives no result either: the driver
    raises an error instead of returning. *)
Theorem nd_variance_unsupported
    (RegularGridInterpolator :
       list (list R) -> list nat -> list (option C) -> result interpolant)
    (fld : field) (coords : coords_arg) (bins : bins_arg) (n : nat)
    (weights : weights_arg) (average bin_ave log_bins : bool)
    (interpolation_method : option String.string)
    (interp_points_generator : option generator) (return_sumweights : bool) :
  coords_len coords <> Ok n ->
  interpolation_method <> None \/
  (is_complex (cells fld) = true /\ prod (skipn n (field_shape fld)) <> O) ->
  forall out,
    angular_average_nd RegularGridInterpolator fld coords bins (Some n) weights
      average bin_ave true log_bins interpolation_method
      interp_points_generator return_sumweights <> Ok out.
Proof.
  intros Hn Hcase out. unfold angular_average_nd.
  destruct (coords_len coords) as [len|e]; cbn [bind]; [|discriminate].
  destruct (negb (Nat.eqb len _)); [discriminate|].
  destruct (unsupported_method interpolation_method); [discriminate|].
  replace (Nat.eqb n len) with false
    by (symmetry; apply Nat.eqb_neq; intro E; apply Hn; rewrite E; reflexivity).
  destruct interpolation_method as [m|].
  - destruct (_getbins _ _ _) as [edges|e]; cbn [bind]; [|discriminate].
    destruct (len <? n)%nat; [discriminate|].
    destruct (negb (Nat.eqb _ _)); [discriminate|].
    destruct (interp_axes coords) as [axes|e]; cbn [bind]; [|discriminate].
    destruct (seq 0 (prod (skipn n (field_shape fld)))) as [|i0 is_].
    + cbn [map mapM bind rev]. discriminate.
    + cbn [map].
      match goal with
      | |- context [mapM ?F (?a :: ?l)] =>
          destruct (mapM F (a :: l)) as [cols|e] eqn:E; cbn [bind]; [|discriminate]
      end.
      exfalso. revert E. apply mapM_first_fails.
      intro y. apply nd_column_interp_variance.
  - destruct Hcase as [Hm|[Hc Hn2]]; [congruence|].
    destruct (_get_binweights _ _ _ _ _ _) as [[[indx centres] sw]|e];
      cbn [bind]; [|discriminate].
    destruct (len <? n)%nat; [discriminate|].
    destruct (negb (Nat.eqb _ _)); [discriminate|].
    destruct (prod (skipn n (field_shape fld))) as [|k] eqn:Ek; [congruence|].
    cbn [seq map].
    match goal with
    | |- context [mapM ?F (?a :: ?l)] =>
        destruct (mapM F (a :: l)) as [cols|e] eqn:E; cbn [bind]; [|discriminate]
    end.
    exfalso. revert E. apply mapM_first_fails.
    intro y. apply nd_column_binned_complex_variance.
    cbn [cells]. rewrite is_complex_fdata_column. exact Hc.
Qed.

Lemma nd_variance_unsupported_witness :
  coords_len (CoordsAxes [[0; 1]; [0; 1]]) <> Ok 1%nat /\
  forall out,
    angular_average_nd (constant_interpolator (0, 0))
      (Field [2%nat; 2%nat] (RealData [1; 2; 3; 4]))
      (CoordsAxes [[0; 1]; [0; 1]]) (BinEdges [0; 1; 2]) (Some 1%nat) (WScalar 1)
      true true true false (Some "linear"%string) None false <> Ok out.
Proof.
  split; [discriminate|].
  apply (nd_variance_unsupported (constant_interpolator (0, 0))
           (Field [2%nat; 2%nat] (RealData [1; 2; 3; 4]))
           (CoordsAxes [[0; 1]; [0; 1]]) (BinEdges [0; 1; 2]) 1%nat (WScalar 1)
           true true false (Some "linear"%string) None false).
  - discriminate.
  - left. discriminate.
Defined.

(** * The radii sampled by the interpolation path *)

Lemma nth_removelast_lt (l : list R) (b : nat) :
  (S b < length l)%nat -> nth b (removelast l) 0 = nth b l 0.
Proof.
  revert b; induction l as [|x l IH]; intros b Hb; simpl in Hb; [lia|].
  destruct l as [|y l]; [simpl in Hb; lia|].
  change (removelast (x :: y :: l)) with (x :: removelast (y :: l)).
  destruct b as [|b]; [reflexivity|].
  cbn [nth]. apply IH. simpl. simpl in Hb. lia.
Qed.

Lemma length_removelast_tl (l : list R) :
  length (removelast l) = (length l - 1)%nat /\ length (tl l) = (length l - 1)%nat.
Proof.
  split.
  - induction l as [|x l IH]; [reflexivity|].
    destruct l as [|y l]; [reflexivity|].
    change (removelast (x :: y :: l)) with (x :: removelast (y :: l)).
    cbn [length] in *. lia.
  - destruct l; simpl; lia.
Qed.

Lemma strictly_increasing_step (edges : list R) (b : nat) :
  strictly_increasing edges -> (S b < length edges)%nat ->
  nth b edges 0 < nth (S b) edges 0.
Proof.
  intro Hs. revert b. induction Hs as [|e rest Hrest IH Hall]; intros b Hb;
    simpl in Hb; [lia|].
  destruct b as [|b].
  - cbn [nth]. rewrite Forall_forall in Hall. apply Hall, nth_In. lia.
  - cbn [nth]. apply IH. lia.
Qed.

Lemma bin_centres_nth (edges : list R) (log_bins : bool) (b : nat) :
  (b < nbins edges)%nat ->
  nth b (bin_centres edges log_bins) 0
  = if log_bins
    then exp ((ln (nth (S b) edges 0) + ln (nth b edges 0)) / 2)
    else (nth (S b) edges 0 + nth b edges 0) / 2.
Proof.
  unfold nbins. intro Hb.
  destruct (length_removelast_tl edges) as [Hr Ht].
  assert (Htl : nth b (tl edges) 0 = nth (S b) edges 0).
  { destruct edges; [simpl in Hb; lia | reflexivity]. }
  unfold bin_centres. destruct log_bins.
  - rewrite (nth_map2 _ _ _ b 0 0) by lia.
    rewrite Htl, nth_removelast_lt by lia. reflexivity.
  - rewrite (nth_map2 _ _ _ b 0 0) by lia.
    rewrite Htl, nth_removelast_lt by lia. reflexivity.
Qed.

Lemma length_bin_centres (edges : list R) (log_bins : bool) :
  length (bin_centres edges log_bins) = nbins edges.
Proof.
  destruct (length_removelast_tl edges) as [Hr Ht].
  unfold bin_centres, nbins. destruct log_bins; rewrite map2_length; lia.
Qed.

Lemma geometric_mean_between (lo hi : R) :
  0 < lo -> lo < hi ->
  exp ((ln hi + ln lo) / 2) = sqrt (lo * hi) /\
  lo < exp ((ln hi + ln lo) / 2) < hi.
Proof.
  intros Hlo Hlt.
  assert (Hhi : 0 < hi) by lra.
  assert (Hln : ln lo < ln hi) by (apply ln_increasing; assumption).
  split.
  - apply Rsqr_inj.
    + left. apply exp_pos.
    + apply sqrt_pos.
    + rewrite Rsqr_sqrt by (apply Rmult_le_pos; lra).
      unfold Rsqr. rewrite <- exp_plus.
      replace ((ln hi + ln lo) / 2 + (ln hi + ln lo) / 2) with (ln lo + ln hi)
        by field.
      rewrite exp_plus, !exp_ln by assumption. reflexivity.
  - split.
    + rewrite <- (exp_ln lo) at 1 by exact Hlo. apply exp_increasing. lra.
    + rewrite <- (exp_ln hi) at 2 by exact Hhi. apply exp_increasing. lra.
Qed.

Lemma interpolation_example_returns :
  exists out,
    angular_average (constant_interpolator (0, 0))
      (Field [3%nat] (RealData [1; 2; 3])) (CoordsAxes [[0; 1; 2]])
      (BinEdges [0; 1; 9]) (WScalar 1) true true false false
      (Some "linear"%string) None true = Ok out.
Proof.
  unfold angular_average.
  change (unsupported_method (Some "linear"%string)) with false. cbv iota.
  change (resolve_coords_grid _ _ _) with (Ok (_magnitude_grid [[0; 1; 2]])).
  cbn [bind]. rewrite getbins_example. cbn [bind interp_axes].
  rewrite sample_coords_example. cbn [bind].
  unfold _field_average_interpolate, constant_interpolator.
  cbn [weights_size_ok negb field_shape cells fdata_len np_real length
       cell_weights repeat to_complex map map2 bind Nat.eqb].
  eexists. reflexivity.
Qed.

(** With an interpolation method, the bins that [angular_average] returns
    are the radii at which the field was sampled, whatever [bin_ave] is:
    one per bin, the midpoint of the two edges of the bin or, with
    logarithmic bins and positive edges, their geometric mean; in both
    cases strictly inside the bin. *)
Theorem interpolated_bins_are_bin_centres
    (RegularGridInterpolator :
       list (list R) -> list nat -> list (option C) -> result interpolant)
    (fld : field) (coords : coords_arg) (g : ndarray) (bins : bins_arg)
    (edges : list R) (weights : weights_arg)
    (average bin_ave get_variance log_bins : bool) (m : String.string)
    (interp_points_generator : option generator) (return_sumweights : bool)
    (out : averaged) :
  resolve_coords_grid fld coords (Some m) = Ok g ->
  _getbins bins g log_bins = Ok edges ->
  strictly_increasing edges ->
  (log_bins = true -> Forall (fun e => 0 < e) edges) ->
  angular_average RegularGridInterpolator fld coords bins weights
    average bin_ave get_variance log_bins (Some m) interp_points_generator
    return_sumweights = Ok out ->
  length (out_bins out) = nbins edges /\
  forall b, (b < nbins edges)%nat ->
    nth b (out_bins out) 0
    = (if log_bins then sqrt (nth b edges 0 * nth (S b) edges 0)
       else (nth b edges 0 + nth (S b) edges 0) / 2) /\
    nth b edges 0 < nth b (out_bins out) 0 < nth (S b) edges 0.
Proof.
  intros Hres Hgb Hs Hpos. unfold angular_average.
  destruct (unsupported_method (Some m)); [discriminate|].
  rewrite Hres. cbn [bind]. rewrite Hgb. cbn [bind].
  destruct (interp_axes coords) as [axes|e]; cbn [bind]; [|discriminate].
  destruct (_sample_coords_interpolate _ _ _ _) as [[sc r_n]|e];
    cbn [bind]; [|discriminate].
  destruct (_field_average_interpolate _ _ _ _ _ _ _) as [[r sw]|e];
    cbn [bind]; [|discriminate].
  destruct get_variance; cbn [bind]; [discriminate|].
  intro H; inversion H; subst; clear H. cbn [out_bins].
  split; [apply length_bin_centres|].
  intros b Hb. rewrite bin_centres_nth by exact Hb.
  assert (Hstep : nth b edges 0 < nth (S b) edges 0).
  { apply strictly_increasing_step; [exact Hs | unfold nbins in Hb; lia]. }
  destruct log_bins.
  - assert (H0 : 0 < nth b edges 0).
    { specialize (Hpos eq_refl). rewrite Forall_forall in Hpos.
      apply Hpos, nth_In. unfold nbins in Hb. lia. }
    destruct (geometric_mean_between _ _ H0 Hstep) as [Hg Hb2].
    split; [exact Hg | exact Hb2].
  - split; [field | lra].
Qed.

Lemma interpolated_bins_are_bin_centres_witness :
  exists out,
    angular_average (constant_interpolator (0, 0))
      (Field [3%nat] (RealData [1; 2; 3])) (CoordsAxes [[0; 1; 2]])
      (BinEdges [0; 1; 9]) (WScalar 1) true true false false
      (Some "linear"%string) None true = Ok out /\
    length (out_bins out) = nbins [0; 1; 9]%R /\
    forall b, (b < nbins [0; 1; 9]%R)%nat ->
      nth b (out_bins out) 0
      = (if false then sqrt (nth b [0; 1; 9] 0 * nth (S b) [0; 1; 9] 0)
         else (nth b [0; 1; 9] 0 + nth (S b) [0; 1; 9] 0) / 2) /\
      nth b [0; 1; 9] 0 < nth b (out_bins out) 0 < nth (S b) [0; 1; 9] 0.
Proof.
  destruct interpolation_example_returns as [out E].
  exists out. split; [exact E|].
  apply (interpolated_bins_are_bin_centres (constant_interpolator (0, 0))
           (Field [3%nat] (RealData [1; 2; 3])) (CoordsAxes [[0; 1; 2]])
           (_magnitude_grid [[0; 1; 2]]) (BinEdges [0; 1; 9]) [0; 1; 9]
           (WScalar 1) true true false false "linear"%string None true out).
  - reflexivity.
  - apply getbins_example.
  - repeat constructor; lra.
  - discriminate.
  - exact E.
Defined.

(** * The mask of the modes with a zero component *)

Lemma length_filter_flat_map {A B : Type} (P : B -> bool) (g : A -> list B)
    (l : list A) :
  length (filter P (flat_map g l))
  = list_sum (map (fun x => length (filter P (g x))) l).
Proof.
  induction l as [|a l IH]; simpl; [reflexivity|].
  rewrite filter_app, length_app, IH. reflexivity.
Qed.

Lemma list_sum_indicator {A : Type} (P : A -> bool) (k : nat) (l : list A) :
  list_sum (map (fun x => if P x then k else 0%nat) l)
  = (length (filter P l) * k)%nat.
Proof.
  induction l as [|a l IH]; simpl; [reflexivity|].
  rewrite IH. destruct (P a); simpl; lia.
Qed.

Lemma length_filter_map_cons (P : R -> bool) (x : R) (l : list (list R)) :
  length (filter (forallb P) (map (cons x) l))
  = if P x then length (filter (forallb P) l) else 0%nat.
Proof.
  induction l as [|t l IH]; simpl.
  - destruct (P x); reflexivity.
  - destruct (P x) eqn:Hx; simpl in *.
    + destruct (forallb P t); simpl; rewrite IH; reflexivity.
    + exact IH.
Qed.

(** The tuples of a grid without a rejected coordinate: as many as the
    product of the numbers of accepted coordinates of the axes. *)
Lemma count_meshgrid_ij (P : R -> bool) (axes : list (list R)) :
  length (filter (forallb P) (meshgrid_ij axes))
  = prod (map (fun a => length (filter P a)) axes).
Proof.
  induction axes as [|a rest IH]; [reflexivity|].
  cbn [meshgrid_ij map]. rewrite length_filter_flat_map.
  rewrite (map_ext _ (fun x => if P x then length (filter (forallb P)
                                                     (meshgrid_ij rest))
                               else 0%nat))
    by (intro x; apply length_filter_map_cons).
  rewrite list_sum_indicator, IH. reflexivity.
Qed.

Lemma count_meshgrid_xy (P : R -> bool) (axes : list (list R)) :
  length (filter (forallb P) (meshgrid_xy axes))
  = prod (map (fun a => length (filter P a)) axes).
Proof.
  destruct axes as [|a1 [|a2 rest]]; try apply count_meshgrid_ij.
  cbn [meshgrid_xy map]. rewrite length_filter_flat_map.
  assert (Hin : forall y,
    length (filter (forallb P)
              (flat_map (fun x => map (fun t => x :: y :: t) (meshgrid_ij rest)) a1))
    = if P y
      then (length (filter P a1)
            * length (filter (forallb P) (meshgrid_ij rest)))%nat
      else 0%nat).
  { intro y. rewrite length_filter_flat_map.
    rewrite (map_ext _ (fun x => if P x
                                 then (if P y
                                       then length (filter (forallb P)
                                                      (meshgrid_ij rest))
                                       else 0%nat)
                                 else 0%nat)).
    - rewrite list_sum_indicator. destruct (P y); lia.
    - intro x.
      rewrite <- (map_map (cons y) (cons x)).
      rewrite length_filter_map_cons.
      destruct (P x); [|reflexivity].
      apply length_filter_map_cons. }
  rewrite (map_ext _ _ Hin), list_sum_indicator, count_meshgrid_ij.
  unfold prod. cbn [fold_right].
  change (fold_right Nat.mul 1%nat ?l) with (prod l). lia.
Qed.

Lemma prod_xy_shape (s : list nat) : prod (xy_shape s) = prod s.
Proof. destruct s as [|n1 [|n2 r]]; try reflexivity. unfold prod. simpl. lia. Qed.

(** The mask has one cell per tuple of the first [len(kmag.shape)]
    wavemode arrays, its extents being their lengths with the first two
    swapped; a cell is set exactly when no component of its tuple is zero;
    and the cells that are set are as many as the product, over the axes,
    of the numbers of non-zero wavemodes. *)
Theorem ignore_zero_ki_counts (freq : list (list R)) (kmag : ndarray) :
  let axes := firstn (length (shape kmag)) freq in
  let m := ignore_zero_ki freq kmag in
  mask_shape m = xy_shape (map (@length R) axes) /\
  length (mask_cells m) = prod (mask_shape m) /\
  prod (mask_shape m) = prod (map (@length R) axes) /\
  mask_cells m
  = map (fun p => forallb (fun c => negb (Reqb c 0)) p) (meshgrid_xy axes) /\
  length (filter (fun c => c) (mask_cells m))
  = prod (map (fun a => length (filter (fun c => negb (Reqb c 0)) a)) axes).
Proof.
  intros axes m. unfold m, ignore_zero_ki. fold axes. cbn [mask_shape mask_cells].
  split; [reflexivity|]. split.
  - rewrite length_map, length_meshgrid_xy, prod_xy_shape. reflexivity.
  - split; [apply prod_xy_shape|]. split; [reflexivity|].
    rewrite <- count_meshgrid_xy.
    generalize (meshgrid_xy axes). intro l.
    induction l as [|p l IH]; simpl; [reflexivity|].
    destruct (forallb _ p); simpl; rewrite IH; reflexivity.
Qed.

(** * The discretisation of a particle sample *)

Lemma Rsum_map_sub (m : R) (h : list R) :
  Rsum (map (fun x => x - m) h) = Rsum h - INR (length h) * m.
Proof.
  induction h as [|x h IH]; [simpl; ring|].
  cbn [map length]. rewrite !Rsum_cons, IH, S_INR. ring.
Qed.

Lemma Rsum_map_ratio (m : R) (h : list R) :
  Rsum (map (fun x => x / m - 1) h) = Rsum h / m - INR (length h).
Proof.
  induction h as [|x h IH]; [simpl; unfold Rdiv; ring|].
  cbn [map length]. rewrite !Rsum_cons, IH, S_INR. unfold Rdiv. ring.
Qed.

Lemma valid_map_Some {A B : Type} (g : A -> B) (l : list A) :
  valid (map (fun x => Some (g x)) l) = map g l.
Proof. induction l as [|a l IH]; simpl; [reflexivity | rewrite IH; reflexivity]. Qed.

(** Data converted to mean zero: when every cell is a number the cells
    add up to zero, and they all are numbers unless the histogram was
    divided by a mean of zero. *)
Lemma to_mean_zero_sum (dimensionless : bool) (h : list R) :
  (Forall (fun c => c <> None) (to_mean_zero dimensionless h) ->
   Rsum (valid (to_mean_zero dimensionless h)) = 0) /\
  (dimensionless = false \/ Rsum h <> 0 ->
   Forall (fun c => c <> None) (to_mean_zero dimensionless h)) /\
  length (to_mean_zero dimensionless h) = length h.
Proof.
  unfold to_mean_zero, np_mean.
  destruct h as [|x t]; [repeat split; auto; constructor|].
  set (h := x :: t).
  assert (Hn : INR (length h) <> 0).
  { unfold h. cbn [length]. rewrite S_INR. pose proof (pos_INR (length t)). lra. }
  destruct dimensionless.
  - destruct (Req_dec_T (Rsum h / INR (length h)) 0) as [E|E].
    + split; [|split].
      * intro Hall. exfalso. unfold h in Hall. cbn [map] in Hall.
        inversion Hall as [|? ? Hx _]. apply Hx. reflexivity.
      * intros [H|H]; [discriminate|]. exfalso. apply H.
        apply (Rmult_eq_compat_r (INR (length h))) in E.
        unfold Rdiv in E. rewrite Rmult_assoc, Rinv_l, Rmult_1_r, Rmult_0_l in E
          by exact Hn.
        exact E.
      * apply length_map.
    + split; [|split].
      * intros _. rewrite valid_map_Some, Rsum_map_ratio. field.
        split; [exact Hn|].
        intro H0. apply E. rewrite H0. unfold Rdiv. ring.
      * intros _. apply Forall_forall. intros c Hc.
        apply in_map_iff in Hc as [y [<- _]]. discriminate.
      * apply length_map.
  - split; [|split].
    + intros _. rewrite valid_map_Some, Rsum_map_sub. field. exact Hn.
    + intros _. apply Forall_forall. intros c Hc.
      apply in_map_iff in Hc as [y [<- _]]. discriminate.
    + apply length_map.
Qed.

(** Whatever the histogram routine returns, the field that
    [discretize_N] hands back has mean zero: when its cells are numbers
    they add up to zero, for the second field as for the first; and with
    [dimensionless] unset the cells always are numbers. *)
Theorem discretized_field_has_zero_mean
    (histogramdd :
       ndarray -> list R -> list (list R) -> option ndarray -> result ndarray)
    (deltax : ndarray) (boxlength : per_axis R) (deltax2 : option ndarray)
    (N : per_axis nat) (weights weights2 : option ndarray)
    (dimensionless : bool) (out : discretized) :
  discretize_N histogramdd deltax boxlength deltax2 N weights weights2
    dimensionless = Ok out ->
  (Forall (fun c => c <> None) (d_deltax out) ->
   Rsum (valid (d_deltax out)) = 0) /\
  (forall d2, d_deltax2 out = Some d2 ->
     Forall (fun c => c <> None) d2 -> Rsum (valid d2) = 0) /\
  (dimensionless = false ->
   Forall (fun c => c <> None) (d_deltax out) /\
   forall d2, d_deltax2 out = Some d2 -> Forall (fun c => c <> None) d2).
Proof.
  unfold discretize_N.
  destruct (shape01 deltax) as [[Npart1 dim]|e]; cbn [bind]; [|discriminate].
  destruct (Npart1 <? dim)%nat; [discriminate|].
  match goal with
  | |- context [bind ?M _] => destruct M as [s2|e]; cbn [bind]; [|discriminate]
  end.
  destruct (histogramdd deltax _ _ weights) as [h|e]; cbn [bind]; [|discriminate].
  match goal with
  | |- context [bind ?M _] => destruct M as [h2|e] eqn:E2; cbn [bind]; [|discriminate]
  end.
  intro H; inversion H; subst; clear H.
  cbn [d_deltax d_deltax2].
  split; [apply to_mean_zero_sum|]. split.
  - intros d2 Hd2. destruct h2 as [x|]; cbn [option_map] in Hd2; [|discriminate].
    injection Hd2 as <-. apply to_mean_zero_sum.
  - intro Hd. split.
    + apply to_mean_zero_sum. left. exact Hd.
    + intros d2 Hd2. destruct h2 as [x|]; cbn [option_map] in Hd2; [|discriminate].
      injection Hd2 as <-. apply to_mean_zero_sum. left. exact Hd.
Qed.

Lemma discretize_example_returns :
  exists out,
    discretize_N (constant_histogram (NDArray [2%nat] [1; 3]))
      (NDArray [4%nat; 1%nat] [1 / 4; 3 / 4; 7 / 8; 5 / 8]) (Same 1) None
      (Same 2%nat) None None true = Ok out.
Proof. eexists. reflexivity. Qed.

Lemma discretized_field_has_zero_mean_witness :
  exists out,
    discretize_N (constant_histogram (NDArray [2%nat] [1; 3]))
      (NDArray [4%nat; 1%nat] [1 / 4; 3 / 4; 7 / 8; 5 / 8]) (Same 1) None
      (Same 2%nat) None None true = Ok out /\
    (Forall (fun c => c <> None) (d_deltax out) ->
     Rsum (valid (d_deltax out)) = 0) /\
    (forall d2, d_deltax2 out = Some d2 ->
       Forall (fun c => c <> None) d2 -> Rsum (valid d2) = 0) /\
    (true = false ->
     Forall (fun c => c <> None) (d_deltax out) /\
     forall d2, d_deltax2 out = Some d2 -> Forall (fun c => c <> None) d2).
Proof.
  destruct discretize_example_returns as [out E].
  exists out. split; [exact E|].
  exact (discretized_field_has_zero_mean _ _ _ _ _ _ _ _ _ E).
Defined.
